(** * YT-Downlod-Bot: the orchestration core of [index.js]

    A shallow embedding of the Telegram download bot.  JavaScript strings
    are sequences of code units; the model uses [string], whose characters
    are the code units 0..255 (ASCII and the Latin-1 supplement).  Every
    path the program builds is [path.join(DOWNLOADS_DIR, name)], so a path
    is identified with the file name inside the downloads directory.

    Asynchronous functions are actions of a state-and-exception monad over
    a world made of the directory and the history of requests; an [await]
    is a bind.  The downloader, the encoder, the chat transport and the
    clock are fields of an environment and are arbitrary.  The first part
    of the file is the program, the second its properties. *)

From Stdlib Require Import Bool Arith ZArith Lia List String Ascii.
From Stdlib Require Import DecimalString Sorted.
From Stdlib Require DecimalPos DecimalZ.
Import ListNotations.
Open Scope string_scope.
Open Scope Z_scope.

(** ** Strings *)

Module Str.

Definition code (c : ascii) : N := N_of_ascii c.

Definition inRange (lo hi : N) (c : ascii) : bool :=
  (N.leb lo (code c) && N.leb (code c) hi)%bool.

Definition isUpper (c : ascii) : bool := inRange 65 90 c.
Definition isLower (c : ascii) : bool := inRange 97 122 c.
Definition isDigit (c : ascii) : bool := inRange 48 57 c.

(** [\w] is [[A-Za-z0-9_]]. *)
Definition isWord (c : ascii) : bool :=
  (isUpper c || isLower c || isDigit c || N.eqb (code c) 95)%bool.

(** [\s] on the code units below 256: TAB, LF, VT, FF, CR, space and the
    no-break space. *)
Definition isSpace (c : ascii) : bool :=
  (inRange 9 13 c || N.eqb (code c) 32 || N.eqb (code c) 160)%bool.

(** [String.prototype.toLowerCase] on one code unit: the ASCII capitals
    and the Latin-1 capitals U+00C0..U+00DE (but not the sign U+00D7)
    move up by 32. *)
Definition lowerChar (c : ascii) : ascii :=
  if (isUpper c || (inRange 192 222 c && negb (N.eqb (code c) 215)))%bool
  then ascii_of_N (code c + 32) else c.

Fixpoint toLowerCase (s : string) : string :=
  match s with
  | EmptyString => EmptyString
  | String c s' => String (lowerChar c) (toLowerCase s')
  end.

(** The canonical form the [i] flag of a regular expression compares:
    only an ASCII letter is identified with its other case. *)
Definition fold (c : ascii) : ascii :=
  if isUpper c then ascii_of_N (code c + 32) else c.

Definition ciEq (c x : ascii) : bool := Ascii.eqb (fold x) (fold c).

(** [s.startsWith(p)] *)
Fixpoint startsWith (s p : string) {struct p} : bool :=
  match p with
  | EmptyString => true
  | String a p' =>
      match s with
      | EmptyString => false
      | String b s' => (Ascii.eqb a b && startsWith s' p')%bool
      end
  end.

(** [s.includes(p)] *)
Fixpoint includes (s p : string) : bool :=
  (startsWith s p ||
   match s with
   | EmptyString => false
   | String _ s' => includes s' p
   end)%bool.

Definition isEmpty (s : string) : bool :=
  match s with EmptyString => true | _ => false end.

(** [a || b] on two strings: the empty string is falsy. *)
Definition orElse (a b : string) : string := if isEmpty a then b else a.

Fixpoint all (p : ascii -> bool) (s : string) : bool :=
  match s with
  | EmptyString => true
  | String c s' => (p c && all p s')%bool
  end.

(** The prefix of [s] of [n] code units. *)
Fixpoint take (n : nat) (s : string) : string :=
  match n, s with
  | S n', String c s' => String c (take n' s')
  | _, _ => EmptyString
  end.

(** Template rendering of an integer. *)
Definition ofZ (z : Z) : string := NilZero.string_of_int (Z.to_int z).

End Str.

(** ** Regular expressions

    The fragment the program's five patterns are written in, matched the
    way the JavaScript engine does: by backtracking, alternatives left to
    right, quantifiers greedy.  All five patterns carry the [i] flag. *)

Module Regex.

Inductive regex : Type :=
| Eps                              (* the empty pattern *)
| Chr (p : ascii -> bool)          (* one code unit: a literal or a class *)
| Cat (r1 r2 : regex)
| Alt (r1 r2 : regex)              (* r1|r2 *)
| Opt (r : regex)                  (* (?:r)? *)
| Rep (n : nat) (r : regex)        (* r{n} *)
| Star (p : ascii -> bool)         (* [class]* *)
| Eol.                             (* $ *)

(** A literal under the [i] flag. *)
Definition ch (c : ascii) : regex := Chr (Str.ciEq c).

Fixpoint lit (s : string) : regex :=
  match s with
  | EmptyString => Eps
  | String c s' => Cat (ch c) (lit s')
  end.

Definition plus (p : ascii -> bool) : regex := Cat (Chr p) (Star p).

Fixpoint alts (rs : list regex) (last : regex) : regex :=
  match rs with
  | [] => last
  | r :: rs' => Alt r (alts rs' last)
  end.

(** [run r s k]: match [r] at the start of [s] and hand what is left to
    the continuation [k]; when [k] refuses, backtrack. *)
Fixpoint run {A : Type} (r : regex) (s : string) (k : string -> option A)
  : option A :=
  match r with
  | Eps => k s
  | Chr p =>
      match s with
      | String c s' => if p c then k s' else None
      | EmptyString => None
      end
  | Cat r1 r2 => run r1 s (fun s' => run r2 s' k)
  | Alt r1 r2 =>
      match run r1 s k with
      | Some x => Some x
      | None => run r2 s k
      end
  | Opt r1 =>
      match run r1 s k with
      | Some x => Some x
      | None => k s
      end
  | Rep n r1 =>
      (fix rep (n : nat) (s : string) (k : string -> option A) : option A :=
         match n with
         | O => k s
         | S n' => run r1 s (fun s' => rep n' s' k)
         end) n s k
  | Star p =>
      (fix star (s : string) : option A :=
         match s with
         | String c s' =>
             if p c
             then match star s' with
                  | Some x => Some x
                  | None => k s
                  end
             else k s
         | EmptyString => k s
         end) s
  | Eol =>
      match s with
      | EmptyString => k s
      | String _ _ => None
      end
  end.

(** The match at the start of [s], if any: the text it covers. *)
Definition matchHere (r : regex) (s : string) : option string :=
  match run r s (fun rest => Some rest) with
  | Some rest => Some (Str.take (String.length s - String.length rest) s)
  | None => None
  end.

(** [RegExp.prototype.exec] without the [g] flag: the first start index,
    from the left, at which the pattern matches. *)
Fixpoint exec (r : regex) (s : string) : option string :=
  match matchHere r s with
  | Some m => Some m
  | None =>
      match s with
      | EmptyString => None
      | String _ s' => exec r s'
      end
  end.

(** [regex.test(s)] *)
Definition test (r : regex) (s : string) : bool :=
  match exec r s with Some _ => true | None => false end.

End Regex.

Import Regex.

(** ** Constants and pure helpers of [index.js] *)

Definition TELEGRAM_VIDEO_LIMIT_BYTES : Z := 50 * 1024 * 1024.

Definition idChar (c : ascii) : bool := (Str.isWord c || Ascii.eqb c "-")%bool.
Definition nonSpace (c : ascii) : bool := negb (Str.isSpace c).

(** The pattern is
      http s? :// (www.)? ( youtube.com/watch?v= ID TAIL | youtu.be/ ID TAIL )
    under the [i] flag, where ID is eleven characters of [[\w-]] and TAIL
    is a greedy run of non-whitespace.  Its only capture group encloses the
    whole pattern, so [match[1]] is the matched text. *)
Definition YOUTUBE_URL_REGEX : regex :=
  Cat (lit "http")
   (Cat (Opt (ch "s"))
    (Cat (lit "://")
     (Cat (Opt (lit "www."))
      (Alt
        (Cat (lit "youtube.com/watch?v=")
             (Cat (Rep 11 (Chr idChar)) (Star nonSpace)))
        (Cat (lit "youtu.be/")
             (Cat (Rep 11 (Chr idChar)) (Star nonSpace))))))).

(** [text] is [None] for a JavaScript [null]/[undefined]. *)
Definition extractYouTubeUrl (text : option string) : option string :=
  match text with
  | None => None
  | Some t => if Str.isEmpty t then None else exec YOUTUBE_URL_REGEX t
  end.


(** [/\.part$/i], [/\.(mp4|mkv|webm|mov|m4v)$/i], [/\.mp4$/i] and
    [/\.f\d+\./i]. *)
Definition PART_REGEX : regex := Cat (lit ".part") Eol.

Definition MEDIA_EXT_REGEX : regex :=
  Cat (ch ".")
      (Cat (alts [lit "mp4"; lit "mkv"; lit "webm"; lit "mov"] (lit "m4v")) Eol).

Definition MP4_REGEX : regex := Cat (lit ".mp4") Eol.

Definition FORMAT_TAG_REGEX : regex :=
  Cat (lit ".f") (Cat (plus Str.isDigit) (ch ".")).

Definition isPartial (name : string) : bool := test PART_REGEX name.
Definition hasMediaExt (name : string) : bool := test MEDIA_EXT_REGEX name.
Definition isMp4 (name : string) : bool := test MP4_REGEX name.
Definition isIntermediate (name : string) : bool := test FORMAT_TAG_REGEX name.

(** [path.extname] on a file name: from the last dot on, unless that dot
    opens the name or the name is [..]. *)
Fixpoint lastDotSuffix (s : string) : option string :=
  match s with
  | EmptyString => None
  | String c s' =>
      match lastDotSuffix s' with
      | Some e => Some e
      | None => if Ascii.eqb c "." then Some s else None
      end
  end.

Definition extname (p : string) : string :=
  match p with
  | EmptyString => ""
  | String _ rest =>
      if String.eqb p ".." then ""
      else match lastDotSuffix rest with Some e => e | None => "" end
  end.

(** [path.basename(p, ext)] for an [ext] that [extname] returned. *)
Definition basenameWithout (p ext : string) : string :=
  Str.take (String.length p - String.length ext) p.

(** ** Errors *)

Record JsError : Type := mkError {
  errName : string;
  errMessage : string;
  errStderr : string      (* empty when the error carries no [stderr] *)
}.

(** [new Error(msg)] *)
Definition newError (msg : string) : JsError := mkError "Error" msg "".

(** [Error.prototype.toString] *)
Definition errorToString (e : JsError) : string :=
  if Str.isEmpty (errName e) then errMessage e
  else if Str.isEmpty (errMessage e) then errName e
  else errName e ++ ": " ++ errMessage e.

(** [String(error?.stderr || error?.message || error)] *)
Definition errorText (e : JsError) : string :=
  Str.orElse (errStderr e) (Str.orElse (errMessage e) (errorToString e)).

Definition looksLikeMergeIssue (e : JsError) : bool :=
  let message := Str.toLowerCase (errorText e) in
  (Str.includes message "ffmpeg" ||
   Str.includes message "intermediate stream files" ||
   Str.includes message "stream output was not found")%bool.

(** ** The downloads directory *)

Record Dirent : Type := mkDirent {
  d_name : string;
  mtimeMs : Z;     (* only compared, so the order of the values is all that counts *)
  d_size : Z
}.

(** The entries in the order [readdirSync] lists them. *)
Definition Dir : Type := list Dirent.

Module Fs.

Definition hasName (p : string) (e : Dirent) : bool := String.eqb (d_name e) p.

Definition exists_ (fs : Dir) (p : string) : bool := existsb (hasName p) fs.
Definition stat (fs : Dir) (p : string) : option Dirent := find (hasName p) fs.
Definition unlink (fs : Dir) (p : string) : Dir :=
  filter (fun e => negb (hasName p e)) fs.
Definition readdir (fs : Dir) : list string := map d_name fs.

(** [fs.statSync(path.join(dir, name)).mtimeMs] inside a sort comparator:
    the name comes from the listing just read, so the entry is there. *)
Definition mtimeOf (fs : Dir) (name : string) : Z :=
  match stat fs name with Some e => mtimeMs e | None => 0 end.

End Fs.

(** [Array.prototype.sort(cmp)]: the sort is stable, so with a comparator
    that orders by a key the result is the one stable arrangement; it is
    computed here by insertion. *)
Fixpoint insertBy {A : Type} (cmp : A -> A -> Z) (x : A) (l : list A) : list A :=
  match l with
  | [] => [x]
  | y :: l' => if cmp x y <=? 0 then x :: l else y :: insertBy cmp x l'
  end.

Definition sortBy {A : Type} (cmp : A -> A -> Z) (l : list A) : list A :=
  fold_right (insertBy cmp) [] l.

(** [(a, b) => statSync(b).mtimeMs - statSync(a).mtimeMs] *)
Definition newestFirst (fs : Dir) (a b : string) : Z :=
  Fs.mtimeOf fs b - Fs.mtimeOf fs a.

(** The [matches] array of [resolveFileByPrefix]. *)
Definition prefixMatches (fs : Dir) (base : string) : list string :=
  sortBy (newestFirst fs)
    (filter (fun name => negb (isPartial name))
       (filter (fun name => Str.startsWith name base) (Fs.readdir fs))).

(** The [matches] array of [runAndResolveFile]. *)
Definition mediaMatches (fs : Dir) (requestedBase : string) : list string :=
  sortBy (newestFirst fs)
    (filter hasMediaExt
       (filter (fun name => negb (isPartial name))
          (filter (fun name => Str.startsWith name requestedBase) (Fs.readdir fs)))).

Definition cleanMp4 (matches : list string) : option string :=
  find (fun name => (isMp4 name && negb (isIntermediate name))%bool) matches.

Definition cleanOther (matches : list string) : option string :=
  find (fun name => negb (isIntermediate name)) matches.

(** ** Collaborators, the world and the effect monad *)

Record YtDlpOptions : Type := mkOptions {
  o_format : string;
  o_output : string;
  o_concurrentFragments : Z;
  o_noWarnings : bool;
  o_noPlaylist : bool;
  o_ffmpegLocation : option string
}.

(** What the program asks of its collaborators and of the file system, in
    the order it asks.  The [statSync] calls of a sort comparator read the
    listing taken by the [readdirSync] before them and are not recorded one
    by one. *)
Inductive Event : Type :=
| EvExists (p : string)
| EvUnlink (p : string)
| EvReaddir
| EvStat (p : string)
| EvYtDlp (url : string) (opts : YtDlpOptions)
| EvSpawn (bin : string) (args : list string)
| EvSendMessage (chatId : Z) (text : string)
| EvEditMessageText (text : string) (chatId messageId : Z)
| EvSendVideo (chatId : Z) (file caption : string)
| EvSetInterval
| EvClearInterval
| EvConsoleError (text : string).

(** How a spawned process ends for [mergeWithFfmpeg]: its [error] event
    fires, or it closes with an exit code ([None] for [null], a process
    ended by a signal) after writing chunks to its standard error. *)
Inductive ProcOutcome : Type :=
| SpawnError (err : JsError)
| Closed (code : option Z) (stderrChunks : list string).

Inductive Result (A : Type) : Type :=
| Ok (a : A)
| Throw (e : JsError).
Arguments Ok {A} a.
Arguments Throw {A} e.

(** The configuration read at start-up and the behaviour of everything
    outside the program.  A collaborator may answer differently on every
    call: it sees the whole history. *)
Record Env : Type := mkEnv {
  TARGET_HEIGHT : Z;
  YTDLP_CONCURRENT_FRAGMENTS : Z;
  FFMPEG_PATH : string;
  Date_now : list Event -> Z;
  ytDlp_run : list Event -> string -> YtDlpOptions -> Dir -> option JsError * Dir;
  ffmpeg_run : list Event -> string -> list string -> Dir -> ProcOutcome * Dir;
  bot_sendMessage : list Event -> Z -> string -> Result Z;
  bot_editMessageText : list Event -> string -> Z -> Z -> option JsError;
  bot_sendVideo : list Event -> Z -> string -> string -> option JsError
}.

Record World : Type := mkWorld {
  files : Dir;
  trace : list Event
}.

Definition M (A : Type) : Type := World -> Result A * World.

Definition ret {A : Type} (a : A) : M A := fun w => (Ok a, w).

Definition throw {A : Type} (e : JsError) : M A := fun w => (Throw e, w).

Definition bind {A B : Type} (m : M A) (k : A -> M B) : M B :=
  fun w =>
    match m w with
    | (Ok a, w') => k a w'
    | (Throw e, w') => (Throw e, w')
    end.

Declare Scope js_scope.
Delimit Scope js_scope with js.
Notation "x <- m ;; k" := (bind m (fun x => k))
  (at level 61, m at next level, right associativity) : js_scope.
Notation "m ;; k" := (bind m (fun _ => k))
  (at level 61, right associativity) : js_scope.
Open Scope js_scope.

(** [try { body } catch (error) { handler }] *)
Definition tryCatch {A : Type} (body : M A) (handler : JsError -> M A) : M A :=
  fun w =>
    match body w with
    | (Ok a, w') => (Ok a, w')
    | (Throw e, w') => handler e w'
    end.

(** [try { body } finally { fin }] *)
Definition tryFinally {A : Type} (body : M A) (fin : M unit) : M A :=
  fun w =>
    match body w with
    | (r, w') =>
        match fin w' with
        | (Ok _, w'') => (r, w'')
        | (Throw e, w'') => (Throw e, w'')
        end
    end.

(** [for (const x of l) body(x)] *)
Fixpoint forOf {A : Type} (l : list A) (body : A -> M unit) : M unit :=
  match l with
  | [] => ret tt
  | x :: l' => body x ;; forOf l' body
  end.

Definition emit (ev : Event) : M unit :=
  fun w => (Ok tt, mkWorld (files w) (trace w ++ [ev])).

Definition getFiles : M Dir := fun w => (Ok (files w), w).
Definition setFiles (fs : Dir) : M unit := fun w => (Ok tt, mkWorld fs (trace w)).
Definition getTrace : M (list Event) := fun w => (Ok (trace w), w).

Definition existsSync (p : string) : M bool :=
  emit (EvExists p) ;; fs <- getFiles ;; ret (Fs.exists_ fs p).

Definition unlinkSync (p : string) : M unit :=
  emit (EvUnlink p) ;; fs <- getFiles ;; setFiles (Fs.unlink fs p).

(** The listing together with the snapshot the comparator's [statSync]
    calls read. *)
Definition readdirSync : M Dir := emit EvReaddir ;; getFiles.

Definition statSync (p : string) : M Dirent :=
  emit (EvStat p) ;;
  fs <- getFiles ;;
  match Fs.stat fs p with
  | Some e => ret e
  | None => throw (mkError "Error" ("ENOENT: no such file or directory, stat '" ++ p ++ "'") "")
  end.

(** ** The program *)

Section Program.

Variable env : Env.

(** [Date.now()] *)
Definition now : M Z := tr <- getTrace ;; ret (Date_now env tr).

(** [ytDlp(url, options)]: the downloader writes to the directory and
    resolves, or rejects. *)
Definition ytDlp (url : string) (opts : YtDlpOptions) : M unit :=
  tr <- getTrace ;;
  fs <- getFiles ;;
  emit (EvYtDlp url opts) ;;
  match ytDlp_run env tr url opts fs with
  | (None, fs') => setFiles fs'
  | (Some e, fs') => setFiles fs' ;; throw e
  end.

Definition sendMessage (chatId : Z) (text : string) : M Z :=
  tr <- getTrace ;;
  emit (EvSendMessage chatId text) ;;
  match bot_sendMessage env tr chatId text with
  | Ok messageId => ret messageId
  | Throw e => throw e
  end.

Definition editMessageText (text : string) (chatId messageId : Z) : M unit :=
  tr <- getTrace ;;
  emit (EvEditMessageText text chatId messageId) ;;
  match bot_editMessageText env tr text chatId messageId with
  | None => ret tt
  | Some e => throw e
  end.

Definition sendVideo (chatId : Z) (file caption : string) : M unit :=
  tr <- getTrace ;;
  emit (EvSendVideo chatId file caption) ;;
  match bot_sendVideo env tr chatId file caption with
  | None => ret tt
  | Some e => throw e
  end.

Definition buildOutputPath (chatId messageId : Z) : M string :=
  t <- now ;;
  ret ("video_" ++ Str.ofZ chatId ++ "_" ++ Str.ofZ messageId ++ "_" ++ Str.ofZ t ++ ".mp4").

Definition safeDelete (filePath : string) : M unit :=
  if Str.isEmpty filePath then ret tt
  else
    present <- existsSync filePath ;;
    if present then unlinkSync filePath else ret tt.

(** [path.basename(prefixPath)] is the name itself. *)
Definition cleanupByPrefix (prefixPath : string) : M unit :=
  let base := prefixPath in
  listing <- readdirSync ;;
  forOf (Fs.readdir listing) (fun name =>
    if Str.startsWith name base then safeDelete name else ret tt).

(** *** The progress reporter *)

Record StatusSession : Type := mkSession {
  s_chatId : Z;
  s_statusMessageId : Z
}.

Definition cycleSeconds : Z := 30.

Definition statusText (remaining : Z) : string :=
  "Processing video... " ++ Str.ofZ remaining ++ "s".

Definition startCountdownStatus (chatId : Z) : M StatusSession :=
  statusMessageId <- sendMessage chatId (statusText cycleSeconds) ;;
  emit EvSetInterval ;;
  ret (mkSession chatId statusMessageId).

Definition stop (session : StatusSession) (finalText : string) : M unit :=
  emit EvClearInterval ;;
  tryCatch
    (editMessageText finalText (s_chatId session) (s_statusMessageId session))
    (fun _ => ret tt).

(** *** Downloading *)

Definition withFfmpegLocation (opts : option string -> YtDlpOptions) : YtDlpOptions :=
  opts (if Str.isEmpty (FFMPEG_PATH env) then None else Some (FFMPEG_PATH env)).

Definition progressiveFormat : string :=
  "best[height<=" ++ Str.ofZ (TARGET_HEIGHT env) ++ "][ext=mp4][acodec!=none][vcodec!=none]/" ++
  "best[ext=mp4][acodec!=none][vcodec!=none]".

Definition downloadProgressiveFallback (url outputPath : string) : M unit :=
  ytDlp url
    (withFfmpegLocation
       (mkOptions progressiveFormat outputPath (YTDLP_CONCURRENT_FRAGMENTS env) true true)).

(** [path.dirname(prefixPath)] is the downloads directory and
    [path.basename(prefixPath)] the name itself. *)
Definition resolveFileByPrefix (prefixPath : string) : M (option string) :=
  let base := prefixPath in
  listing <- readdirSync ;;
  match prefixMatches listing base with
  | [] => ret None
  | first :: _ => ret (Some first)
  end.

Definition downloadSingleStream (url format prefixPath : string) : M string :=
  ytDlp url
    (withFfmpegLocation
       (mkOptions format (prefixPath ++ ".%(ext)s") (YTDLP_CONCURRENT_FRAGMENTS env) true true)) ;;
  filePath <- resolveFileByPrefix prefixPath ;;
  match filePath with
  | None => throw (newError ("Stream output was not found for prefix: " ++ prefixPath))
  | Some f => ret f
  end.

Definition ffmpegArgs (videoPath audioPath outputPath : string) : list string :=
  ["-y"; "-i"; videoPath; "-i"; audioPath; "-c:v"; "copy"; "-c:a"; "aac";
   "-b:a"; "192k"; "-movflags"; "+faststart"; outputPath].

Definition exitCodeText (code : option Z) : string :=
  match code with Some n => Str.ofZ n | None => "null" end.

Definition isZero (code : option Z) : bool :=
  match code with Some n => n =? 0 | None => false end.

(** [spawn(bin, args)] up to the event that settles the promise. *)
Definition spawn (bin : string) (args : list string) : M ProcOutcome :=
  tr <- getTrace ;;
  fs <- getFiles ;;
  emit (EvSpawn bin args) ;;
  match ffmpeg_run env tr bin args fs with
  | (outcome, fs') => setFiles fs' ;; ret outcome
  end.

Definition mergeWithFfmpeg (videoPath audioPath outputPath : string) : M unit :=
  let ffmpegBin := Str.orElse (FFMPEG_PATH env) "ffmpeg" in
  safeDelete outputPath ;;
  outcome <- spawn ffmpegBin (ffmpegArgs videoPath audioPath outputPath) ;;
  match outcome with
  | SpawnError err => throw err
  | Closed code chunks =>
      let stderr := String.concat "" chunks in
      if isZero code
      then
        present <- existsSync outputPath ;;
        if present then ret tt
        else throw (newError (Str.orElse stderr ("ffmpeg exited with code " ++ exitCodeText code)))
      else throw (newError (Str.orElse stderr ("ffmpeg exited with code " ++ exitCodeText code)))
  end.

Definition videoFormat : string :=
  "bestvideo[height<=" ++ Str.ofZ (TARGET_HEIGHT env) ++ "][vcodec!=none]".

Definition audioFormat : string := "bestaudio[acodec!=none]".

Definition tempPrefixOf (outputPath : string) (t : Z) : string :=
  outputPath ++ ".hq_" ++ Str.ofZ t.

Definition downloadHighQualityMerged (url outputPath : string) : M unit :=
  t <- now ;;
  let tempPrefix := tempPrefixOf outputPath t in
  let videoPrefix := tempPrefix ++ ".video" in
  let audioPrefix := tempPrefix ++ ".audio" in
  tryFinally
    (videoPath <- downloadSingleStream url videoFormat videoPrefix ;;
     audioPath <- downloadSingleStream url audioFormat audioPrefix ;;
     mergeWithFfmpeg videoPath audioPath outputPath)
    (cleanupByPrefix videoPrefix ;;
     cleanupByPrefix audioPrefix).

Definition runAndResolveFile (downloadFn : string -> string -> M unit)
    (url outputPath : string) : M string :=
  downloadFn url outputPath ;;
  present <- existsSync outputPath ;;
  if negb present then
    let requestedBase := basenameWithout outputPath (extname outputPath) in
    listing <- readdirSync ;;
    let matches := mediaMatches listing requestedBase in
    match matches with
    | [] => throw (newError "Download finished but output video file was not found.")
    | _ :: _ =>
        match cleanMp4 matches, cleanOther matches with
        | None, None =>
            throw (newError "Only intermediate stream files were found after download.")
        | Some name, _ => ret name
        | None, Some name => ret name
        end
    end
  else ret outputPath.

Record DownloadResult : Type := mkResult {
  filePath : string;
  usedFallback : bool
}.

Definition downloadVideo (url outputPath : string) : M DownloadResult :=
  tryCatch
    (filePath <- runAndResolveFile downloadHighQualityMerged url outputPath ;;
     ret (mkResult filePath false))
    (fun error =>
       if negb (looksLikeMergeIssue error) then throw error
       else
         filePath <- runAndResolveFile downloadProgressiveFallback url outputPath ;;
         ret (mkResult filePath true)).

End Program.

(** ** The request handler: [bot.on('message', ...)] *)

Record Message : Type := mkMessage {
  m_chatId : Z;
  m_messageId : Z;
  m_text : option string
}.

(** Run [body]; go on with [onOk] when it resolves and with [onThrow] when
    it throws.  What [onOk] throws is not caught here: the handler's one
    [catch] is entered with the values its local variables have at the
    throw, so each stage of the [try] block names its own entry to it. *)
Definition caseOf {A B : Type} (body : M A) (onOk : A -> M B) (onThrow : JsError -> M B) : M B :=
  fun w =>
    match body w with
    | (Ok a, w') => onOk a w'
    | (Throw e, w') => onThrow e w'
    end.

(** [msg.text || ''] *)
Definition messageText (msg : Message) : string :=
  match m_text msg with Some t => t | None => "" end.

Section Handler.

Variable env : Env.

Definition failureText : string := "Failed to download or send the video.".
Definition tooLargeText : string := "Video too large to send.".
Definition fallbackNotice : string :=
  "Sent fallback quality because ffmpeg merge was unavailable. Set FFMPEG_PATH in .env to enable high quality merge.".

(** The [catch] block, entered with the current [status] and
    [downloadedPath]. *)
Definition onError (chatId : Z) (outputPath : string)
    (status : option StatusSession) (downloadedPath : option string)
    (error : JsError) : M unit :=
  emit (EvConsoleError (Str.orElse (errStderr error)
                          (Str.orElse (errMessage error) (errorToString error)))) ;;
  match status with
  | Some s => stop env s failureText
  | None => ret tt
  end ;;
  sendMessage env chatId failureText ;;
  match downloadedPath with
  | Some p => if Str.isEmpty p then cleanupByPrefix outputPath else safeDelete p
  | None => cleanupByPrefix outputPath
  end.

(** The [try] block from the point where [downloadVideo] has resolved. *)
Definition deliver (chatId : Z) (status : StatusSession) (result : DownloadResult) : M unit :=
  let downloadedPath := filePath result in
  (if usedFallback result
   then sendMessage env chatId fallbackNotice ;; ret tt
   else ret tt) ;;
  stats <- statSync downloadedPath ;;
  if d_size stats >? TELEGRAM_VIDEO_LIMIT_BYTES then
    stop env status tooLargeText ;;
    sendMessage env chatId tooLargeText ;;
    safeDelete downloadedPath
  else
    sendVideo env chatId downloadedPath "Here is your downloaded video." ;;
    stop env status "Video sent successfully." ;;
    safeDelete downloadedPath.

(** The handler.  The edits the interval callback makes between the
    handler's own requests are those of [Countdown] below; they touch
    nothing the handler reads and are left out of its history. *)
Definition onMessage (msg : Message) : M unit :=
  let chatId := m_chatId msg in
  let text := messageText msg in
  match extractYouTubeUrl (Some text) with
  | None => ret tt
  | Some youtubeUrl =>
      outputPath <- buildOutputPath env chatId (m_messageId msg) ;;
      caseOf (startCountdownStatus env chatId)
        (fun status =>
           caseOf (downloadVideo env youtubeUrl outputPath)
             (fun result =>
                tryCatch (deliver chatId status result)
                         (onError chatId outputPath (Some status) (Some (filePath result))))
             (onError chatId outputPath (Some status) None))
        (onError chatId outputPath None None)
  end.

End Handler.

(** ** The interval callback of [startCountdownStatus]

    The callback runs to its [await], and the rest of it runs when the
    edit settles; timer firings and settlements interleave freely on the
    one thread. *)

Module Countdown.

Record State : Type := mkState {
  remaining : Z;
  updating : bool
}.

Definition initial : State := mkState cycleSeconds false.

(** From the timer firing to the [await]: the new state and the text of
    the edit that was started, if one was. *)
Definition tickBegin (st : State) : State * option string :=
  if updating st then (st, None)
  else
    let r := remaining st - 1 in
    let r' := if r <=? 0 then cycleSeconds else r in
    (mkState r' true, Some (statusText r')).

(** From the edit settling to the end of the callback: [catch] swallows
    a failure and [finally] clears the flag. *)
Definition tickEnd (outcome : option JsError) (st : State) : State :=
  mkState (remaining st) false.

Inductive Input : Type :=
| Fire                               (* the interval elapsed *)
| Settle (outcome : option JsError). (* the pending edit resolved or rejected *)

(** An edit settles only while one is pending. *)
Definition step (st : State) (i : Input) : State * option string :=
  match i with
  | Fire => tickBegin st
  | Settle outcome => if updating st then (tickEnd outcome st, None) else (st, None)
  end.

(** The state after a schedule, and the texts of the edits attempted. *)
Fixpoint run (st : State) (sched : list Input) : State * list string :=
  match sched with
  | [] => (st, [])
  | i :: sched' =>
      let (st', edit) := step st i in
      let (st'', edits) := run st' sched' in
      (st'', match edit with Some t => t :: edits | None => edits end)
  end.

(** The number of firings of a schedule that got past the flag. *)
Fixpoint processed (st : State) (sched : list Input) : nat :=
  match sched with
  | [] => O
  | i :: sched' =>
      ((match i with
        | Fire => if updating st then 0 else 1
        | Settle _ => 0
        end) + processed (fst (step st i)) sched')%nat
  end.

End Countdown.

(** ** Specification-side notions

    What the patterns mean, stated without the matcher. *)

(** [Matches r m rest]: the pattern [r] can cover the text [m] when [rest]
    follows it. *)
Inductive Matches : regex -> string -> string -> Prop :=
| MEps rest : Matches Eps "" rest
| MChr p c rest : p c = true -> Matches (Chr p) (String c "") rest
| MCat r1 r2 m1 m2 rest :
    Matches r1 m1 (m2 ++ rest) -> Matches r2 m2 rest ->
    Matches (Cat r1 r2) (m1 ++ m2) rest
| MAltL r1 r2 m rest : Matches r1 m rest -> Matches (Alt r1 r2) m rest
| MAltR r1 r2 m rest : Matches r2 m rest -> Matches (Alt r1 r2) m rest
| MOptSome r m rest : Matches r m rest -> Matches (Opt r) m rest
| MOptNone r rest : Matches (Opt r) "" rest
| MRepO r rest : Matches (Rep 0 r) "" rest
| MRepS n r m1 m2 rest :
    Matches r m1 (m2 ++ rest) -> Matches (Rep n r) m2 rest ->
    Matches (Rep (S n) r) (m1 ++ m2) rest
| MStar p m rest : Str.all p m = true -> Matches (Star p) m rest
| MEol : Matches Eol "" "".

(** [s] is [pat] up to the case of ASCII letters. *)
Fixpoint sameText (pat s : string) : bool :=
  match pat, s with
  | EmptyString, EmptyString => true
  | String a pat', String b s' => (Str.ciEq a b && sameText pat' s')%bool
  | _, _ => false
  end.

(** [name] ends with [suffix], up to the case of ASCII letters. *)
Definition EndsWithCi (name suffix : string) : Prop :=
  exists stem ext, name = stem ++ ext /\ sameText suffix ext = true.

(** [name] contains a stream-format tag: [.f], digits, and a dot. *)
Definition HasFormatTag (name : string) : Prop :=
  exists pre tag digits post,
    name = pre ++ tag ++ digits ++ "." ++ post /\
    sameText ".f" tag = true /\
    digits <> "" /\ Str.all Str.isDigit digits = true.

(** A link as the pattern accepts it: the scheme, an optional [www.], one
    of the two hosts with its path, eleven id characters, and whatever
    follows up to the next whitespace. *)
Definition VideoLink (u : string) : Prop :=
  exists scheme www host id tail,
    u = scheme ++ www ++ host ++ id ++ tail /\
    (sameText "http://" scheme = true \/ sameText "https://" scheme = true) /\
    (www = "" \/ sameText "www." www = true) /\
    (sameText "youtube.com/watch?v=" host = true \/ sameText "youtu.be/" host = true) /\
    String.length id = 11%nat /\
    Str.all idChar id = true /\
    Str.all nonSpace tail = true.

(** What is left of [s] after a leading [pat], compared up to case. *)
Fixpoint afterPrefix (pat s : string) : option string :=
  match pat with
  | EmptyString => Some s
  | String a pat' =>
      match s with
      | String b s' => if Str.ciEq a b then afterPrefix pat' s' else None
      | EmptyString => None
      end
  end.

(** The length of the longest run of [p] characters [s] starts with. *)
Fixpoint runLength (p : ascii -> bool) (s : string) : nat :=
  match s with
  | String c s' => if p c then S (runLength p s') else O
  | EmptyString => O
  end.

(** A link whose video id, the whole run of id characters after the host,
    has exactly eleven characters, starts [s]. *)
Definition exactIdLinkHere (s : string) : bool :=
  existsb
    (fun pat =>
       match afterPrefix pat s with
       | Some rest => Nat.eqb (runLength idChar rest) 11
       | None => false
       end)
    (flat_map
       (fun scheme =>
          flat_map
            (fun www => map (fun host => scheme ++ www ++ host)
                          ["youtube.com/watch?v="; "youtu.be/"])
            [""; "www."])
       ["http://"; "https://"]).

Fixpoint containsExactIdLink (s : string) : bool :=
  (exactIdLinkHere s ||
   match s with
   | String _ s' => containsExactIdLink s'
   | EmptyString => false
   end)%bool.

(** The outcome of the directory scan of [runAndResolveFile]. *)
Definition scanOutcome (fs : Dir) (base : string) : Result string :=
  match mediaMatches fs base with
  | [] => Throw (newError "Download finished but output video file was not found.")
  | _ :: _ =>
      match cleanMp4 (mediaMatches fs base), cleanOther (mediaMatches fs base) with
      | None, None =>
          Throw (newError "Only intermediate stream files were found after download.")
      | Some name, _ => Ok name
      | None, Some name => Ok name
      end
  end.

(** A candidate of the generic resolution: a listed name that starts with
    the requested base, is not partial and has a recognised media
    extension.  It is eligible when it carries no stream-format tag. *)
Definition Candidate (fs : Dir) (base name : string) : Prop :=
  In name (Fs.readdir fs) /\
  Str.startsWith name base = true /\
  isPartial name = false /\
  hasMediaExt name = true.

Definition Eligible (fs : Dir) (base name : string) : Prop :=
  Candidate fs base name /\ isIntermediate name = false.

(** The entry the resolver would return if it took, as the sentence on
    candidate sets has it, the most recently modified entry among those
    that match the prefix and are neither partial nor intermediate. *)
Definition newestClean (fs : Dir) (base : string) : option string :=
  hd_error
    (sortBy (newestFirst fs)
       (filter (fun name => (negb (isPartial name) && negb (isIntermediate name))%bool)
          (filter (fun name => Str.startsWith name base) (Fs.readdir fs)))).

(** The requests [safeDelete] makes, and the directory it leaves. *)
Definition safeDeleteEvents (fs : Dir) (p : string) : list Event :=
  if Str.isEmpty p then []
  else if Fs.exists_ fs p then [EvExists p; EvUnlink p] else [EvExists p].

Definition afterSafeDelete (fs : Dir) (p : string) : Dir :=
  if Str.isEmpty p then fs else Fs.unlink fs p.

(** ** Reading the history

    [Emits p m]: whatever the world, the action [m] only adds requests
    that satisfy [p] to the history, and removes none. *)
Definition Emits {A : Type} (p : Event -> bool) (m : M A) : Prop :=
  forall w, exists t, trace (snd (m w)) = (trace w ++ t)%list /\ forallb p t = true.

Definition isFsEvent (ev : Event) : bool :=
  match ev with
  | EvExists _ | EvUnlink _ | EvReaddir | EvStat _ => true
  | _ => false
  end.

(** A call of the downloader for the progressive format. *)
Definition isProgressiveCall (env : Env) (ev : Event) : bool :=
  match ev with
  | EvYtDlp _ opts => String.eqb (o_format opts) (progressiveFormat env)
  | _ => false
  end.

(** A request of the high-quality path: a call of the downloader for a
    single stream, or the start of the encoder. *)
Definition isHighQualityRequest (env : Env) (ev : Event) : bool :=
  match ev with
  | EvYtDlp _ opts =>
      (String.eqb (o_format opts) (videoFormat env) ||
       String.eqb (o_format opts) audioFormat)%bool
  | EvSpawn _ _ => true
  | _ => false
  end.

Definition isSendVideo (ev : Event) : bool :=
  match ev with EvSendVideo _ _ _ => true | _ => false end.

(** The edit by which [stop] reports the too-large outcome. *)
Definition isTooLargeEdit (ev : Event) : bool :=
  match ev with
  | EvEditMessageText text _ _ => String.eqb text tooLargeText
  | _ => false
  end.

Definition notSendVideo (ev : Event) : bool := negb (isSendVideo ev).
Definition notTooLargeEdit (ev : Event) : bool := negb (isTooLargeEdit ev).

(** The directory one round of the loop of [cleanupByPrefix] leaves, and
    the directory the whole loop leaves. *)
Definition sweepStep (base : string) (fs : Dir) (name : string) : Dir :=
  if Str.startsWith name base then afterSafeDelete fs name else fs.

Definition afterCleanup (fs : Dir) (base : string) : Dir :=
  fold_left (sweepStep base) (Fs.readdir fs) fs.

(** ** Sample collaborators

    Concrete surroundings on which the statements below are exercised. *)

Module Sample.

Definition template : string := ".%(ext)s".

Fixpoint endsWith (s suffix : string) : bool :=
  (String.eqb s suffix ||
   match s with
   | String _ s' => endsWith s' suffix
   | EmptyString => false
   end)%bool.

(** The name a download to [output] leaves behind: the extension
    template, if there is one, filled in with [ext]. *)
Definition written (output ext : string) : string :=
  if endsWith output template
  then Str.take (String.length output - String.length template) output ++ "." ++ ext
  else output.

(** A downloader that always writes a [webm] file of 1000 bytes. *)
Definition downloadsWebm (tr : list Event) (url : string) (opts : YtDlpOptions)
    (fs : Dir) : option JsError * Dir :=
  (None, (fs ++ [mkDirent (written (o_output opts) "webm") (Z.of_nat (List.length tr)) 1000])%list).

(** A downloader that fails without writing anything. *)
Definition downloadFails (stderr : string) (tr : list Event) (url : string)
    (opts : YtDlpOptions) (fs : Dir) : option JsError * Dir :=
  (Some (mkError "Error" "Command failed with exit code 1" stderr), fs).

(** An encoder that writes its last argument and exits with 0. *)
Definition ffmpegMerges (size : Z) (tr : list Event) (bin : string)
    (args : list string) (fs : Dir) : ProcOutcome * Dir :=
  (Closed (Some 0) [], (fs ++ [mkDirent (last args "") (Z.of_nat (List.length tr)) size])%list).

(** An encoder that cannot be started. *)
Definition ffmpegMissing (tr : list Event) (bin : string) (args : list string)
    (fs : Dir) : ProcOutcome * Dir :=
  (SpawnError (mkError "Error" ("spawn " ++ bin ++ " ENOENT") ""), fs).

(** An encoder that writes to its standard error and exits with [code]. *)
Definition ffmpegExits (code : Z) (chunks : list string) (tr : list Event)
    (bin : string) (args : list string) (fs : Dir) : ProcOutcome * Dir :=
  (Closed (Some code) chunks, fs).

Definition envWith
    (dl : list Event -> string -> YtDlpOptions -> Dir -> option JsError * Dir)
    (ff : list Event -> string -> list string -> Dir -> ProcOutcome * Dir) : Env :=
  mkEnv 1080 8 ""
    (fun tr => 1700000000000 + Z.of_nat (List.length tr))
    dl ff
    (fun tr chatId text => Ok (Z.of_nat (List.length tr)))
    (fun tr text chatId messageId => None)
    (fun tr chatId file caption => None).

Definition env : Env := envWith downloadsWebm (ffmpegMerges 1000).

Definition emptyWorld : World := mkWorld [] [].

End Sample.

(** ** Notions for the properties of the remaining code *)

(** What [cleanupByPrefix] deletes: a name that starts with the prefix
    (the empty name is falsy for [safeDelete] and stays). *)
Definition swept (base name : string) : bool :=
  (Str.startsWith name base && negb (Str.isEmpty name))%bool.

(** A character of a rendered integer: a digit or the minus sign. *)
Definition numChar (c : ascii) : bool := (Str.isDigit c || Ascii.eqb c "-")%bool.

Definition notDot (c : ascii) : bool := negb (Ascii.eqb c ".").

(** A pattern whose every alternative ends in the greedy run [[p]*]. *)
Inductive EndsGreedy (p : ascii -> bool) : regex -> Prop :=
| EG_Star : EndsGreedy p (Star p)
| EG_Cat r1 r2 : EndsGreedy p r2 -> EndsGreedy p (Cat r1 r2)
| EG_Alt r1 r2 : EndsGreedy p r1 -> EndsGreedy p r2 -> EndsGreedy p (Alt r1 r2).

(** The text [rest] is empty or starts with a character outside [p]. *)
Definition StopsAt (p : ascii -> bool) (rest : string) : Prop :=
  rest = "" \/ exists c r, rest = String c r /\ p c = false.

Definition isClearInterval (ev : Event) : bool :=
  match ev with EvClearInterval => true | _ => false end.

Definition successText : string := "Video sent successfully.".
Definition videoCaption : string := "Here is your downloaded video.".

(** A request to the chat transport that goes to the chat [chat] and
    carries one of the fixed texts of the handler; requests that do not go
    to the transport pass. *)
Definition chatRequestOf (chat : Z) (ev : Event) : bool :=
  match ev with
  | EvSendMessage c text =>
      ((c =? chat) &&
       (String.eqb text (statusText cycleSeconds) || String.eqb text fallbackNotice ||
        String.eqb text tooLargeText || String.eqb text failureText))%bool
  | EvEditMessageText text c _ =>
      ((c =? chat) &&
       (String.eqb text tooLargeText || String.eqb text successText ||
        String.eqb text failureText))%bool
  | EvSendVideo c _ caption => ((c =? chat) && String.eqb caption videoCaption)%bool
  | _ => true
  end.

(** More sample surroundings: a message with a link, a directory with a
    stale file of the job and a file of no job, and a downloader that
    fails for a reason that is no merge issue. *)
Definition sampleMessage : Message :=
  mkMessage 7 42 (Some "https://youtu.be/dQw4w9WgXcQ").

Definition sampleUrl : string := "https://youtu.be/dQw4w9WgXcQ".
Definition sampleOutput : string := "video_7_42_1700000000000.mp4".

Definition staleWorld : World :=
  mkWorld [mkDirent "video_7_42_1700000000000.mp4.ytdl" 3 10;
           mkDirent "notes.txt" 4 10] [].

Definition offlineEnv : Env :=
  Sample.envWith (Sample.downloadFails "ERROR: network unreachable") (Sample.ffmpegMerges 1000).

(** The settlements of a schedule that found an edit pending. *)
Fixpoint settledEdits (st : Countdown.State) (sched : list Countdown.Input) : nat :=
  match sched with
  | [] => O
  | i :: sched' =>
      ((match i with
        | Countdown.Settle _ => if Countdown.updating st then 1 else 0
        | Countdown.Fire => 0
        end) + settledEdits (fst (Countdown.step st i)) sched')%nat
  end.

(** The options of a single-stream download. *)
Definition streamOptions (env : Env) (format prefixPath : string) : YtDlpOptions :=
  withFfmpegLocation env
    (mkOptions format (prefixPath ++ ".%(ext)s") (YTDLP_CONCURRENT_FRAGMENTS env) true true).

Definition streamNotFound (prefixPath : string) : JsError :=
  newError ("Stream output was not found for prefix: " ++ prefixPath).

(** A request is within a job when the path it names (the path tested,
    deleted, measured or sent, the downloader's output template, the
    encoder's output file) starts with the job's base name. *)
Definition withinJob (base : string) (ev : Event) : bool :=
  match ev with
  | EvExists p | EvUnlink p | EvStat p => Str.startsWith p base
  | EvYtDlp _ opts => Str.startsWith (o_output opts) base
  | EvSpawn _ args => Str.startsWith (last args "") base
  | EvSendVideo _ file _ => Str.startsWith file base
  | _ => true
  end.

(** The base name of the job the handler starts for a message. *)
Definition jobBase (env : Env) (msg : Message) (w : World) : string :=
  "video_" ++ Str.ofZ (m_chatId msg) ++ "_" ++ Str.ofZ (m_messageId msg) ++ "_"
  ++ Str.ofZ (Date_now env (trace w)).

Definition isFallbackNotice (ev : Event) : bool :=
  match ev with
  | EvSendMessage _ text => String.eqb text fallbackNotice
  | _ => false
  end.

Definition notFallbackNotice (ev : Event) : bool := negb (isFallbackNotice ev).

Definition fallbackEnv : Env := Sample.envWith Sample.downloadsWebm Sample.ffmpegMissing.

(** * Properties *)

(** Unfold the plumbing of the effect monad and project the worlds. *)
Ltac msimpl :=
  cbv beta iota delta
    [bind ret throw emit getFiles setFiles getTrace tryCatch tryFinally caseOf
     existsSync unlinkSync readdirSync statSync];
  cbn [files trace fst snd negb].

(** ** The progress reporter *)

Module CountdownFacts.
Import Countdown.

Lemma wrap_next (n : nat) :
  (if 30 - Z.of_nat (n mod 30) - 1 <=? 0 then 30 else 30 - Z.of_nat (n mod 30) - 1)
  = 30 - Z.of_nat (S n mod 30).
Proof.
  assert (Hn : (n mod 30 < 30)%nat) by (apply Nat.mod_upper_bound; lia).
  assert (Hs : (S n mod 30 = if Nat.eqb (n mod 30) 29 then 0 else S (n mod 30))%nat).
  { destruct (Nat.eqb_spec (n mod 30) 29) as [E|E].
    - replace (S n) with (n + 1)%nat by lia.
      rewrite Nat.Div0.add_mod, E. reflexivity.
    - replace (S n) with (n + 1)%nat by lia.
      rewrite Nat.Div0.add_mod.
      change (1 mod 30)%nat with 1%nat.
      rewrite Nat.mod_small; lia. }
  rewrite Hs.
  destruct (Nat.eqb_spec (n mod 30) 29) as [E|E];
    destruct (Z.leb_spec (30 - Z.of_nat (n mod 30) - 1) 0); lia.
Qed.

(** A run started [n] processed ticks into the cycle. *)
Lemma run_from (sched : list Input) :
  forall (n : nat) (st : State),
    remaining st = 30 - Z.of_nat (n mod 30) ->
    remaining (fst (run st sched))
      = 30 - Z.of_nat ((n + processed st sched) mod 30)
    /\ snd (run st sched)
      = map (fun k => statusText (30 - Z.of_nat (k mod 30)))
            (seq (S n) (processed st sched)).
Proof.
  induction sched as [|i sched IH]; intros n st Hst.
  - cbn. rewrite Nat.add_0_r. auto.
  - cbn [run processed].
    destruct i as [|outcome].
    + cbn [step]. unfold tickBegin.
      destruct (updating st) eqn:U.
      * cbn [fst]. specialize (IH n st Hst).
        destruct (run st sched) as [st'' edits]. cbn [fst snd] in *.
        exact IH.
      * cbn [fst]. change cycleSeconds with 30.
        rewrite Hst, wrap_next.
        specialize (IH (S n) (mkState (30 - Z.of_nat (S n mod 30)) true) eq_refl).
        destruct (run _ sched) as [st'' edits]. cbn [fst snd] in *.
        destruct IH as [IH1 IH2].
        replace (n + (1 + processed (mkState (30 - Z.of_nat (S n mod 30)) true) sched))%nat
          with (S n + processed (mkState (30 - Z.of_nat (S n mod 30)) true) sched)%nat by lia.
        split; [exact IH1|].
        cbn [Nat.add seq map]. rewrite IH2. reflexivity.
    + cbn [step].
      destruct (updating st) eqn:U; cbn [fst].
      * specialize (IH n (tickEnd outcome st) Hst).
        destruct (run _ sched) as [st'' edits]. cbn [fst snd] in *. exact IH.
      * specialize (IH n st Hst).
        destruct (run st sched) as [st'' edits]. cbn [fst snd] in *. exact IH.
Qed.

End CountdownFacts.

(** C7.  The remaining-seconds counter starts at 30.  After any schedule
    of timer firings and edit settlements its value is 30 minus the number
    of processed ticks taken modulo 30, hence between 1 and 30; the texts
    shown are those of 29, 28, ..., 1, 30, 29, ... in this order; and a
    processed tick takes the counter from 1 to 30 and from any other value
    to one less. *)
Theorem countdown_cycles_from_30_to_1 :
  Countdown.remaining Countdown.initial = 30 /\
  forall sched : list Countdown.Input,
    let st := fst (Countdown.run Countdown.initial sched) in
    let n := Countdown.processed Countdown.initial sched in
    Countdown.remaining st = 30 - Z.of_nat (n mod 30) /\
    1 <= Countdown.remaining st <= 30 /\
    snd (Countdown.run Countdown.initial sched)
      = map (fun k => statusText (30 - Z.of_nat (k mod 30))) (seq 1 n) /\
    Countdown.remaining
      (fst (Countdown.tickBegin (Countdown.tickEnd None st)))
      = (if Countdown.remaining st =? 1 then 30 else Countdown.remaining st - 1).
Proof.
  split; [reflexivity|].
  intros sched st n.
  destruct (CountdownFacts.run_from sched 0 Countdown.initial eq_refl) as [H1 H2].
  cbn [Nat.add] in H1. fold st in H1. fold n in H1, H2.
  assert (Hn : (n mod 30 < 30)%nat) by (apply Nat.mod_upper_bound; lia).
  repeat split; try (rewrite H1; lia); [exact H2|].
  unfold Countdown.tickBegin, Countdown.tickEnd. cbn.
  change cycleSeconds with 30.
  destruct (Z.leb_spec (Countdown.remaining st - 1) 0);
    destruct (Z.eqb_spec (Countdown.remaining st) 1); lia.
Qed.

(** C9.  A firing that finds the [updating] flag set returns at once: the
    state is unchanged and no edit is started.  A firing changes the
    counter only if it starts an edit, and when the edit settles the flag
    is cleared, whether the edit resolved or rejected. *)
Theorem tick_skipped_while_edit_pending (st : Countdown.State) :
  (Countdown.updating st = true -> Countdown.tickBegin st = (st, None)) /\
  (Countdown.remaining (fst (Countdown.tickBegin st)) <> Countdown.remaining st ->
   exists text, snd (Countdown.tickBegin st) = Some text) /\
  (Countdown.updating st = false ->
   exists text, snd (Countdown.tickBegin st) = Some text /\
                Countdown.updating (fst (Countdown.tickBegin st)) = true) /\
  (forall outcome : option JsError,
     Countdown.updating (Countdown.tickEnd outcome (fst (Countdown.tickBegin st))) = false /\
     Countdown.remaining (Countdown.tickEnd outcome (fst (Countdown.tickBegin st)))
       = Countdown.remaining (fst (Countdown.tickBegin st))).
Proof.
  unfold Countdown.tickBegin.
  destruct (Countdown.updating st) eqn:U; cbn [fst snd].
  - repeat split; try congruence; try discriminate.
  - repeat split; try discriminate; intros; eauto.
Qed.

Lemma tick_skipped_while_edit_pending_witness :
  Countdown.tickBegin (Countdown.mkState 17 true) = (Countdown.mkState 17 true, None).
Proof.
  apply (tick_skipped_while_edit_pending (Countdown.mkState 17 true)).
  reflexivity.
Defined.

(** ** Strings and patterns *)

Module StrFacts.

Lemma append_nil_r (s : string) : s ++ "" = s.
Proof. induction s as [|c s IH]; cbn; [reflexivity | now rewrite IH]. Qed.

Lemma append_assoc (a b c : string) : (a ++ b) ++ c = a ++ (b ++ c).
Proof. induction a as [|x a IH]; cbn; [reflexivity | now rewrite IH]. Qed.

Lemma length_append (a b : string) :
  String.length (a ++ b) = (String.length a + String.length b)%nat.
Proof. induction a as [|x a IH]; cbn; [reflexivity | now rewrite IH]. Qed.

Lemma take_append (m rest : string) :
  Str.take (String.length (m ++ rest) - String.length rest) (m ++ rest) = m.
Proof.
  rewrite length_append.
  replace (String.length m + String.length rest - String.length rest)%nat
    with (String.length m) by lia.
  induction m as [|c m IH]; cbn.
  - destruct rest; reflexivity.
  - now rewrite IH.
Qed.

Lemma all_append (p : ascii -> bool) (a b : string) :
  Str.all p (a ++ b) = (Str.all p a && Str.all p b)%bool.
Proof.
  induction a as [|x a IH]; cbn; [reflexivity|].
  rewrite IH. now rewrite andb_assoc.
Qed.

Lemma startsWith_append (s p : string) :
  Str.startsWith s p = true <-> exists rest, s = p ++ rest.
Proof.
  revert s. induction p as [|a p IH]; intros s; cbn.
  - split; [intros _; now exists s | reflexivity].
  - destruct s as [|b s].
    + split; [discriminate | intros [rest H]; discriminate].
    + rewrite andb_true_iff, IH. split.
      * intros [E [rest ->]]. apply Ascii.eqb_eq in E. subst. eauto.
      * intros [rest H]. injection H as -> ->. split; [apply Ascii.eqb_refl | eauto].
Qed.

Lemma includes_append (s p : string) :
  Str.includes s p = true <-> exists pre post, s = pre ++ p ++ post.
Proof.
  induction s as [|c s IH]; cbn [Str.includes]; rewrite orb_true_iff.
  - rewrite startsWith_append. split.
    + intros [[rest H]|H]; [|discriminate]. exists "", rest. exact H.
    + intros [pre [post H]]. left.
      destruct pre; [|discriminate]. exists post. exact H.
  - rewrite startsWith_append, IH. split.
    + intros [[rest H]|[pre [post H]]].
      * exists "", rest. exact H.
      * exists (String c pre), post. cbn. now rewrite H.
    + intros [pre [post H]]. destruct pre as [|x pre].
      * left. exists post. exact H.
      * right. injection H as -> ->. eauto.
Qed.

End StrFacts.

Module RegexFacts.
Import StrFacts.

(** Whatever the matcher accepts, the pattern covers. *)
Lemma run_sound (r : regex) :
  forall (A : Type) (s : string) (k : string -> option A) (x : A),
    run r s k = Some x ->
    exists m rest, s = m ++ rest /\ Matches r m rest /\ k rest = Some x.
Proof.
  induction r as [|p|r1 IH1 r2 IH2|r1 IH1 r2 IH2|r1 IH1|n r1 IH1|p|];
    intros A s k x H; cbn [run] in H.
  - exists "", s. repeat split; [constructor | exact H].
  - destruct s as [|c s]; [discriminate|].
    destruct (p c) eqn:P; [|discriminate].
    exists (String c ""), s. repeat split; [now constructor | exact H].
  - apply IH1 in H. destruct H as (m1 & rest1 & -> & M1 & H).
    apply IH2 in H. destruct H as (m2 & rest & -> & M2 & H).
    exists (m1 ++ m2), rest. rewrite append_assoc.
    repeat split; [now constructor | exact H].
  - destruct (run r1 s k) eqn:E.
    + injection H as ->. apply IH1 in E. destruct E as (m & rest & -> & M1 & E).
      exists m, rest. repeat split; [now apply MAltL | exact E].
    + apply IH2 in H. destruct H as (m & rest & -> & M2 & H).
      exists m, rest. repeat split; [now apply MAltR | exact H].
  - destruct (run r1 s k) eqn:E.
    + injection H as ->. apply IH1 in E. destruct E as (m & rest & -> & M1 & E).
      exists m, rest. repeat split; [now apply MOptSome | exact E].
    + exists "", s. repeat split; [apply MOptNone | exact H].
  - revert s k x H. induction n as [|n IHn]; intros s k x H.
    + exists "", s. repeat split; [constructor | exact H].
    + apply IH1 in H. destruct H as (m1 & rest1 & -> & M1 & H).
      apply IHn in H. destruct H as (m2 & rest & -> & M2 & H).
      exists (m1 ++ m2), rest. rewrite append_assoc.
      repeat split; [now constructor | exact H].
  - induction s as [|c s IHs].
    + exists "", "". repeat split; [now constructor | exact H].
    + destruct (p c) eqn:P.
      * match type of H with
        | match ?t with _ => _ end = _ => destruct t eqn:E
        end.
        -- injection H as ->.
           destruct (IHs eq_refl) as (m & rest & -> & M & E').
           exists (String c m), rest. repeat split; [|exact E'].
           constructor. inversion M; subst. cbn. now rewrite P.
        -- exists "", (String c s). repeat split; [now constructor | exact H].
      * exists "", (String c s). repeat split; [now constructor | exact H].
  - destruct s; [|discriminate].
    exists "", "". repeat split; [constructor | exact H].
Qed.

(** Whenever the pattern covers a prefix after which the continuation
    accepts, the matcher finds a match. *)
Lemma run_complete (r : regex) (m rest : string) :
  Matches r m rest ->
  forall (A : Type) (k : string -> option A) (x : A),
    k rest = Some x -> exists y, run r (m ++ rest) k = Some y.
Proof.
  induction 1 as [rest|p c rest P|r1 r2 m1 m2 rest _ IH1 _ IH2
                 |r1 r2 m rest _ IH|r1 r2 m rest _ IH|r m rest _ IH|r rest
                 |r rest|n r m1 m2 rest _ IH1 _ IH2|p m rest P|];
    intros A k x K; cbn [run].
  - cbn. eauto.
  - cbn. rewrite P. eauto.
  - rewrite append_assoc.
    destruct (IH2 A k x K) as [y Hy].
    exact (IH1 A (fun s' => run r2 s' k) y Hy).
  - destruct (IH A k x K) as [y ->]. eauto.
  - destruct (run r1 (m ++ rest) k); eauto.
  - destruct (IH A k x K) as [y ->]. eauto.
  - cbn. destruct (run r rest k); eauto.
  - cbn. eauto.
  - rewrite append_assoc.
    destruct (IH2 A k x K) as [y Hy].
    exact (IH1 A _ y Hy).
  - induction m as [|c m IHm]; cbn.
    + destruct rest as [|c rest]; eauto.
      destruct (p c); eauto.
      match goal with |- context [match ?t with _ => _ end] => destruct t end; eauto.
    + cbn in P. apply andb_true_iff in P. destruct P as [Pc Pm]. rewrite Pc.
      destruct (IHm Pm) as [y Hy]. cbn in Hy. rewrite Hy. eauto.
  - cbn. eauto.
Qed.

Lemma matchHere_sound (r : regex) (s u : string) :
  matchHere r s = Some u -> exists post, s = u ++ post /\ Matches r u post.
Proof.
  unfold matchHere. destruct (run r s _) as [rest|] eqn:E; [|discriminate].
  intros H. injection H as <-.
  apply run_sound in E. destruct E as (m & rest' & -> & M & K).
  injection K as ->. rewrite take_append. eauto.
Qed.

Lemma exec_sound (r : regex) (s u : string) :
  exec r s = Some u ->
  exists pre post, s = pre ++ u ++ post /\ Matches r u post.
Proof.
  induction s as [|c s IH]; cbn [exec]; destruct (matchHere r _) as [m|] eqn:E.
  - intros H. injection H as ->. apply matchHere_sound in E.
    destruct E as (post & -> & M). exists "", post. auto.
  - discriminate.
  - intros H. injection H as ->. apply matchHere_sound in E.
    destruct E as (post & E & M). exists "", post. auto.
  - intros H. destruct (IH H) as (pre & post & -> & M).
    exists (String c pre), post. auto.
Qed.

Lemma exec_complete (r : regex) (pre u post : string) :
  Matches r u post -> exists v, exec r (pre ++ u ++ post) = Some v.
Proof.
  intros M.
  assert (Hhere : exists v, matchHere r (u ++ post) = Some v).
  { unfold matchHere.
    destruct (run_complete r u post M _ (fun rest => Some rest) post eq_refl) as [y ->].
    eauto. }
  induction pre as [|c pre IH].
  - cbn [append]. destruct Hhere as [v Hv].
    destruct (u ++ post); cbn [exec]; rewrite Hv; eauto.
  - cbn [append]. change (exists v, exec r (String c (pre ++ u ++ post)) = Some v).
    cbn [exec]. clear Hhere. destruct (matchHere r _); [eauto | exact IH].
Qed.

Lemma test_spec (r : regex) (s : string) :
  test r s = true <-> exists pre u post, s = pre ++ u ++ post /\ Matches r u post.
Proof.
  unfold test. split.
  - destruct (exec r s) as [u|] eqn:E; [|discriminate]. intros _.
    apply exec_sound in E. destruct E as (pre & post & E & M). eauto.
  - intros (pre & u & post & -> & M).
    destruct (exec_complete r pre u post M) as [v ->]. reflexivity.
Qed.

End RegexFacts.

Module LinkFacts.
Import StrFacts RegexFacts.

Section Inversion.
Variables (m rest : string).

Lemma Eps_inv : Matches Eps m rest -> m = "".
Proof. inversion 1; reflexivity. Qed.

Lemma Chr_inv p : Matches (Chr p) m rest -> exists c, m = String c "" /\ p c = true.
Proof. inversion 1; subst; eauto. Qed.

Lemma Cat_inv r1 r2 :
  Matches (Cat r1 r2) m rest ->
  exists m1 m2, m = m1 ++ m2 /\ Matches r1 m1 (m2 ++ rest) /\ Matches r2 m2 rest.
Proof. inversion 1; subst; eauto. Qed.

Lemma Alt_inv r1 r2 :
  Matches (Alt r1 r2) m rest -> Matches r1 m rest \/ Matches r2 m rest.
Proof. inversion 1; subst; auto. Qed.

Lemma Opt_inv r : Matches (Opt r) m rest -> Matches r m rest \/ m = "".
Proof. inversion 1; subst; auto. Qed.

Lemma RepO_inv r : Matches (Rep 0 r) m rest -> m = "".
Proof. inversion 1; reflexivity. Qed.

Lemma RepS_inv n r :
  Matches (Rep (S n) r) m rest ->
  exists m1 m2, m = m1 ++ m2 /\ Matches r m1 (m2 ++ rest) /\ Matches (Rep n r) m2 rest.
Proof. inversion 1; subst; eauto. Qed.

Lemma Star_inv p : Matches (Star p) m rest -> Str.all p m = true.
Proof. inversion 1; subst; auto. Qed.

Lemma Eol_inv : Matches Eol m rest -> m = "" /\ rest = "".
Proof. inversion 1; subst; auto. Qed.
End Inversion.

Lemma sameText_append (p1 p2 a b : string) :
  sameText p1 a = true -> sameText p2 b = true ->
  sameText (p1 ++ p2) (a ++ b) = true.
Proof.
  revert a. induction p1 as [|x p1 IH]; intros [|y a]; cbn; try discriminate; auto.
  rewrite !andb_true_iff. intros [E H] H2. auto.
Qed.

Lemma sameText_split (p1 p2 s : string) :
  sameText (p1 ++ p2) s = true ->
  exists a b, s = a ++ b /\ sameText p1 a = true /\ sameText p2 b = true.
Proof.
  revert s. induction p1 as [|x p1 IH]; intros s H; cbn in H.
  - exists "", s. auto.
  - destruct s as [|y s]; [discriminate|].
    apply andb_true_iff in H. destruct H as [E H].
    destruct (IH s H) as (a & b & -> & Ha & Hb).
    exists (String y a), b. cbn. rewrite E, Ha. auto.
Qed.

Lemma Matches_lit (pat m rest : string) :
  Matches (lit pat) m rest <-> sameText pat m = true.
Proof.
  revert m. induction pat as [|a pat IH]; intros m; cbn [lit]; split.
  - intros H. apply Eps_inv in H. now subst.
  - destruct m; [|discriminate]. intros _. constructor.
  - intros H. apply Cat_inv in H. destruct H as (m1 & m2 & -> & H1 & H2).
    apply Chr_inv in H1. destruct H1 as (c & -> & Hc).
    apply IH in H2. cbn. now rewrite Hc, H2.
  - destruct m as [|b m]; cbn; [discriminate|].
    rewrite andb_true_iff. intros [E H].
    change (String b m) with (String b "" ++ m).
    constructor; [now constructor | now apply IH].
Qed.

Lemma Matches_rep_chr (p : ascii -> bool) (n : nat) (m rest : string) :
  Matches (Rep n (Chr p)) m rest <-> String.length m = n /\ Str.all p m = true.
Proof.
  revert m. induction n as [|n IH]; intros m; split.
  - intros H. apply RepO_inv in H. subst. auto.
  - intros [L _]. destruct m; [constructor | discriminate].
  - intros H. apply RepS_inv in H. destruct H as (m1 & m2 & -> & H1 & H2).
    apply Chr_inv in H1. destruct H1 as (c & -> & Hc).
    apply IH in H2. destruct H2 as [L P].
    cbn. rewrite L, Hc, P. auto.
  - intros [L P]. destruct m as [|c m]; [discriminate|].
    cbn in L, P. apply andb_true_iff in P. destruct P as [Pc Pm].
    change (String c m) with (String c "" ++ m).
    constructor; [now constructor|]. apply IH. split; [lia | exact Pm].
Qed.

Lemma Matches_id_tail (host m rest : string) :
  Matches (Cat (lit host) (Cat (Rep 11 (Chr idChar)) (Star nonSpace))) m rest <->
  exists h id tail,
    m = h ++ id ++ tail /\ sameText host h = true /\
    String.length id = 11%nat /\ Str.all idChar id = true /\
    Str.all nonSpace tail = true.
Proof.
  split.
  - intros H. apply Cat_inv in H. destruct H as (h & m2 & -> & H1 & H2).
    apply Cat_inv in H2. destruct H2 as (id & tail & -> & H2 & H3).
    apply Matches_lit in H1. apply Matches_rep_chr in H2. destruct H2 as [L P].
    apply Star_inv in H3.
    exists h, id, tail. auto.
  - intros (h & id & tail & -> & Hh & L & P & T).
    constructor; [now apply Matches_lit|].
    constructor; [apply Matches_rep_chr; auto | now constructor].
Qed.

(** The pattern covers exactly the links. *)
Lemma Matches_link (u post : string) :
  Matches YOUTUBE_URL_REGEX u post <-> VideoLink u.
Proof.
  unfold YOUTUBE_URL_REGEX, VideoLink. split.
  - intros H.
    apply Cat_inv in H. destruct H as (a & x1 & -> & Ha & H).
    apply Cat_inv in H. destruct H as (b & x2 & -> & Hb & H).
    apply Cat_inv in H. destruct H as (c & x3 & -> & Hc & H).
    apply Cat_inv in H. destruct H as (www & x4 & -> & Hw & H).
    apply Matches_lit in Ha, Hc.
    assert (Hscheme : sameText "http://" (a ++ b ++ c) = true \/
                      sameText "https://" (a ++ b ++ c) = true).
    { apply Opt_inv in Hb. destruct Hb as [Hb| ->].
      - right. apply Chr_inv in Hb. destruct Hb as (y & -> & Hy).
        apply (sameText_append "http" "s://" a (String y "" ++ c)); [exact Ha|].
        apply (sameText_append "s" "://"); [|exact Hc].
        cbn. now rewrite Hy.
      - left. apply (sameText_append "http" "://"); assumption. }
    assert (Hwww : www = "" \/ sameText "www." www = true).
    { apply Opt_inv in Hw. destruct Hw as [Hw|Hw]; [right; now apply Matches_lit in Hw | now left]. }
    assert (Hrest : exists host id tail,
               x4 = host ++ id ++ tail /\
               (sameText "youtube.com/watch?v=" host = true \/
                sameText "youtu.be/" host = true) /\
               String.length id = 11%nat /\ Str.all idChar id = true /\
               Str.all nonSpace tail = true).
    { apply Alt_inv in H. destruct H as [H|H]; apply Matches_id_tail in H;
        destruct H as (h & id & tail & -> & Hh & L & P & T);
        exists h, id, tail; auto 10. }
    destruct Hrest as (host & id & tail & -> & Hh & L & P & T).
    exists (a ++ b ++ c), www, host, id, tail.
    rewrite !append_assoc. auto 10.
  - intros (scheme & www & host & id & tail & -> & Hs & Hw & Hh & L & P & T).
    assert (Htail : Matches
              (Alt (Cat (lit "youtube.com/watch?v=")
                        (Cat (Rep 11 (Chr idChar)) (Star nonSpace)))
                   (Cat (lit "youtu.be/")
                        (Cat (Rep 11 (Chr idChar)) (Star nonSpace))))
              (host ++ id ++ tail) post).
    { destruct Hh as [Hh|Hh]; [apply MAltL | apply MAltR];
        apply Matches_id_tail; exists host, id, tail; auto. }
    assert (Hwt : Matches
              (Cat (Opt (lit "www.")) 
                 (Alt (Cat (lit "youtube.com/watch?v=")
                        (Cat (Rep 11 (Chr idChar)) (Star nonSpace)))
                   (Cat (lit "youtu.be/")
                        (Cat (Rep 11 (Chr idChar)) (Star nonSpace)))))
              (www ++ host ++ id ++ tail) post).
    { constructor; [|exact Htail].
      destruct Hw as [->|Hw]; [apply MOptNone | apply MOptSome; now apply Matches_lit]. }
    destruct Hs as [Hs|Hs].
    + change "http://" with ("http" ++ "://") in Hs.
      apply sameText_split in Hs. destruct Hs as (a & b & -> & Ha & Hb).
      rewrite !append_assoc.
      constructor; [now apply Matches_lit|].
      change (b ++ www ++ host ++ id ++ tail)
        with ("" ++ b ++ www ++ host ++ id ++ tail).
      constructor; [apply MOptNone|].
      constructor; [now apply Matches_lit | exact Hwt].
    + change "https://" with ("http" ++ "s" ++ "://") in Hs.
      apply sameText_split in Hs. destruct Hs as (a & b0 & -> & Ha & Hb).
      apply sameText_split in Hb. destruct Hb as (b & c & -> & Hb & Hc).
      rewrite !append_assoc.
      constructor; [now apply Matches_lit|].
      constructor.
      * apply MOptSome.
        destruct b as [|x [|y b]]; cbn [sameText] in Hb;
          [discriminate | | rewrite andb_false_r in Hb; discriminate].
        constructor. rewrite andb_true_r in Hb. exact Hb.
      * constructor; [now apply Matches_lit | exact Hwt].
Qed.

End LinkFacts.

Module PatternFacts.
Import StrFacts RegexFacts LinkFacts.

Lemma ciEq_dot (x : ascii) : Str.ciEq "." x = true -> x = "."%char.
Proof.
  destruct x as [[] [] [] [] [] [] [] []]; intros H; try discriminate H; reflexivity.
Qed.

(** A pattern anchored at the end matches a suffix of the name. *)
Lemma test_suffix (r : regex) (name : string) :
  test (Cat r Eol) name = true <->
  exists stem ext, name = stem ++ ext /\ Matches r ext "".
Proof.
  rewrite test_spec. split.
  - intros (pre & u & post & -> & M).
    apply Cat_inv in M. destruct M as (m1 & m2 & -> & M1 & M2).
    apply Eol_inv in M2. destruct M2 as [-> ->]. cbn in M1.
    exists pre, m1. now rewrite !append_nil_r.
  - intros (stem & ext & -> & M).
    exists stem, ext, "". rewrite !append_nil_r. split; [reflexivity|].
    rewrite <- (append_nil_r ext). constructor; [exact M | constructor].
Qed.

Lemma isPartial_spec (name : string) :
  isPartial name = true <-> EndsWithCi name ".part".
Proof.
  unfold isPartial, PART_REGEX, EndsWithCi. rewrite test_suffix.
  split; intros (stem & ext & E & M); exists stem, ext; (split; [exact E|]);
    now apply (Matches_lit ".part" ext "").
Qed.

Lemma isMp4_spec (name : string) :
  isMp4 name = true <-> EndsWithCi name ".mp4".
Proof.
  unfold isMp4, MP4_REGEX, EndsWithCi. rewrite test_suffix.
  split; intros (stem & ext & E & M); exists stem, ext; (split; [exact E|]);
    now apply (Matches_lit ".mp4" ext "").
Qed.

Lemma EndsWithCi_dot (name ext : string) :
  EndsWithCi name ("." ++ ext) <->
  exists stem e, name = stem ++ "." ++ e /\ sameText ext e = true.
Proof.
  unfold EndsWithCi. split.
  - intros (stem & e & -> & H). destruct e as [|x e]; [discriminate|].
    cbn [sameText append] in H. apply andb_true_iff in H. destruct H as [Hx He].
    apply ciEq_dot in Hx. subst x. exists stem, e. auto.
  - intros (stem & e & -> & H). exists stem, ("." ++ e). split; [reflexivity|].
    cbn [sameText append]. now rewrite H.
Qed.

Lemma hasMediaExt_spec (name : string) :
  hasMediaExt name = true <->
  EndsWithCi name ".mp4" \/ EndsWithCi name ".mkv" \/ EndsWithCi name ".webm" \/
  EndsWithCi name ".mov" \/ EndsWithCi name ".m4v".
Proof.
  change ".mp4" with ("." ++ "mp4"). change ".mkv" with ("." ++ "mkv").
  change ".webm" with ("." ++ "webm"). change ".mov" with ("." ++ "mov").
  change ".m4v" with ("." ++ "m4v"). rewrite !EndsWithCi_dot.
  unfold hasMediaExt, MEDIA_EXT_REGEX. rewrite test_spec. split.
  - intros (pre & u & post & -> & M).
    apply Cat_inv in M. destruct M as (dot & m & -> & Md & M).
    apply Cat_inv in M. destruct M as (ext & m2 & -> & Me & M2).
    apply Eol_inv in M2. destruct M2 as [-> ->].
    apply Chr_inv in Md. destruct Md as (c & -> & Hc). apply ciEq_dot in Hc. subst c.
    assert (E : pre ++ ("." ++ ext ++ "") ++ "" = pre ++ "." ++ ext)
      by now rewrite !append_nil_r.
    cbn [alts] in Me.
    apply Alt_inv in Me. destruct Me as [Me|Me];
      [apply Matches_lit in Me; left; eauto|].
    apply Alt_inv in Me. destruct Me as [Me|Me];
      [apply Matches_lit in Me; right; left; eauto|].
    apply Alt_inv in Me. destruct Me as [Me|Me];
      [apply Matches_lit in Me; right; right; left; eauto|].
    apply Alt_inv in Me. destruct Me as [Me|Me];
      [apply Matches_lit in Me; right; right; right; left; eauto|].
    apply Matches_lit in Me. right; right; right; right. eauto.
  - intros H.
    assert (G : exists stem ext,
               name = stem ++ "." ++ ext /\
               Matches (alts [lit "mp4"; lit "mkv"; lit "webm"; lit "mov"] (lit "m4v"))
                       ext "").
    { cbn [alts].
      destruct H as [(stem & e & E & H)|[(stem & e & E & H)|[(stem & e & E & H)
                    |[(stem & e & E & H)|(stem & e & E & H)]]]];
        exists stem, e; (split; [exact E|]).
      - apply MAltL. now apply Matches_lit.
      - apply MAltR, MAltL. now apply Matches_lit.
      - apply MAltR, MAltR, MAltL. now apply Matches_lit.
      - apply MAltR, MAltR, MAltR, MAltL. now apply Matches_lit.
      - apply MAltR, MAltR, MAltR, MAltR. now apply Matches_lit. }
    destruct G as (stem & ext & -> & M).
    exists stem, ("." ++ ext), "". rewrite !append_nil_r. split; [reflexivity|].
    constructor; [now constructor|].
    rewrite <- (append_nil_r ext). constructor; [exact M | constructor].
Qed.

Lemma isIntermediate_spec (name : string) :
  isIntermediate name = true <-> HasFormatTag name.
Proof.
  unfold isIntermediate, FORMAT_TAG_REGEX, plus, HasFormatTag. rewrite test_spec. split.
  - intros (pre & u & post & -> & M).
    apply Cat_inv in M. destruct M as (tag & m & -> & Mt & M).
    apply Cat_inv in M. destruct M as (ds & dot & -> & Md & Mdot).
    apply Cat_inv in Md. destruct Md as (d & rest & -> & Md & Mr).
    apply Chr_inv in Md. destruct Md as (c & -> & Hc).
    apply Star_inv in Mr.
    apply Chr_inv in Mdot. destruct Mdot as (x & -> & Hx). apply ciEq_dot in Hx. subst x.
    apply Matches_lit in Mt.
    exists pre, tag, (String c rest), post.
    rewrite !append_assoc. repeat split; auto; [discriminate|].
    cbn. now rewrite Hc, Mr.
  - intros (pre & tag & digits & post & -> & Ht & Hn & Hd).
    destruct digits as [|c rest]; [contradiction|].
    cbn in Hd. apply andb_true_iff in Hd. destruct Hd as [Hc Hr].
    exists pre, (tag ++ String c rest ++ "."), post.
    rewrite !append_assoc. split; [reflexivity|].
    constructor; [now apply Matches_lit|].
    change (String c rest ++ ".") with ((String c "" ++ rest) ++ ".").
    constructor; [|now constructor].
    constructor; [now constructor | now constructor].
Qed.

(** The four tests on names, in words. *)
Lemma name_tests (name : string) :
  (isPartial name = true <-> EndsWithCi name ".part") /\
  (isIntermediate name = true <-> HasFormatTag name) /\
  (isMp4 name = true <-> EndsWithCi name ".mp4") /\
  (hasMediaExt name = true <->
   EndsWithCi name ".mp4" \/ EndsWithCi name ".mkv" \/ EndsWithCi name ".webm" \/
   EndsWithCi name ".mov" \/ EndsWithCi name ".m4v").
Proof.
  auto using isPartial_spec, isIntermediate_spec, isMp4_spec, hasMediaExt_spec.
Qed.

End PatternFacts.

(** ** Link extraction *)

Module ExtractFacts.
Import StrFacts RegexFacts LinkFacts.

Lemma link_not_empty (pre u post : string) : VideoLink u -> pre ++ u ++ post <> "".
Proof.
  intros (scheme & www & host & id & tail & -> & _ & _ & _ & L & _) E.
  apply (f_equal String.length) in E.
  rewrite !length_append, L in E. cbn in E. lia.
Qed.

Lemma extract_sound (text : option string) (u : string) :
  extractYouTubeUrl text = Some u ->
  exists pre post, text = Some (pre ++ u ++ post) /\ VideoLink u.
Proof.
  destruct text as [t|]; cbn; [|discriminate].
  destruct (Str.isEmpty t); [discriminate|].
  intros H. apply exec_sound in H. destruct H as (pre & post & -> & M).
  apply Matches_link in M. eauto.
Qed.

Lemma extract_complete (pre u post : string) :
  VideoLink u -> extractYouTubeUrl (Some (pre ++ u ++ post)) <> None.
Proof.
  intros V. cbn.
  destruct (Str.isEmpty (pre ++ u ++ post)) eqn:E.
  - exfalso. apply (link_not_empty pre u post V).
    destruct (pre ++ u ++ post); [reflexivity | discriminate].
  - destruct (exec_complete YOUTUBE_URL_REGEX pre u post) as [v ->];
      [now apply Matches_link | discriminate].
Qed.

Lemma extract_of_message (msg : Message) :
  extractYouTubeUrl (Some (messageText msg)) = extractYouTubeUrl (m_text msg).
Proof. unfold messageText. destruct (m_text msg); reflexivity. Qed.

End ExtractFacts.

(** C10, as stated, fails: the id need not have exactly eleven characters.
    A link with a twelve-character id is extracted, although the text
    holds no link whose id is eleven characters long. *)
Lemma extract_accepts_longer_id :
  extractYouTubeUrl (Some "https://youtu.be/abcdefghijkl")
    = Some "https://youtu.be/abcdefghijkl" /\
  containsExactIdLink "https://youtu.be/abcdefghijkl" = false.
Proof. split; vm_compute; reflexivity. Qed.

(** C10, amended.  [extractYouTubeUrl] returns a text [u] only when the
    message contains [u] and [u] is an http(s) link, with an optional
    [www.], to [youtube.com/watch?v=] or [youtu.be/] followed by eleven id
    characters (letters, digits, underscore, hyphen) and then any run of
    non-whitespace, so a longer id is accepted as well.  It returns null
    exactly when the text contains no such link; in particular for a null
    or empty text, for a [youtube.com/shorts/] link and for a [youtu.be]
    link with a ten-character id. *)
Theorem extract_returns_only_links (text : option string) :
  (forall u, extractYouTubeUrl text = Some u ->
     exists pre post, text = Some (pre ++ u ++ post) /\ VideoLink u) /\
  (extractYouTubeUrl text = None <->
     forall pre u post, text = Some (pre ++ u ++ post) -> ~ VideoLink u) /\
  extractYouTubeUrl None = None /\
  extractYouTubeUrl (Some "") = None /\
  extractYouTubeUrl (Some "https://www.youtube.com/shorts/dQw4w9WgXcQ") = None /\
  extractYouTubeUrl (Some "https://youtu.be/dQw4w9WgXc") = None.
Proof.
  split; [exact (ExtractFacts.extract_sound text)|].
  split; [|repeat split; vm_compute; reflexivity].
  split.
  - intros H pre u post -> V.
    exact (ExtractFacts.extract_complete pre u post V H).
  - intros H. destruct (extractYouTubeUrl text) as [u|] eqn:E; [|reflexivity].
    apply ExtractFacts.extract_sound in E. destruct E as (pre & post & E & V).
    exfalso. exact (H pre u post E V).
Qed.

Lemma extract_returns_only_links_witness :
  exists pre post,
    Some "see https://youtu.be/dQw4w9WgXcQ now"
      = Some (pre ++ "https://youtu.be/dQw4w9WgXcQ" ++ post) /\
    VideoLink "https://youtu.be/dQw4w9WgXcQ".
Proof.
  apply (extract_returns_only_links (Some "see https://youtu.be/dQw4w9WgXcQ now")).
  vm_compute. reflexivity.
Defined.

(** C8.  From the message text of the scenario the link is extracted
    exactly; and when [extractYouTubeUrl] returns null for the text of a
    message, the handler is the immediate return: in every world it ends
    with the directory and the history of requests untouched. *)
Theorem no_link_no_job (env : Env) (msg : Message) :
  extractYouTubeUrl (Some "check this out https://youtu.be/dQw4w9WgXcQ?t=5 thanks")
    = Some "https://youtu.be/dQw4w9WgXcQ?t=5" /\
  (extractYouTubeUrl (m_text msg) = None ->
   onMessage env msg = ret tt /\
   forall w : World, onMessage env msg w = (Ok tt, w)).
Proof.
  split; [vm_compute; reflexivity|].
  intros H. rewrite <- ExtractFacts.extract_of_message in H.
  assert (E : onMessage env msg = ret tt).
  { unfold onMessage. rewrite H. reflexivity. }
  split; [exact E|]. intros w. rewrite E. reflexivity.
Qed.

Lemma no_link_no_job_witness :
  onMessage Sample.env (mkMessage 7 42 (Some "hello there")) Sample.emptyWorld
    = (Ok tt, Sample.emptyWorld).
Proof.
  apply (no_link_no_job Sample.env (mkMessage 7 42 (Some "hello there"))).
  vm_compute. reflexivity.
Defined.

(** ** File resolution *)

Module SortFacts.

Section ByKey.
Context {A : Type} (key : A -> Z).

Local Abbreviation cmp := (fun a b : A => key b - key a).
Local Abbreviation newer := (fun a b : A => key b <= key a).

Lemma In_insertBy (x y : A) (l : list A) :
  In y (insertBy cmp x l) <-> y = x \/ In y l.
Proof.
  induction l as [|z l IH]; cbn.
  - intuition.
  - destruct (key z - key x <=? 0); cbn; [intuition|]. rewrite IH. intuition.
Qed.

Lemma In_sortBy (y : A) (l : list A) : In y (sortBy cmp l) <-> In y l.
Proof.
  induction l as [|x l IH]; cbn; [reflexivity|].
  rewrite In_insertBy, IH. intuition.
Qed.

Lemma insertBy_sorted (x : A) (l : list A) :
  StronglySorted newer l -> StronglySorted newer (insertBy cmp x l).
Proof.
  induction 1 as [|z l S IH F]; cbn.
  - repeat constructor.
  - destruct (Z.leb_spec (key z - key x) 0) as [L|L].
    + constructor; [now constructor|].
      constructor; [lia|].
      eapply Forall_impl; [|exact F]. cbv beta. intros; lia.
    + constructor; [exact IH|].
      apply Forall_forall. intros y Hy. apply In_insertBy in Hy.
      destruct Hy as [->|Hy]; [lia|].
      rewrite Forall_forall in F. now apply F.
Qed.

Lemma sortBy_sorted (l : list A) : StronglySorted newer (sortBy cmp l).
Proof.
  induction l as [|x l IH]; cbn; [constructor | now apply insertBy_sorted].
Qed.

(** In a list sorted newest first, [find] returns the newest element
    that satisfies the test. *)
Lemma find_newest (p : A -> bool) (l : list A) (x : A) :
  StronglySorted newer l -> find p l = Some x ->
  In x l /\ p x = true /\ forall y, In y l -> p y = true -> key y <= key x.
Proof.
  induction 1 as [|z l S IH F]; cbn; [discriminate|].
  destruct (p z) eqn:P.
  - intros H. injection H as ->. repeat split; auto.
    intros y [->|Hy] _; [lia|]. rewrite Forall_forall in F. now apply F.
  - intros H. destruct (IH H) as (I & Px & N). repeat split; auto.
    intros y [->|Hy] Py; [congruence | now apply N].
Qed.

Lemma hd_newest (l : list A) (x : A) :
  StronglySorted newer l -> hd_error l = Some x ->
  In x l /\ forall y, In y l -> key y <= key x.
Proof.
  intros S H. destruct l as [|z l]; [discriminate|]. injection H as ->.
  inversion S as [|? ? _ F]; subst. split; [now left|].
  intros y [->|Hy]; [lia|]. rewrite Forall_forall in F. now apply F.
Qed.
End ByKey.

End SortFacts.

Module ResolverFacts.
Import SortFacts.

Lemma In_mediaMatches (fs : Dir) (base name : string) :
  In name (mediaMatches fs base) <-> Candidate fs base name.
Proof.
  unfold mediaMatches, Candidate, newestFirst.
  rewrite (In_sortBy (Fs.mtimeOf fs)), !filter_In, negb_true_iff. tauto.
Qed.

Lemma In_prefixMatches (fs : Dir) (base name : string) :
  In name (prefixMatches fs base) <->
  In name (Fs.readdir fs) /\ Str.startsWith name base = true /\ isPartial name = false.
Proof.
  unfold prefixMatches, newestFirst.
  rewrite (In_sortBy (Fs.mtimeOf fs)), !filter_In, negb_true_iff. tauto.
Qed.

Lemma mediaMatches_sorted (fs : Dir) (base : string) :
  StronglySorted (fun a b => Fs.mtimeOf fs b <= Fs.mtimeOf fs a) (mediaMatches fs base).
Proof. apply (sortBy_sorted (Fs.mtimeOf fs)). Qed.

Lemma prefixMatches_sorted (fs : Dir) (base : string) :
  StronglySorted (fun a b => Fs.mtimeOf fs b <= Fs.mtimeOf fs a) (prefixMatches fs base).
Proof. apply (sortBy_sorted (Fs.mtimeOf fs)). Qed.

Lemma runAndResolveFile_missing
    (downloadFn : string -> string -> M unit) (url outputPath : string) (w w1 : World) :
  downloadFn url outputPath w = (Ok tt, w1) ->
  Fs.exists_ (files w1) outputPath = false ->
  runAndResolveFile downloadFn url outputPath w
  = (scanOutcome (files w1) (basenameWithout outputPath (extname outputPath)),
     mkWorld (files w1) (trace w1 ++ [EvExists outputPath; EvReaddir])).
Proof.
  intros Hdl Hmiss.
  unfold runAndResolveFile, scanOutcome, bind. rewrite Hdl.
  msimpl. rewrite Hmiss. msimpl. rewrite <- app_assoc. cbn [app].
  destruct (mediaMatches (files w1) _) as [|n l]; [reflexivity|].
  destruct (cleanMp4 (n :: l)), (cleanOther (n :: l)); reflexivity.
Qed.

Lemma runAndResolveFile_present
    (downloadFn : string -> string -> M unit) (url outputPath : string) (w w1 : World) :
  downloadFn url outputPath w = (Ok tt, w1) ->
  Fs.exists_ (files w1) outputPath = true ->
  runAndResolveFile downloadFn url outputPath w
  = (Ok outputPath, mkWorld (files w1) (trace w1 ++ [EvExists outputPath])).
Proof.
  intros Hdl Hex.
  unfold runAndResolveFile, bind. rewrite Hdl.
  msimpl. rewrite Hex. reflexivity.
Qed.

Lemma runAndResolveFile_throws
    (downloadFn : string -> string -> M unit) (url outputPath : string) (w w1 : World)
    (e : JsError) :
  downloadFn url outputPath w = (Throw e, w1) ->
  runAndResolveFile downloadFn url outputPath w = (Throw e, w1).
Proof. intros Hdl. unfold runAndResolveFile, bind. now rewrite Hdl. Qed.

Lemma find_none_all {A : Type} (p : A -> bool) (l : list A) :
  find p l = None -> forall x, In x l -> p x = false.
Proof. intros H x Hx. exact (find_none p l H x Hx). Qed.

Lemma find_some_of {A : Type} (p : A -> bool) (l : list A) (x : A) :
  In x l -> p x = true -> exists y, find p l = Some y.
Proof.
  intros Hx Px. destruct (find p l) as [y|] eqn:E; [eauto|].
  rewrite (find_none p l E x Hx) in Px. discriminate.
Qed.

(** What the scan returns, and when. *)
Lemma scanOutcome_ok (fs : Dir) (base name : string) :
  scanOutcome fs base = Ok name ->
  Eligible fs base name /\
  (forall n, Eligible fs base n -> isMp4 n = true -> isMp4 name = true) /\
  (forall n, Eligible fs base n -> isMp4 n = isMp4 name ->
             Fs.mtimeOf fs n <= Fs.mtimeOf fs name).
Proof.
  unfold scanOutcome.
  pose proof (mediaMatches_sorted fs base) as S.
  pose proof (In_mediaMatches fs base) as I.
  destruct (mediaMatches fs base) as [|n0 l] eqn:E; [discriminate|].
  rewrite <- E in *. clear E n0 l.
  destruct (cleanMp4 (mediaMatches fs base)) as [a|] eqn:E1.
  - intros H. injection H as ->.
    apply (find_newest (Fs.mtimeOf fs) _ _ _ S) in E1.
    destruct E1 as (In1 & P & N).
    apply andb_true_iff in P. destruct P as [Pm Pc]. apply negb_true_iff in Pc.
    repeat split; try (apply I; exact In1); auto.
    intros n [C Hc] Hm. apply N; [now apply I|].
    rewrite Hm, Pm, Hc. reflexivity.
  - destruct (cleanOther (mediaMatches fs base)) as [b|] eqn:E2; [|discriminate].
    intros H. injection H as ->.
    pose proof (find_none_all _ _ E1) as NoMp4.
    apply (find_newest (Fs.mtimeOf fs) _ _ _ S) in E2.
    destruct E2 as (In2 & P & N). apply negb_true_iff in P.
    assert (Hno : forall n, Eligible fs base n -> isMp4 n = false).
    { intros n [C Hc]. apply I in C. specialize (NoMp4 n C). cbn in NoMp4.
      rewrite Hc in NoMp4. cbn in NoMp4. now rewrite andb_true_r in NoMp4. }
    repeat split; try (apply I; exact In2); auto.
    + intros n El Hm. rewrite (Hno n El) in Hm. discriminate.
    + intros n [C Hc] _. apply N; [now apply I | now rewrite Hc].
Qed.

Lemma scanOutcome_eligible (fs : Dir) (base n : string) :
  Eligible fs base n -> exists name, scanOutcome fs base = Ok name.
Proof.
  intros [C Hc]. unfold scanOutcome. apply In_mediaMatches in C.
  destruct (mediaMatches fs base) as [|n0 l] eqn:E; [contradiction|].
  rewrite <- E in *.
  destruct (find_some_of (fun name => negb (isIntermediate name)) _ n C) as [y Hy];
    [now rewrite Hc|].
  unfold cleanOther. rewrite Hy.
  destruct (cleanMp4 _); eauto.
Qed.

Lemma scanOutcome_only_intermediate (fs : Dir) (base n : string) :
  Candidate fs base n ->
  (forall m, Candidate fs base m -> isIntermediate m = true) ->
  scanOutcome fs base
  = Throw (newError "Only intermediate stream files were found after download.").
Proof.
  intros C All. unfold scanOutcome. apply In_mediaMatches in C.
  destruct (mediaMatches fs base) as [|n0 l] eqn:E; [contradiction|].
  rewrite <- E in *.
  assert (H1 : cleanMp4 (mediaMatches fs base) = None).
  { destruct (cleanMp4 _) as [a|] eqn:E1; [|reflexivity].
    apply find_some in E1. destruct E1 as [Ia Pa].
    apply In_mediaMatches in Ia. rewrite (All a Ia) in Pa.
    now rewrite andb_false_r in Pa. }
  assert (H2 : cleanOther (mediaMatches fs base) = None).
  { destruct (cleanOther _) as [a|] eqn:E2; [|reflexivity].
    apply find_some in E2. destruct E2 as [Ia Pa].
    apply In_mediaMatches in Ia. now rewrite (All a Ia) in Pa. }
  now rewrite H1, H2.
Qed.

Lemma scanOutcome_none (fs : Dir) (base : string) :
  (forall n, ~ Candidate fs base n) ->
  scanOutcome fs base
  = Throw (newError "Download finished but output video file was not found.").
Proof.
  intros No. unfold scanOutcome.
  destruct (mediaMatches fs base) as [|n0 l] eqn:E; [reflexivity|].
  exfalso. apply (No n0). apply In_mediaMatches. rewrite E. now left.
Qed.

Lemma resolveFileByPrefix_eq (prefixPath : string) (w : World) :
  resolveFileByPrefix prefixPath w
  = (Ok (hd_error (prefixMatches (files w) prefixPath)),
     mkWorld (files w) (trace w ++ [EvReaddir])).
Proof.
  unfold resolveFileByPrefix. msimpl.
  destruct (prefixMatches (files w) prefixPath); reflexivity.
Qed.

End ResolverFacts.

(** C3.  When the requested output path does not exist after the
    download, whatever [runAndResolveFile] returns is a listed name that
    starts with the requested base, is not partial, has a recognised media
    extension and carries no stream-format tag; it is an [.mp4] name
    whenever some such name is; and no such name of its own class (the
    [.mp4] names, or else the others) was modified more recently.  A name
    is returned as soon as one such name exists.  Partial means ending in
    [.part], tagged means containing [.f], digits and a dot, and the
    recognised extensions are mp4, mkv, webm, mov and m4v, all up to
    case. *)
Theorem generic_resolution_prefers_mp4
    (downloadFn : string -> string -> M unit) (url outputPath : string) (w w1 : World)
    (Hdl : downloadFn url outputPath w = (Ok tt, w1))
    (Hmissing : Fs.exists_ (files w1) outputPath = false) :
  let fs := files w1 in
  let base := basenameWithout outputPath (extname outputPath) in
  (forall name w2,
     runAndResolveFile downloadFn url outputPath w = (Ok name, w2) ->
     Eligible fs base name /\
     (forall n, Eligible fs base n -> isMp4 n = true -> isMp4 name = true) /\
     (forall n, Eligible fs base n -> isMp4 n = isMp4 name ->
                Fs.mtimeOf fs n <= Fs.mtimeOf fs name)) /\
  (forall n, Eligible fs base n ->
     exists name w2, runAndResolveFile downloadFn url outputPath w = (Ok name, w2)) /\
  (forall name,
     (isPartial name = true <-> EndsWithCi name ".part") /\
     (isIntermediate name = true <-> HasFormatTag name) /\
     (isMp4 name = true <-> EndsWithCi name ".mp4") /\
     (hasMediaExt name = true <->
      EndsWithCi name ".mp4" \/ EndsWithCi name ".mkv" \/ EndsWithCi name ".webm" \/
      EndsWithCi name ".mov" \/ EndsWithCi name ".m4v")).
Proof.
  intros fs base.
  rewrite (ResolverFacts.runAndResolveFile_missing _ _ _ _ _ Hdl Hmissing).
  fold fs base. split; [|split; [|exact PatternFacts.name_tests]].
  - intros name w2 H. injection H as H _.
    now apply ResolverFacts.scanOutcome_ok.
  - intros n El. destruct (ResolverFacts.scanOutcome_eligible fs base n El) as [name ->].
    eauto.
Qed.

Lemma generic_resolution_prefers_mp4_witness :
  Eligible
    [mkDirent "video_7_42_1700.webm" 30 1000;
     mkDirent "video_7_42_1700.temp.mp4" 10 1000;
     mkDirent "video_7_42_1700.f137.mp4" 40 1000;
     mkDirent "video_7_42_1700.mkv.part" 50 1000]
    "video_7_42_1700" "video_7_42_1700.temp.mp4".
Proof.
  pose (fs := [mkDirent "video_7_42_1700.webm" 30 1000;
               mkDirent "video_7_42_1700.temp.mp4" 10 1000;
               mkDirent "video_7_42_1700.f137.mp4" 40 1000;
               mkDirent "video_7_42_1700.mkv.part" 50 1000]).
  refine (proj1 (proj1 (generic_resolution_prefers_mp4
            (fun _ _ => ret tt) "u" "video_7_42_1700.mp4"
            (mkWorld fs []) (mkWorld fs []) eq_refl eq_refl)
            "video_7_42_1700.temp.mp4"
            (mkWorld fs [EvExists "video_7_42_1700.mp4"; EvReaddir]) _)).
  vm_compute. reflexivity.
Defined.

(** C2, as stated, fails.  With an [.mkv] modified after an [.mp4], both
    complete and untagged, the resolver returns the older [.mp4] and not
    the most recently modified entry; and with one tagged [.m4a] as the
    only entry, all non-partial entries are intermediates, yet the error
    raised is the not-found one. *)
Lemma resolver_returns_older_mp4 :
  let fs := [mkDirent "video_7_42_1700.mkv" 20 1000;
             mkDirent "video_7_42_1700.temp.mp4" 10 1000] in
  let audioOnly := [mkDirent "video_7_42_1700.f140.m4a" 20 1000] in
  newestClean fs "video_7_42_1700" = Some "video_7_42_1700.mkv" /\
  fst (runAndResolveFile (fun _ _ => ret tt) "u" "video_7_42_1700.mp4" (mkWorld fs []))
    = Ok "video_7_42_1700.temp.mp4" /\
  isPartial "video_7_42_1700.f140.m4a" = false /\
  isIntermediate "video_7_42_1700.f140.m4a" = true /\
  fst (runAndResolveFile (fun _ _ => ret tt) "u" "video_7_42_1700.mp4"
         (mkWorld audioOnly []))
    = Throw (newError "Download finished but output video file was not found.").
Proof. repeat split; vm_compute; reflexivity. Qed.

(** C2, amended.  When the requested output path does not exist after the
    download, the candidates are the listed names that start with the
    requested base, are not partial and have a recognised media extension
    (mp4, mkv, webm, mov, m4v).  If some candidate carries no
    stream-format tag, [runAndResolveFile] returns the most recently
    modified untagged [.mp4] candidate if there is one, and otherwise the
    most recently modified untagged candidate.  If there are candidates
    and all are tagged, it raises the only-intermediate error; if there is
    no candidate, the output-not-found error.  [resolveFileByPrefix]
    returns the most recently modified listed name that starts with the
    prefix and is not partial, tagged or not, and null when there is
    none. *)
Theorem resolver_outcomes
    (downloadFn : string -> string -> M unit) (url outputPath : string) (w w1 : World)
    (Hdl : downloadFn url outputPath w = (Ok tt, w1))
    (Hmissing : Fs.exists_ (files w1) outputPath = false) :
  let fs := files w1 in
  let base := basenameWithout outputPath (extname outputPath) in
  let w2 := mkWorld fs (trace w1 ++ [EvExists outputPath; EvReaddir]) in
  ((exists n, Eligible fs base n) ->
     exists name,
       runAndResolveFile downloadFn url outputPath w = (Ok name, w2) /\
       Eligible fs base name /\
       (forall n, Eligible fs base n -> isMp4 n = true -> isMp4 name = true) /\
       (forall n, Eligible fs base n -> isMp4 n = isMp4 name ->
                  Fs.mtimeOf fs n <= Fs.mtimeOf fs name)) /\
  ((exists n, Candidate fs base n) ->
   (forall n, Candidate fs base n -> isIntermediate n = true) ->
     runAndResolveFile downloadFn url outputPath w
     = (Throw (newError "Only intermediate stream files were found after download."), w2)) /\
  ((forall n, ~ Candidate fs base n) ->
     runAndResolveFile downloadFn url outputPath w
     = (Throw (newError "Download finished but output video file was not found."), w2)) /\
  (forall (prefixPath : string) (w0 : World),
     exists r,
       resolveFileByPrefix prefixPath w0
       = (Ok r, mkWorld (files w0) (trace w0 ++ [EvReaddir])) /\
       match r with
       | Some name =>
           In name (Fs.readdir (files w0)) /\
           Str.startsWith name prefixPath = true /\
           isPartial name = false /\
           forall n, In n (Fs.readdir (files w0)) ->
                     Str.startsWith n prefixPath = true -> isPartial n = false ->
                     Fs.mtimeOf (files w0) n <= Fs.mtimeOf (files w0) name
       | None =>
           forall n, In n (Fs.readdir (files w0)) ->
                     Str.startsWith n prefixPath = true -> isPartial n = true
       end) /\
  (forall name,
     (isPartial name = true <-> EndsWithCi name ".part") /\
     (isIntermediate name = true <-> HasFormatTag name) /\
     (isMp4 name = true <-> EndsWithCi name ".mp4") /\
     (hasMediaExt name = true <->
      EndsWithCi name ".mp4" \/ EndsWithCi name ".mkv" \/ EndsWithCi name ".webm" \/
      EndsWithCi name ".mov" \/ EndsWithCi name ".m4v")).
Proof.
  intros fs base w2.
  rewrite (ResolverFacts.runAndResolveFile_missing _ _ _ _ _ Hdl Hmissing).
  fold fs base w2.
  split; [|split; [|split; [|split; [|exact PatternFacts.name_tests]]]].
  - intros [n El].
    destruct (ResolverFacts.scanOutcome_eligible fs base n El) as [name E].
    exists name. rewrite E. split; [reflexivity|].
    now apply ResolverFacts.scanOutcome_ok.
  - intros [n C] All.
    now rewrite (ResolverFacts.scanOutcome_only_intermediate fs base n C All).
  - intros No. now rewrite (ResolverFacts.scanOutcome_none fs base No).
  - intros prefixPath w0. rewrite ResolverFacts.resolveFileByPrefix_eq.
    eexists. split; [reflexivity|].
    pose proof (ResolverFacts.prefixMatches_sorted (files w0) prefixPath) as S.
    pose proof (ResolverFacts.In_prefixMatches (files w0) prefixPath) as I.
    destruct (hd_error (prefixMatches (files w0) prefixPath)) as [name|] eqn:E.
    + destruct (SortFacts.hd_newest (Fs.mtimeOf (files w0)) _ _ S E) as [In1 N].
      apply I in In1 as In1'. destruct In1' as (Ha & Hb & Hc).
      repeat split; auto.
      intros n Hn Hs Hp. apply N. apply I. auto.
    + intros n Hn Hs. destruct (isPartial n) eqn:P; [reflexivity|].
      assert (Hin : In n (prefixMatches (files w0) prefixPath)) by (apply I; auto).
      destruct (prefixMatches (files w0) prefixPath); [contradiction | discriminate].
Qed.

Lemma resolver_outcomes_witness :
  runAndResolveFile (fun _ _ => ret tt) "u" "video_7_42_1700.mp4"
    (mkWorld [mkDirent "video_7_42_1700.f137.mp4" 40 1000] [])
  = (Throw (newError "Only intermediate stream files were found after download."),
     mkWorld [mkDirent "video_7_42_1700.f137.mp4" 40 1000]
             [EvExists "video_7_42_1700.mp4"; EvReaddir]).
Proof.
  pose (fs := [mkDirent "video_7_42_1700.f137.mp4" 40 1000]).
  refine (proj1 (proj2 (resolver_outcomes (fun _ _ => ret tt) "u" "video_7_42_1700.mp4"
            (mkWorld fs []) (mkWorld fs []) eq_refl eq_refl)) _ _).
  - exists "video_7_42_1700.f137.mp4". vm_compute. intuition.
  - intros n (Hin & _). destruct Hin as [<-|[]]. vm_compute. reflexivity.
Defined.

(** ** Deleting files *)

Module FsFacts.

Lemma unlink_missing (fs : Dir) (p : string) :
  Fs.exists_ fs p = false -> Fs.unlink fs p = fs.
Proof.
  unfold Fs.exists_, Fs.unlink. induction fs as [|e fs IH]; cbn; [reflexivity|].
  rewrite orb_false_iff. intros [H1 H2]. rewrite H1. cbn. now rewrite IH.
Qed.

Lemma exists_unlink (fs : Dir) (p : string) : Fs.exists_ (Fs.unlink fs p) p = false.
Proof.
  unfold Fs.exists_, Fs.unlink. induction fs as [|e fs IH]; cbn; [reflexivity|].
  destruct (Fs.hasName p e) eqn:E; cbn; [exact IH|]. now rewrite E, IH.
Qed.

Lemma readdir_unlink (fs : Dir) (p : string) :
  Fs.readdir (Fs.unlink fs p) = filter (fun n => negb (String.eqb n p)) (Fs.readdir fs).
Proof.
  unfold Fs.readdir, Fs.unlink, Fs.hasName.
  induction fs as [|e fs IH]; cbn; [reflexivity|].
  destruct (String.eqb (d_name e) p); cbn; now rewrite IH.
Qed.

Lemma safeDelete_eq (p : string) (w : World) :
  safeDelete p w
  = (Ok tt, mkWorld (afterSafeDelete (files w) p)
                    (trace w ++ safeDeleteEvents (files w) p)).
Proof.
  unfold safeDelete, afterSafeDelete, safeDeleteEvents.
  destruct (Str.isEmpty p).
  - msimpl. rewrite app_nil_r. now destruct w.
  - msimpl. destruct (Fs.exists_ (files w) p) eqn:E; msimpl.
    + now rewrite <- app_assoc.
    + now rewrite (unlink_missing _ _ E).
Qed.

End FsFacts.

(** ** The stream merger *)

Module MergeFacts.
Import FsFacts.

Lemma isZero_spec (code : option Z) : isZero code = true <-> code = Some 0.
Proof.
  destruct code as [n|]; cbn; [|split; discriminate].
  rewrite Z.eqb_eq. split; [now intros -> | now intros [= ->]].
Qed.

(** The world in which the encoder has run. *)
Lemma mergeWithFfmpeg_eq (env : Env) (videoPath audioPath outputPath : string) (w : World) :
  let bin := Str.orElse (FFMPEG_PATH env) "ffmpeg" in
  let args := ffmpegArgs videoPath audioPath outputPath in
  let tr := (trace w ++ safeDeleteEvents (files w) outputPath)%list in
  let ran := ffmpeg_run env tr bin args (afterSafeDelete (files w) outputPath) in
  let failure code chunks :=
    Throw (newError (Str.orElse (String.concat "" chunks)
                       ("ffmpeg exited with code " ++ exitCodeText code))) in
  mergeWithFfmpeg env videoPath audioPath outputPath w
  = match fst ran with
    | SpawnError err => (Throw err, mkWorld (snd ran) (tr ++ [EvSpawn bin args])%list)
    | Closed code chunks =>
        if isZero code
        then ((if Fs.exists_ (snd ran) outputPath then Ok tt else failure code chunks),
              mkWorld (snd ran) (tr ++ [EvSpawn bin args; EvExists outputPath]))
        else (failure code chunks, mkWorld (snd ran) (tr ++ [EvSpawn bin args]))
    end.
Proof.
  intros bin args tr ran failure.
  unfold mergeWithFfmpeg, bind. rewrite safeDelete_eq.
  unfold spawn. msimpl. fold bin args tr. fold ran.
  destruct ran as [outcome fs']. msimpl.
  destruct outcome as [err|code chunks]; [reflexivity|].
  destruct (isZero code); [|reflexivity].
  msimpl. rewrite <- app_assoc. cbn [app].
  destruct (Fs.exists_ fs' outputPath); reflexivity.
Qed.

End MergeFacts.

(** C5, as stated, fails: when the encoder cannot be started, the failure
    is the error of the spawn, not the captured error output (there is
    none) and not the exit-code message. *)
Lemma merge_fails_with_spawn_error :
  let result :=
    fst (mergeWithFfmpeg (Sample.envWith Sample.downloadsWebm Sample.ffmpegMissing)
           "v.webm" "a.webm" "out.mp4" Sample.emptyWorld) in
  result = Throw (mkError "Error" "spawn ffmpeg ENOENT" "") /\
  (forall code : option Z,
     result <> Throw (newError ("ffmpeg exited with code " ++ exitCodeText code))).
Proof.
  split; [vm_compute; reflexivity|].
  intros code. vm_compute. intros H. discriminate H.
Qed.

(** C5, amended.  [mergeWithFfmpeg] first deletes the file at [outputPath],
    so the encoder starts on a directory without it.  It succeeds if and
    only if the process closes with exit code zero and a file exists at
    [outputPath] afterwards.  If the process closes otherwise, it fails
    with the captured standard-error text, or with the message [ffmpeg
    exited with code n] when nothing was captured; if the process emits
    its [error] event (it could not be started), it fails with that
    error. *)
Theorem merge_outcomes (env : Env) (videoPath audioPath outputPath : string) (w : World) :
  let bin := Str.orElse (FFMPEG_PATH env) "ffmpeg" in
  let args := ffmpegArgs videoPath audioPath outputPath in
  let started := afterSafeDelete (files w) outputPath in
  let ran := ffmpeg_run env (trace w ++ safeDeleteEvents (files w) outputPath)%list
               bin args started in
  let result := fst (mergeWithFfmpeg env videoPath audioPath outputPath w) in
  (Str.isEmpty outputPath = true \/ Fs.exists_ started outputPath = false) /\
  (result = Ok tt <->
   exists chunks, fst ran = Closed (Some 0) chunks /\ Fs.exists_ (snd ran) outputPath = true) /\
  match fst ran with
  | SpawnError err => result = Throw err
  | Closed code chunks =>
      result = Ok tt \/
      result = Throw (newError
                        (if Str.isEmpty (String.concat "" chunks)
                         then "ffmpeg exited with code " ++ exitCodeText code
                         else String.concat "" chunks))
  end.
Proof.
  intros bin args started ran result.
  assert (E := MergeFacts.mergeWithFfmpeg_eq env videoPath audioPath outputPath w).
  cbv zeta in E. fold bin args started in E. fold ran in E.
  unfold result. rewrite E. clear E result.
  split.
  { unfold started, afterSafeDelete. destruct (Str.isEmpty outputPath); [now left|].
    right. apply FsFacts.exists_unlink. }
  destruct (fst ran) as [err|code chunks].
  - cbn [fst]. split; [|reflexivity].
    split; [discriminate | intros (chunks & H & _); discriminate].
  - unfold Str.orElse.
    destruct (isZero code) eqn:Z0.
    + apply MergeFacts.isZero_spec in Z0. subst code. cbn [fst].
      destruct (Fs.exists_ (snd ran) outputPath).
      * split; [|now left]. split; [eauto | reflexivity].
      * split; [|now right].
        split; [discriminate | intros (c & _ & H); discriminate].
    + cbn [fst]. split; [|now right].
      split; [discriminate|].
      intros (c & H & _). injection H as -> _. discriminate.
Qed.

(** ** Histories *)

Module TraceFacts.

Section Combinators.
Context (p : Event -> bool).

Lemma Emits_ret {A : Type} (a : A) : Emits p (ret a).
Proof. intros w. exists []. cbn. now rewrite app_nil_r. Qed.

Lemma Emits_throw {A : Type} (e : JsError) : Emits p (@throw A e).
Proof. intros w. exists []. cbn. now rewrite app_nil_r. Qed.

Lemma Emits_getFiles : Emits p getFiles.
Proof. intros w. exists []. cbn. now rewrite app_nil_r. Qed.

Lemma Emits_getTrace : Emits p getTrace.
Proof. intros w. exists []. cbn. now rewrite app_nil_r. Qed.

Lemma Emits_setFiles (fs : Dir) : Emits p (setFiles fs).
Proof. intros w. exists []. cbn. now rewrite app_nil_r. Qed.

Lemma Emits_emit (ev : Event) : p ev = true -> Emits p (emit ev).
Proof. intros H w. exists [ev]. cbn. now rewrite H. Qed.

Lemma Emits_bind {A B : Type} (m : M A) (k : A -> M B) :
  Emits p m -> (forall a, Emits p (k a)) -> Emits p (bind m k).
Proof.
  intros Hm Hk w. unfold bind.
  destruct (Hm w) as (t1 & E1 & P1).
  destruct (m w) as [[a|e] w1]; cbn [snd] in *.
  - destruct (Hk a w1) as (t2 & E2 & P2).
    exists (t1 ++ t2)%list. rewrite E2, E1, app_assoc, forallb_app, P1, P2. auto.
  - exists t1. auto.
Qed.

Lemma Emits_caseOf {A B : Type} (m : M A) (k : A -> M B) (h : JsError -> M B) :
  Emits p m -> (forall a, Emits p (k a)) -> (forall e, Emits p (h e)) ->
  Emits p (caseOf m k h).
Proof.
  intros Hm Hk Hh w. unfold caseOf.
  destruct (Hm w) as (t1 & E1 & P1).
  destruct (m w) as [[a|e] w1]; cbn [snd] in *.
  - destruct (Hk a w1) as (t2 & E2 & P2).
    exists (t1 ++ t2)%list. rewrite E2, E1, app_assoc, forallb_app, P1, P2. auto.
  - destruct (Hh e w1) as (t2 & E2 & P2).
    exists (t1 ++ t2)%list. rewrite E2, E1, app_assoc, forallb_app, P1, P2. auto.
Qed.

Lemma Emits_tryCatch {A : Type} (m : M A) (h : JsError -> M A) :
  Emits p m -> (forall e, Emits p (h e)) -> Emits p (tryCatch m h).
Proof.
  intros Hm Hh. change (tryCatch m h) with (caseOf m ret h).
  apply Emits_caseOf; auto. intros a. apply Emits_ret.
Qed.

Lemma Emits_tryFinally {A : Type} (m : M A) (fin : M unit) :
  Emits p m -> Emits p fin -> Emits p (tryFinally m fin).
Proof.
  intros Hm Hf w. unfold tryFinally.
  destruct (Hm w) as (t1 & E1 & P1).
  destruct (m w) as [r w1]; cbn [snd] in *.
  destruct (Hf w1) as (t2 & E2 & P2).
  exists (t1 ++ t2)%list.
  destruct (fin w1) as [[u|e] w2]; cbn [snd] in *;
    rewrite E2, E1, app_assoc, forallb_app, P1, P2; auto.
Qed.

Lemma Emits_forOf {A : Type} (l : list A) (body : A -> M unit) :
  (forall x, Emits p (body x)) -> Emits p (forOf l body).
Proof.
  intros Hb. induction l as [|x l IH]; cbn [forOf].
  - apply Emits_ret.
  - apply Emits_bind; auto.
Qed.
End Combinators.

(** Take an action apart along the combinators; what is left are the
    requests themselves. *)
Ltac emits_step :=
  lazymatch goal with
  | |- Emits _ (bind _ _) => apply Emits_bind; [|intros ?]
  | |- Emits _ (ret _) => apply Emits_ret
  | |- Emits _ (throw _) => apply Emits_throw
  | |- Emits _ getFiles => apply Emits_getFiles
  | |- Emits _ getTrace => apply Emits_getTrace
  | |- Emits _ (setFiles _) => apply Emits_setFiles
  | |- Emits _ (emit _) => apply Emits_emit
  | |- Emits _ (tryCatch _ _) => apply Emits_tryCatch; [|intros ?]
  | |- Emits _ (tryFinally _ _) => apply Emits_tryFinally
  | |- Emits _ (caseOf _ _ _) => apply Emits_caseOf; [|intros ?|intros ?]
  | |- Emits _ (forOf _ _) => apply Emits_forOf; intros ?
  | |- Emits _ (if ?b then _ else _) => destruct b
  | |- Emits _ (match ?x with _ => _ end) => destruct x
  end.

Ltac emits := repeat emits_step.

Section FsOnly.
Context (p : Event -> bool).
Hypothesis fs_ok : forall ev, isFsEvent ev = true -> p ev = true.

Lemma Emits_existsSync (f : string) : Emits p (existsSync f).
Proof. unfold existsSync. emits. now apply fs_ok. Qed.

Lemma Emits_unlinkSync (f : string) : Emits p (unlinkSync f).
Proof. unfold unlinkSync. emits. now apply fs_ok. Qed.

Lemma Emits_readdirSync : Emits p readdirSync.
Proof. unfold readdirSync. emits. now apply fs_ok. Qed.

Lemma Emits_statSync (f : string) : Emits p (statSync f).
Proof. unfold statSync. emits. now apply fs_ok. Qed.

Lemma Emits_safeDelete (f : string) : Emits p (safeDelete f).
Proof.
  unfold safeDelete. emits;
    auto using Emits_existsSync, Emits_unlinkSync.
Qed.

Lemma Emits_cleanupByPrefix (prefix : string) : Emits p (cleanupByPrefix prefix).
Proof.
  unfold cleanupByPrefix. emits; auto using Emits_readdirSync, Emits_safeDelete.
Qed.

Lemma Emits_resolveFileByPrefix (prefix : string) : Emits p (resolveFileByPrefix prefix).
Proof. unfold resolveFileByPrefix. emits; auto using Emits_readdirSync. Qed.
End FsOnly.

End TraceFacts.

(** ** Prefix sweeps *)

Module CleanupFacts.
Import FsFacts.

Lemma In_afterSafeDelete (fs : Dir) (name : string) (e : Dirent) :
  In e (afterSafeDelete fs name) ->
  In e fs /\ (d_name e = name -> Str.isEmpty name = true).
Proof.
  unfold afterSafeDelete. destruct (Str.isEmpty name); [auto|].
  unfold Fs.unlink. rewrite filter_In, negb_true_iff. intros [I H].
  split; [exact I|]. intros E. unfold Fs.hasName in H.
  rewrite E, String.eqb_refl in H. discriminate.
Qed.

Lemma In_sweep (base : string) (names : list string) :
  forall (fs : Dir) (e : Dirent),
    In e (fold_left (sweepStep base) names fs) ->
    In e fs /\
    (In (d_name e) names -> Str.startsWith (d_name e) base = true ->
     Str.isEmpty (d_name e) = true).
Proof.
  induction names as [|n names IH]; intros fs e H; cbn in *.
  - tauto.
  - destruct (IH _ _ H) as [I K]. unfold sweepStep in I.
    destruct (Str.startsWith n base) eqn:S.
    + apply In_afterSafeDelete in I. destruct I as [I D].
      split; [exact I|]. intros [->|Hn] Hs; [now apply D | now apply K].
    + split; [exact I|]. intros [->|Hn] Hs; [congruence | now apply K].
Qed.

Lemma In_afterCleanup (fs : Dir) (base : string) (e : Dirent) :
  In e (afterCleanup fs base) ->
  In e fs /\ (Str.startsWith (d_name e) base = true -> Str.isEmpty (d_name e) = true).
Proof.
  intros H. apply (In_sweep base) in H. destruct H as [I K].
  split; [exact I|]. apply K. unfold Fs.readdir. now apply in_map.
Qed.

Lemma forOf_sweep (base : string) (names : list string) :
  forall w : World,
    exists tr,
      forOf names
        (fun name => if Str.startsWith name base then safeDelete name else ret tt) w
      = (Ok tt, mkWorld (fold_left (sweepStep base) names (files w)) tr).
Proof.
  induction names as [|n names IH]; intros w; cbn [forOf fold_left].
  - exists (trace w). now destruct w.
  - unfold bind. unfold sweepStep at 2.
    destruct (Str.startsWith n base).
    + rewrite safeDelete_eq. apply IH.
    + unfold ret at 1. apply IH.
Qed.

Lemma cleanupByPrefix_eq (base : string) (w : World) :
  exists tr, cleanupByPrefix base w = (Ok tt, mkWorld (afterCleanup (files w) base) tr).
Proof.
  unfold cleanupByPrefix. msimpl.
  destruct (forOf_sweep base (Fs.readdir (files w))
              (mkWorld (files w) (trace w ++ [EvReaddir]))) as [tr E].
  exists tr. exact E.
Qed.

Lemma startsWith_nonempty (name base : string) :
  Str.startsWith name base = true -> Str.isEmpty base = false ->
  Str.isEmpty name = false.
Proof. destruct base, name; cbn; congruence. Qed.

Lemma append_nonempty (a b : string) : Str.isEmpty b = false -> Str.isEmpty (a ++ b) = false.
Proof. destruct a; cbn; auto. Qed.

End CleanupFacts.

(** C6.  Whatever the downloader and the encoder do, and whether
    [downloadHighQualityMerged] returns or throws, the directory it leaves
    holds no name that starts with the video-stream prefix or the
    audio-stream prefix of the job; and it returns, or throws, what its
    [try] block did. *)
Theorem temp_streams_always_removed (env : Env) (url outputPath : string) (w : World) :
  let t := Date_now env (trace w) in
  let videoPrefix := tempPrefixOf outputPath t ++ ".video" in
  let audioPrefix := tempPrefixOf outputPath t ++ ".audio" in
  let body :=
    (videoPath <- downloadSingleStream env url (videoFormat env) videoPrefix ;;
     audioPath <- downloadSingleStream env url audioFormat audioPrefix ;;
     mergeWithFfmpeg env videoPath audioPath outputPath) in
  let outcome := downloadHighQualityMerged env url outputPath w in
  Forall (fun name => Str.startsWith name videoPrefix = false /\
                      Str.startsWith name audioPrefix = false)
         (Fs.readdir (files (snd outcome))) /\
  fst outcome = fst (body w).
Proof.
  intros t videoPrefix audioPrefix body outcome.
  assert (E : exists tr,
             outcome = (fst (body w),
                        mkWorld (afterCleanup (afterCleanup (files (snd (body w))) videoPrefix)
                                   audioPrefix) tr)).
  { change outcome
      with (tryFinally body (cleanupByPrefix videoPrefix ;; cleanupByPrefix audioPrefix) w).
    unfold tryFinally, bind.
    destruct (body w) as [r w1]. cbn [fst snd].
    destruct (CleanupFacts.cleanupByPrefix_eq videoPrefix w1) as [tr1 E1].
    rewrite E1.
    destruct (CleanupFacts.cleanupByPrefix_eq audioPrefix
                (mkWorld (afterCleanup (files w1) videoPrefix) tr1)) as [tr2 E2].
    rewrite E2. cbn [files]. eauto. }
  destruct E as [tr ->]. cbn [fst snd files]. split; [|reflexivity].
  apply Forall_forall. intros name Hin.
  unfold Fs.readdir in Hin. apply in_map_iff in Hin. destruct Hin as (e & <- & He).
  apply CleanupFacts.In_afterCleanup in He. destruct He as [He Ka].
  apply CleanupFacts.In_afterCleanup in He. destruct He as [_ Kv].
  assert (Nv : Str.isEmpty videoPrefix = false).
  { unfold videoPrefix. now apply CleanupFacts.append_nonempty. }
  assert (Na : Str.isEmpty audioPrefix = false).
  { unfold audioPrefix. now apply CleanupFacts.append_nonempty. }
  split.
  - destruct (Str.startsWith (d_name e) videoPrefix) eqn:S; [|reflexivity].
    rewrite (CleanupFacts.startsWith_nonempty _ _ S Nv) in Kv. now specialize (Kv eq_refl).
  - destruct (Str.startsWith (d_name e) audioPrefix) eqn:S; [|reflexivity].
    rewrite (CleanupFacts.startsWith_nonempty _ _ S Na) in Ka. now specialize (Ka eq_refl).
Qed.

(** A run on sample collaborators: both streams are written, the encoder
    exits with 1, and the two stream files are gone when the error
    arrives. *)
Example streams_removed_after_failed_merge :
  let env := Sample.envWith Sample.downloadsWebm (Sample.ffmpegExits 1 ["Conversion "; "failed!"]) in
  downloadHighQualityMerged env "https://youtu.be/dQw4w9WgXcQ" "video_7_42_1700.mp4"
    Sample.emptyWorld
  = (Throw (newError "Conversion failed!"),
     mkWorld []
       (trace (snd (downloadHighQualityMerged env "https://youtu.be/dQw4w9WgXcQ"
                      "video_7_42_1700.mp4" Sample.emptyWorld)))) /\
  existsb (fun ev => match ev with
                     | EvUnlink p => String.eqb p "video_7_42_1700.mp4.hq_1700000000000.video.webm"
                     | _ => false
                     end)
    (trace (snd (downloadHighQualityMerged env "https://youtu.be/dQw4w9WgXcQ"
                   "video_7_42_1700.mp4" Sample.emptyWorld))) = true.
Proof. split; vm_compute; reflexivity. Qed.

(** ** The two download paths *)

Module PathFacts.
Import TraceFacts.

Lemma video_not_progressive (env : Env) :
  String.eqb (videoFormat env) (progressiveFormat env) = false.
Proof. reflexivity. Qed.

Lemma audio_not_progressive (env : Env) :
  String.eqb audioFormat (progressiveFormat env) = false.
Proof. reflexivity. Qed.

Lemma progressive_not_video (env : Env) :
  String.eqb (progressiveFormat env) (videoFormat env) = false.
Proof. reflexivity. Qed.

Lemma progressive_not_audio (env : Env) :
  String.eqb (progressiveFormat env) audioFormat = false.
Proof. reflexivity. Qed.

Section Requests.
Context (env : Env) (p : Event -> bool).
Hypothesis fs_ok : forall ev, isFsEvent ev = true -> p ev = true.

Lemma Emits_now : Emits p (now env).
Proof. unfold now. emits. Qed.

Lemma Emits_ytDlp (url : string) (opts : YtDlpOptions) :
  p (EvYtDlp url opts) = true -> Emits p (ytDlp env url opts).
Proof. intros H. unfold ytDlp. emits. exact H. Qed.

Lemma Emits_spawn (bin : string) (args : list string) :
  p (EvSpawn bin args) = true -> Emits p (spawn env bin args).
Proof. intros H. unfold spawn. emits. exact H. Qed.

Lemma Emits_runAndResolveFile (downloadFn : string -> string -> M unit)
    (url outputPath : string) :
  Emits p (downloadFn url outputPath) ->
  Emits p (runAndResolveFile downloadFn url outputPath).
Proof.
  intros H. unfold runAndResolveFile.
  emits; auto using Emits_existsSync, Emits_readdirSync.
Qed.

Hypothesis hq_ok : forall ev, isHighQualityRequest env ev = true -> p ev = true.

Lemma Emits_downloadSingleStream (url format prefix : string) :
  format = videoFormat env \/ format = audioFormat ->
  Emits p (downloadSingleStream env url format prefix).
Proof.
  intros F. unfold downloadSingleStream.
  emits; auto using Emits_resolveFileByPrefix.
  apply Emits_ytDlp. apply hq_ok. cbn.
  destruct F as [->| ->]; rewrite String.eqb_refl; auto using orb_true_r.
Qed.

Lemma Emits_mergeWithFfmpeg (videoPath audioPath outputPath : string) :
  Emits p (mergeWithFfmpeg env videoPath audioPath outputPath).
Proof.
  unfold mergeWithFfmpeg.
  emits; auto using Emits_safeDelete, Emits_existsSync, Emits_spawn.
Qed.

Lemma Emits_downloadHighQualityMerged (url outputPath : string) :
  Emits p (downloadHighQualityMerged env url outputPath).
Proof.
  unfold downloadHighQualityMerged.
  emits; auto using Emits_now, Emits_downloadSingleStream,
           Emits_mergeWithFfmpeg, Emits_cleanupByPrefix.
Qed.
End Requests.

Lemma highQuality_never_progressive (env : Env) (url outputPath : string) :
  Emits (fun ev => negb (isProgressiveCall env ev))
        (runAndResolveFile (downloadHighQualityMerged env) url outputPath).
Proof.
  apply Emits_runAndResolveFile.
  - intros [] H; try discriminate; reflexivity.
  - apply Emits_downloadHighQualityMerged.
    + intros [] H; try discriminate; reflexivity.
    + intros ev H. destruct ev; try discriminate H; try reflexivity.
      unfold isHighQualityRequest in H. unfold isProgressiveCall.
      apply orb_true_iff in H.
      destruct H as [H|H]; apply String.eqb_eq in H; rewrite H;
        [now rewrite video_not_progressive | now rewrite audio_not_progressive].
Qed.

(** The requests of the fallback path: one call of the downloader for
    the progressive format, then only the file system. *)
Lemma fallback_requests (env : Env) (url outputPath : string) (w : World) :
  exists opts t,
    o_format opts = progressiveFormat env /\
    o_output opts = outputPath /\
    trace (snd (runAndResolveFile (downloadProgressiveFallback env) url outputPath w))
    = (trace w ++ EvYtDlp url opts :: t)%list /\
    forallb isFsEvent t = true.
Proof.
  eexists. unfold runAndResolveFile, downloadProgressiveFallback, ytDlp. msimpl.
  destruct (ytDlp_run env _ _ _ _) as [[e|] fs'] eqn:R; msimpl.
  - exists []. repeat split; reflexivity.
  - destruct (Fs.exists_ fs' outputPath); msimpl.
    + exists [EvExists outputPath]. rewrite <- app_assoc. repeat split; reflexivity.
    + exists [EvExists outputPath; EvReaddir].
      repeat split; try reflexivity.
      destruct (mediaMatches fs' _) as [|n l]; cbn [snd trace].
      * now rewrite <- !app_assoc.
      * destruct (cleanMp4 (n :: l)), (cleanOther (n :: l)); cbn [snd trace];
          now rewrite <- !app_assoc.
Qed.

End PathFacts.

(** C1.  Let the high-quality path fail with the error [e].  The text the
    orchestrator classifies is the error's [stderr] if it has one, else
    its message (else its rendering as a string), in lower case, and [e]
    counts as a merge issue exactly when that text contains one of the
    three markers.  The high-quality path itself never calls the
    progressive download.  After the failure, if [e] is a merge issue the
    progressive path is run, the downloader is called for the progressive
    format exactly once, and the outcome is that of the progressive path;
    if it is not, nothing more is requested and [e] is thrown as it is.
    In both cases nothing of the high-quality path is requested again. *)
Theorem fallback_only_on_merge_issue
    (env : Env) (url outputPath : string) (w w1 : World) (e : JsError)
    (Hhq : runAndResolveFile (downloadHighQualityMerged env) url outputPath w
           = (Throw e, w1)) :
  let outcome := downloadVideo env url outputPath w in
  let fallback := runAndResolveFile (downloadProgressiveFallback env) url outputPath w1 in
  let markers := ["ffmpeg"; "intermediate stream files"; "stream output was not found"] in
  errorText e
    = (if Str.isEmpty (errStderr e)
       then if Str.isEmpty (errMessage e) then errorToString e else errMessage e
       else errStderr e) /\
  (looksLikeMergeIssue e = true <->
   exists marker pre post,
     In marker markers /\ Str.toLowerCase (errorText e) = pre ++ marker ++ post) /\
  (exists before,
     trace w1 = (trace w ++ before)%list /\
     forallb (fun ev => negb (isProgressiveCall env ev)) before = true) /\
  exists added,
    trace (snd outcome) = (trace w1 ++ added)%list /\
    forallb (fun ev => negb (isHighQualityRequest env ev)) added = true /\
    if looksLikeMergeIssue e
    then List.length (filter (isProgressiveCall env) added) = 1%nat /\
         outcome = (match fst fallback with
                    | Ok file => Ok (mkResult file true)
                    | Throw e' => Throw e'
                    end, snd fallback)
    else added = [] /\ outcome = (Throw e, w1).
Proof.
  intros outcome fallback markers.
  split; [|split; [|split]].
  - unfold errorText, Str.orElse.
    destruct (Str.isEmpty (errStderr e)), (Str.isEmpty (errMessage e)); reflexivity.
  - unfold looksLikeMergeIssue, markers.
    rewrite !orb_true_iff, !StrFacts.includes_append. split.
    + intros [[(pre & post & H)|(pre & post & H)]|(pre & post & H)];
        eexists; exists pre, post; (split; [|exact H]); cbn; auto.
    + intros (marker & pre & post & [<-|[<-|[<-|[]]]] & H); eauto.
  - destruct (PathFacts.highQuality_never_progressive env url outputPath w) as (t & E & P).
    rewrite Hhq in E. eauto.
  - assert (O : outcome =
                if looksLikeMergeIssue e
                then (match fst fallback with
                      | Ok file => Ok (mkResult file true)
                      | Throw e' => Throw e'
                      end, snd fallback)
                else (Throw e, w1)).
    { unfold outcome, downloadVideo, tryCatch, bind. rewrite Hhq.
      destruct (looksLikeMergeIssue e); cbn [negb]; [|reflexivity].
      fold fallback. destruct fallback as [[file|e'] w2]; reflexivity. }
    destruct (looksLikeMergeIssue e).
    + destruct (PathFacts.fallback_requests env url outputPath w1)
        as (opts & t & F & _ & E & P).
      fold fallback in E.
      exists (EvYtDlp url opts :: t). rewrite O. cbn [snd].
      split; [exact E|]. split; [|split; [|reflexivity]].
      * cbn [forallb isHighQualityRequest]. rewrite F.
        rewrite PathFacts.progressive_not_video, PathFacts.progressive_not_audio. cbn.
        clear -P. induction t as [|ev t IH]; [reflexivity|].
        cbn in P |- *. apply andb_true_iff in P. destruct P as [P1 P2].
        rewrite (IH P2), andb_true_r. now destruct ev.
      * cbn [filter isProgressiveCall]. rewrite F, String.eqb_refl. cbn [List.length].
        f_equal. clear -P. induction t as [|ev t IH]; [reflexivity|].
        cbn in P |- *. apply andb_true_iff in P. destruct P as [P1 P2].
        destruct ev; try discriminate P1; cbn; now apply IH.
    + exists []. rewrite O. cbn [snd]. rewrite app_nil_r. auto.
Qed.

Lemma fallback_only_on_merge_issue_witness :
  looksLikeMergeIssue
    (mkError "Error" "Command failed with exit code 1" "ERROR: ffmpeg not found") = true <->
  exists marker pre post,
    In marker ["ffmpeg"; "intermediate stream files"; "stream output was not found"] /\
    Str.toLowerCase
      (errorText (mkError "Error" "Command failed with exit code 1" "ERROR: ffmpeg not found"))
    = pre ++ marker ++ post.
Proof.
  refine (proj1 (proj2 (fallback_only_on_merge_issue
            (Sample.envWith (Sample.downloadFails "ERROR: ffmpeg not found")
                            (Sample.ffmpegMerges 1000))
            "https://youtu.be/dQw4w9WgXcQ" "video_7_42_1700.mp4"
            Sample.emptyWorld _ _ _))).
  vm_compute. reflexivity.
Defined.

(** ** The request handler *)

Module HandlerFacts.
Import TraceFacts PathFacts FsFacts.

Lemma sendMessage_eq (env : Env) (chatId : Z) (text : string) (w : World) :
  sendMessage env chatId text w
  = (bot_sendMessage env (trace w) chatId text,
     mkWorld (files w) (trace w ++ [EvSendMessage chatId text])).
Proof.
  unfold sendMessage. msimpl.
  destruct (bot_sendMessage env (trace w) chatId text); reflexivity.
Qed.

Lemma sendVideo_eq (env : Env) (chatId : Z) (file caption : string) (w : World) :
  sendVideo env chatId file caption w
  = (match bot_sendVideo env (trace w) chatId file caption with
     | None => Ok tt
     | Some e => Throw e
     end,
     mkWorld (files w) (trace w ++ [EvSendVideo chatId file caption])).
Proof.
  unfold sendVideo. msimpl.
  destruct (bot_sendVideo env (trace w) chatId file caption); reflexivity.
Qed.

(** [stop] never throws: a failed edit is swallowed. *)
Lemma stop_eq (env : Env) (session : StatusSession) (finalText : string) (w : World) :
  stop env session finalText w
  = (Ok tt,
     mkWorld (files w)
       (trace w ++ [EvClearInterval;
                    EvEditMessageText finalText (s_chatId session)
                      (s_statusMessageId session)])).
Proof.
  unfold stop, editMessageText. msimpl. rewrite <- app_assoc. cbn [app].
  destruct (bot_editMessageText env _ _ _ _); reflexivity.
Qed.

Lemma statSync_eq (p : string) (w : World) (entry : Dirent) :
  Fs.stat (files w) p = Some entry ->
  statSync p w = (Ok entry, mkWorld (files w) (trace w ++ [EvStat p])).
Proof. intros H. unfold statSync. msimpl. now rewrite H. Qed.

Section Requests.
Context (env : Env) (p : Event -> bool).
Hypothesis fs_ok : forall ev, isFsEvent ev = true -> p ev = true.
Hypothesis console_ok : forall text, p (EvConsoleError text) = true.
Hypothesis set_ok : p EvSetInterval = true.
Hypothesis clear_ok : p EvClearInterval = true.
Hypothesis send_ok : forall chatId text, p (EvSendMessage chatId text) = true.
Hypothesis edit_ok :
  forall text chatId messageId,
    String.eqb text tooLargeText = false ->
    p (EvEditMessageText text chatId messageId) = true.

Lemma Emits_sendMessage (chatId : Z) (text : string) :
  Emits p (sendMessage env chatId text).
Proof. unfold sendMessage. emits. apply send_ok. Qed.

Lemma Emits_stop (session : StatusSession) (finalText : string) :
  String.eqb finalText tooLargeText = false ->
  Emits p (stop env session finalText).
Proof.
  intros H. unfold stop, editMessageText. emits; auto.
Qed.

Lemma Emits_startCountdownStatus (chatId : Z) :
  Emits p (startCountdownStatus env chatId).
Proof. unfold startCountdownStatus. emits; auto using Emits_sendMessage. Qed.

Lemma Emits_onError (chatId : Z) (outputPath : string)
    (status : option StatusSession) (downloadedPath : option string) (e : JsError) :
  Emits p (onError env chatId outputPath status downloadedPath e).
Proof.
  unfold onError.
  emits; auto using Emits_sendMessage, Emits_stop, Emits_safeDelete,
           Emits_cleanupByPrefix.
Qed.

Hypothesis ytdlp_ok : forall url opts, p (EvYtDlp url opts) = true.
Hypothesis spawn_ok : forall bin args, p (EvSpawn bin args) = true.

Lemma Emits_downloadVideo (url outputPath : string) :
  Emits p (downloadVideo env url outputPath).
Proof.
  assert (hq_ok : forall ev, isHighQualityRequest env ev = true -> p ev = true).
  { intros ev H. destruct ev; try discriminate H; auto. }
  unfold downloadVideo.
  emits; auto using Emits_runAndResolveFile, Emits_downloadHighQualityMerged.
  apply Emits_runAndResolveFile; [exact fs_ok|].
  unfold downloadProgressiveFallback. now apply Emits_ytDlp.
Qed.
End Requests.

(** After the catch block has run to its end, a resolved file is gone. *)
Lemma onError_deletes (env : Env) (chatId : Z) (outputPath file : string)
    (status : StatusSession) (e : JsError) (w : World) :
  Str.isEmpty file = false ->
  fst (onError env chatId outputPath (Some status) (Some file) e w) = Ok tt ->
  Fs.exists_ (files (snd (onError env chatId outputPath (Some status) (Some file) e w)))
    file = false.
Proof.
  intros N. unfold onError. rewrite N. unfold bind, emit. cbv beta iota.
  rewrite !stop_eq. cbv beta iota. rewrite !sendMessage_eq. cbn [files trace].
  destruct (bot_sendMessage env _ chatId failureText) as [m|e']; cbv beta iota.
  - intros _. rewrite safeDelete_eq. cbn [snd files].
    unfold afterSafeDelete. rewrite N. apply exists_unlink.
  - discriminate.
Qed.

End HandlerFacts.

Module DeliveryFacts.
Import TraceFacts HandlerFacts FsFacts.

Lemma Emits_at {A : Type} (p : Event -> bool) (m : M A) (w w' : World) (r : Result A) :
  Emits p m -> m w = (r, w') ->
  exists t, trace w' = (trace w ++ t)%list /\ forallb p t = true.
Proof. intros E H. destruct (E w) as (t & Ht & P). rewrite H in Ht. eauto. Qed.

Lemma onMessage_reaches_delivery
    (env : Env) (msg : Message) (url outputPath : string) (w w1 w2 : World)
    (status : StatusSession) (result : DownloadResult) :
  extractYouTubeUrl (m_text msg) = Some url ->
  buildOutputPath env (m_chatId msg) (m_messageId msg) w = (Ok outputPath, w) ->
  startCountdownStatus env (m_chatId msg) w = (Ok status, w1) ->
  downloadVideo env url outputPath w1 = (Ok result, w2) ->
  onMessage env msg w
  = tryCatch (deliver env (m_chatId msg) status result)
      (onError env (m_chatId msg) outputPath (Some status) (Some (filePath result))) w2.
Proof.
  intros Hurl Hpath Hstatus Hdl.
  unfold onMessage. rewrite ExtractFacts.extract_of_message, Hurl.
  unfold bind. rewrite Hpath. unfold caseOf. now rewrite Hstatus, Hdl.
Qed.

End DeliveryFacts.

(** C4.  Let the handler have resolved an output file that exists.  If its
    size is strictly greater than 50 MiB (52428800 bytes), the handler
    stops the status session with the too-large text and requests the
    too-large notice, never requests [sendVideo] at any point of the run,
    and, when it ends without throwing (as it does when the transport
    accepts the notice), has deleted the file.  Otherwise
    (so also at exactly 50 MiB) the request after the [stat] is
    [sendVideo] for the file, and no too-large edit is requested. *)
Theorem too_large_iff_over_limit
    (env : Env) (msg : Message) (url outputPath : string) (w w1 w2 w3 : World)
    (status : StatusSession) (result : DownloadResult) (entry : Dirent)
    (Hurl : extractYouTubeUrl (m_text msg) = Some url)
    (Hpath : buildOutputPath env (m_chatId msg) (m_messageId msg) w = (Ok outputPath, w))
    (Hstatus : startCountdownStatus env (m_chatId msg) w = (Ok status, w1))
    (Hdl : downloadVideo env url outputPath w1 = (Ok result, w2))
    (Hnotice : (if usedFallback result
                then sendMessage env (m_chatId msg) fallbackNotice ;; ret tt
                else ret tt) w2 = (Ok tt, w3))
    (Hfile : Fs.stat (files w3) (filePath result) = Some entry)
    (Hname : Str.isEmpty (filePath result) = false) :
  let outcome := onMessage env msg w in
  let file := filePath result in
  let chatId := m_chatId msg in
  TELEGRAM_VIDEO_LIMIT_BYTES = 52428800 /\
  exists added,
    trace (snd outcome) = (trace w3 ++ EvStat file :: added)%list /\
    if d_size entry >? 52428800
    then
      (exists rest,
         added = EvClearInterval
                 :: EvEditMessageText tooLargeText (s_chatId status) (s_statusMessageId status)
                 :: EvSendMessage chatId tooLargeText :: rest) /\
      (exists all,
         trace (snd outcome) = (trace w ++ all)%list /\ forallb notSendVideo all = true) /\
      (fst outcome = Ok tt -> Fs.exists_ (files (snd outcome)) file = false) /\
      (forall messageId,
         bot_sendMessage env
           (trace w3 ++ [EvStat file; EvClearInterval;
                         EvEditMessageText tooLargeText (s_chatId status)
                           (s_statusMessageId status)])%list
           chatId tooLargeText = Ok messageId ->
         fst outcome = Ok tt)
    else
      (exists rest, added = EvSendVideo chatId file "Here is your downloaded video." :: rest) /\
      forallb notTooLargeEdit added = true.
Proof.
  intros outcome file chatId. subst outcome file chatId. split; [reflexivity|].
  assert (Hbefore : exists t0, trace w3 = (trace w ++ t0)%list /\ forallb notSendVideo t0 = true).
  { assert (P1 : forall ev, isFsEvent ev = true -> notSendVideo ev = true)
      by (intros ev H; destruct ev; try discriminate H; reflexivity).
    destruct (DeliveryFacts.Emits_at notSendVideo _ _ _ _
                (HandlerFacts.Emits_startCountdownStatus env notSendVideo
                   eq_refl (fun _ _ => eq_refl) (m_chatId msg)) Hstatus) as (ta & Ea & Pa).
    destruct (DeliveryFacts.Emits_at notSendVideo _ _ _ _
                (HandlerFacts.Emits_downloadVideo env notSendVideo P1
                   (fun _ _ => eq_refl) (fun _ _ => eq_refl) url outputPath) Hdl)
      as (tb & Eb & Pb).
    assert (Ec : exists tc, trace w3 = (trace w2 ++ tc)%list /\ forallb notSendVideo tc = true).
    { apply (DeliveryFacts.Emits_at notSendVideo _ _ _ _) with (2 := Hnotice).
      destruct (usedFallback result); TraceFacts.emits.
      apply HandlerFacts.Emits_sendMessage. intros; reflexivity. }
    destruct Ec as (tc & Ec & Pc).
    exists (ta ++ tb ++ tc)%list. rewrite Ec, Eb, Ea, <- !app_assoc.
    split; [reflexivity|]. now rewrite !forallb_app, Pa, Pb, Pc. }
  destruct Hbefore as (t0 & E0 & P0).
  pose proof (DeliveryFacts.onMessage_reaches_delivery env msg url outputPath w w1 w2
                status result Hurl Hpath Hstatus Hdl) as O.
  unfold tryCatch, deliver in O. cbv zeta in O.
  unfold bind at 1 in O. rewrite Hnotice in O.
  unfold bind at 1 in O. rewrite (HandlerFacts.statSync_eq _ w3 entry Hfile) in O.
  change TELEGRAM_VIDEO_LIMIT_BYTES with 52428800 in O.
  destruct (d_size entry >? 52428800).
  - (* too large *)
    unfold bind in O. rewrite HandlerFacts.stop_eq, HandlerFacts.sendMessage_eq in O.
    cbn [files trace] in O. rewrite <- !app_assoc in O. cbn [app] in O.
    destruct (bot_sendMessage env _ (m_chatId msg) tooLargeText) as [mid|e'].
    + rewrite FsFacts.safeDelete_eq in O. cbn [files trace] in O.
      rewrite <- !app_assoc in O. cbn [app] in O.
      rewrite O. cbn [fst snd files trace].
      eexists. split; [reflexivity|]. split; [eauto|]. split; [|split].
      * rewrite E0, <- !app_assoc.
        eexists. split; [reflexivity|].
        rewrite forallb_app, P0. cbn.
        unfold safeDeleteEvents. rewrite Hname.
        destruct (Fs.exists_ _ (filePath result)); reflexivity.
      * intros _. unfold afterSafeDelete. rewrite Hname.
        apply FsFacts.exists_unlink.
      * reflexivity.
    + rewrite O.
      match goal with
      | |- context [onError ?a ?b ?c ?d ?f ?g ?h] =>
          destruct (HandlerFacts.Emits_onError a notSendVideo
                      (fun ev H => ltac:(destruct ev; try discriminate H; reflexivity))
                      (fun _ => eq_refl) eq_refl (fun _ _ => eq_refl)
                      (fun _ _ _ _ => eq_refl) b c d f g h) as (t & Et & Pt);
          pose proof (HandlerFacts.onError_deletes a b c (filePath result) status g h Hname)
            as Del;
          destruct (onError a b c d f g h) as [r wf]
      end.
      cbn [fst snd files trace] in *. rewrite Et, <- !app_assoc. cbn [app].
      eexists. split; [reflexivity|]. split; [eauto|].
      split; [|split; [exact Del | discriminate]].
      rewrite E0, <- !app_assoc.
      eexists. split; [reflexivity|].
      rewrite forallb_app, P0. cbn. exact Pt.
  - (* within the limit *)
    unfold bind at 1 in O. rewrite HandlerFacts.sendVideo_eq in O. cbn [files trace] in O.
    rewrite <- !app_assoc in O. cbn [app] in O.
    destruct (bot_sendVideo env _ (m_chatId msg) (filePath result) _) as [e'|].
    + rewrite O.
      match goal with
      | |- context [onError ?a ?b ?c ?d ?f ?g ?h] =>
          destruct (HandlerFacts.Emits_onError a notTooLargeEdit
                      (fun ev H => ltac:(destruct ev; try discriminate H; reflexivity))
                      (fun _ => eq_refl) eq_refl (fun _ _ => eq_refl)
                      (fun text _ _ H => ltac:(unfold notTooLargeEdit, isTooLargeEdit;
                                                now rewrite H))
                      b c d f g h) as (t & Et & Pt);
          destruct (onError a b c d f g h) as [r wf]
      end.
      cbn [fst snd files trace] in *. rewrite Et, <- !app_assoc. cbn [app].
      eexists. split; [reflexivity|]. split; [eauto|]. cbn. exact Pt.
    + unfold bind in O. rewrite HandlerFacts.stop_eq, FsFacts.safeDelete_eq in O.
      cbn [files trace] in O. rewrite <- !app_assoc in O. cbn [app] in O.
      rewrite O. cbn [fst snd files trace].
      eexists. split; [reflexivity|]. split; [eauto|].
      cbn. unfold safeDeleteEvents. rewrite Hname.
      destruct (Fs.exists_ _ (filePath result)); reflexivity.
Qed.

Lemma too_large_iff_over_limit_witness :
  let outcome :=
    onMessage (Sample.envWith Sample.downloadsWebm (Sample.ffmpegMerges 52428801))
      (mkMessage 7 42 (Some "https://youtu.be/dQw4w9WgXcQ")) Sample.emptyWorld in
  (exists all,
     trace (snd outcome) = (trace Sample.emptyWorld ++ all)%list /\
     forallb notSendVideo all = true) /\
  Fs.exists_ (files (snd outcome)) "video_7_42_1700000000000.mp4" = false.
Proof.
  pose (env := Sample.envWith Sample.downloadsWebm (Sample.ffmpegMerges 52428801)).
  pose (msg := mkMessage 7 42 (Some "https://youtu.be/dQw4w9WgXcQ")).
  pose (url := "https://youtu.be/dQw4w9WgXcQ").
  pose (out := "video_7_42_1700000000000.mp4").
  let r1 := eval vm_compute in (startCountdownStatus env 7 Sample.emptyWorld) in
  lazymatch r1 with
  | (Ok ?status, ?w1) =>
      let r2 := eval vm_compute in (downloadVideo env url out w1) in
      lazymatch r2 with
      | (Ok ?result, ?w2) =>
          let r3 := eval vm_compute in (Fs.stat (files w2) (filePath result)) in
          lazymatch r3 with
          | Some ?entry =>
              pose proof (too_large_iff_over_limit env msg url out Sample.emptyWorld
                            w1 w2 w2 status result entry
                            ltac:(vm_compute; reflexivity) ltac:(vm_compute; reflexivity)
                            ltac:(vm_compute; reflexivity) ltac:(vm_compute; reflexivity)
                            ltac:(vm_compute; reflexivity) ltac:(vm_compute; reflexivity)
                            ltac:(vm_compute; reflexivity)) as H
          end
      end
  end.
  destruct H as [_ (added & _ & B)].
  cbn [d_size Z.gtb Z.compare Pos.compare Pos.compare_cont] in B.
  destruct B as (_ & NoSend & Deleted & _).
  split; [exact NoSend|].
  apply Deleted. vm_compute. reflexivity.
Defined.

(** The two sides of the ceiling, run on sample collaborators: a file of
    exactly 50 MiB is sent, a file one byte larger is not. *)
Example at_the_ceiling_the_file_is_sent :
  let outcome :=
    onMessage (Sample.envWith Sample.downloadsWebm (Sample.ffmpegMerges (50 * 1024 * 1024)))
      (mkMessage 7 42 (Some "https://youtu.be/dQw4w9WgXcQ")) Sample.emptyWorld in
  existsb isSendVideo (trace (snd outcome)) = true /\
  existsb isTooLargeEdit (trace (snd outcome)) = false.
Proof. split; vm_compute; reflexivity. Qed.

Example one_byte_over_the_ceiling_is_too_large :
  let outcome :=
    onMessage (Sample.envWith Sample.downloadsWebm (Sample.ffmpegMerges (50 * 1024 * 1024 + 1)))
      (mkMessage 7 42 (Some "https://youtu.be/dQw4w9WgXcQ")) Sample.emptyWorld in
  existsb isSendVideo (trace (snd outcome)) = false /\
  existsb isTooLargeEdit (trace (snd outcome)) = true /\
  files (snd outcome) = [].
Proof. repeat split; vm_compute; reflexivity. Qed.


(** * Further properties of the program *)

(** ** The file helpers *)

Module SweepFacts.
Import FsFacts.

Lemma filter_filter {A : Type} (f g : A -> bool) (l : list A) :
  filter f (filter g l) = filter (fun x => (g x && f x)%bool) l.
Proof.
  induction l as [|x l IH]; cbn; [reflexivity|].
  destruct (g x); cbn; [destruct (f x)|]; now rewrite IH.
Qed.


Lemma filter_all {A : Type} (f : A -> bool) (l : list A) :
  (forall x, f x = true) -> filter f l = l.
Proof.
  intros H. induction l as [|x l IH]; cbn; [reflexivity|]. now rewrite H, IH.
Qed.

Lemma sweepStep_filter (base : string) (fs : Dir) (n : string) :
  sweepStep base fs n
  = filter (fun e => negb (String.eqb (d_name e) n && swept base n)) fs.
Proof.
  unfold sweepStep, afterSafeDelete, swept.
  destruct (Str.startsWith n base); cbn [andb].
  - destruct (Str.isEmpty n); cbn [negb].
    + symmetry. apply filter_all. intros e. now rewrite andb_false_r.
    + unfold Fs.unlink, Fs.hasName. apply filter_ext. intros e. now rewrite andb_true_r.
  - symmetry. apply filter_all. intros e. now rewrite andb_false_r.
Qed.

Lemma sweep_filter (base : string) (names : list string) :
  forall fs : Dir,
    fold_left (sweepStep base) names fs
    = filter (fun e => negb (existsb (fun n => String.eqb (d_name e) n && swept base n)
                               names)%bool) fs.
Proof.
  induction names as [|n names IH]; intros fs; cbn [fold_left existsb].
  - symmetry. now apply filter_all.
  - rewrite IH, sweepStep_filter, filter_filter. apply filter_ext.
    intros e. now rewrite negb_orb.
Qed.

Lemma afterCleanup_filter (fs : Dir) (base : string) :
  afterCleanup fs base = filter (fun e => negb (swept base (d_name e))) fs.
Proof.
  unfold afterCleanup. rewrite sweep_filter. apply filter_ext_in.
  intros e He. f_equal.
  destruct (swept base (d_name e)) eqn:S.
  - apply existsb_exists. exists (d_name e). split.
    + unfold Fs.readdir. now apply in_map.
    + now rewrite String.eqb_refl, S.
  - destruct (existsb _ _) eqn:X; [|reflexivity].
    apply existsb_exists in X. destruct X as (n & _ & H).
    apply andb_true_iff in H. destruct H as [E Sn].
    apply String.eqb_eq in E. subst n. congruence.
Qed.

End SweepFacts.




(** ** Output paths *)

Module NameFacts.
Import StrFacts.

Lemma all_impl (p q : ascii -> bool) (s : string) :
  (forall c, p c = true -> q c = true) -> Str.all p s = true -> Str.all q s = true.
Proof.
  intros H. induction s as [|c s IH]; cbn; [reflexivity|].
  rewrite !andb_true_iff. intros [Hc Hs]. auto.
Qed.

Lemma uint_digits (d : Decimal.uint) :
  Str.all Str.isDigit (NilEmpty.string_of_uint d) = true.
Proof. induction d; cbn; auto. Qed.

Lemma ofZ_numChars (z : Z) : Str.all numChar (Str.ofZ z) = true.
Proof.
  assert (U : forall d, Str.all numChar (NilZero.string_of_uint d) = true).
  { intros d. apply (all_impl Str.isDigit).
    - intros c H. unfold numChar. now rewrite H.
    - destruct d; try apply (uint_digits (_ _)). reflexivity. }
  unfold Str.ofZ. destruct (Z.to_int z) as [d|d]; cbn [NilZero.string_of_int Str.all].
  - apply U.
  - now rewrite U.
Qed.

Lemma ofZ_inj (a b : Z) : Str.ofZ a = Str.ofZ b -> a = b.
Proof.
  unfold Str.ofZ. intros H.
  assert (N : forall z, Z.to_int z <> Decimal.Pos Decimal.Nil /\
                        Z.to_int z <> Decimal.Neg Decimal.Nil).
  { intros [|q|q]; cbn; split; try discriminate; intros [= E];
      now apply DecimalPos.Unsigned.to_uint_nonnil in E. }
  apply (f_equal NilZero.int_of_string) in H.
  rewrite !NilZero.isi in H by apply N.
  injection H as H. apply (f_equal Z.of_int) in H.
  now rewrite !DecimalZ.of_to in H.
Qed.

(** Two texts made of a number, a separator and a rest agree only part
    by part. *)
Lemma split_at_separator (u u' : string) (s s' : ascii) (r r' : string) :
  Str.all numChar u = true -> Str.all numChar u' = true ->
  numChar s = false -> numChar s' = false ->
  u ++ String s r = u' ++ String s' r' ->
  u = u' /\ s = s' /\ r = r'.
Proof.
  revert u'. induction u as [|c u IH]; intros [|c' u'] Hu Hu' Hs Hs' E; cbn in *.
  - injection E as -> ->. auto.
  - injection E as -> _. apply andb_true_iff in Hu'. destruct Hu' as [H _]. congruence.
  - injection E as -> _. apply andb_true_iff in Hu. destruct Hu as [H _]. congruence.
  - injection E as -> E.
    apply andb_true_iff in Hu. apply andb_true_iff in Hu'.
    destruct (IH u' (proj2 Hu) (proj2 Hu') Hs Hs' E) as (-> & -> & ->). auto.
Qed.

Lemma lastDotSuffix_mp4 (s : string) :
  Str.all notDot s = true -> lastDotSuffix (s ++ ".mp4") = Some ".mp4".
Proof.
  induction s as [|c s IH]; cbn [append Str.all]; [reflexivity|].
  rewrite andb_true_iff. intros [_ Hs].
  cbn [lastDotSuffix]. now rewrite (IH Hs).
Qed.

Lemma numChar_notDot (c : ascii) : numChar c = true -> notDot c = true.
Proof.
  destruct c as [[] [] [] [] [] [] [] []]; intros H; try discriminate H; reflexivity.
Qed.

(** The name [buildOutputPath] renders. *)
Lemma buildOutputPath_eq (env : Env) (chatId messageId : Z) (w : World) :
  buildOutputPath env chatId messageId w
  = (Ok ("video_" ++ Str.ofZ chatId ++ "_" ++ Str.ofZ messageId ++ "_"
         ++ Str.ofZ (Date_now env (trace w)) ++ ".mp4"), w).
Proof. reflexivity. Qed.

Lemma names_agree (a b c a' b' c' : Z) (x y : string) :
  ("video_" ++ Str.ofZ a ++ "_" ++ Str.ofZ b ++ "_" ++ Str.ofZ c ++ ".mp4") ++ x
  = ("video_" ++ Str.ofZ a' ++ "_" ++ Str.ofZ b' ++ "_" ++ Str.ofZ c' ++ ".mp4") ++ y ->
  a = a' /\ b = b' /\ c = c' /\ x = y.
Proof.
  intros E. cbn [append] in E. injection E as E.
  rewrite !append_assoc in E. cbn [append] in E.
  apply split_at_separator in E; try apply ofZ_numChars; try reflexivity.
  destruct E as (Ea & _ & E).
  rewrite !append_assoc in E. cbn [append] in E.
  apply split_at_separator in E; try apply ofZ_numChars; try reflexivity.
  destruct E as (Eb & _ & E).
  rewrite !append_assoc in E. cbn [append] in E.
  apply split_at_separator in E; try apply ofZ_numChars; try reflexivity.
  destruct E as (Ec & _ & E).
  injection E as E.
  repeat split; auto using ofZ_inj.
Qed.

End NameFacts.

(** X3.  [buildOutputPath] never throws and asks nothing of the world.
    The path it returns is not empty, has the extension [.mp4], and the
    base under which [runAndResolveFile] scans the directory is the path
    without that extension. *)
Theorem output_path_shape (env : Env) (chatId messageId : Z) (w : World) :
  exists p,
    buildOutputPath env chatId messageId w = (Ok p, w) /\
    Str.isEmpty p = false /\
    extname p = ".mp4" /\
    basenameWithout p (extname p) ++ ".mp4" = p /\
    Str.all notDot (basenameWithout p (extname p)) = true.
Proof.
  rewrite NameFacts.buildOutputPath_eq. eexists. split; [reflexivity|].
  split; [reflexivity|].
  set (stem := "ideo_" ++ Str.ofZ chatId ++ "_" ++ Str.ofZ messageId ++ "_"
               ++ Str.ofZ (Date_now env (trace w))).
  assert (Hstem : Str.all notDot stem = true).
  { unfold stem. rewrite !StrFacts.all_append.
    rewrite !(NameFacts.all_impl numChar notDot _ NameFacts.numChar_notDot
                (NameFacts.ofZ_numChars _)).
    reflexivity. }
  assert (Hshape : "video_" ++ Str.ofZ chatId ++ "_" ++ Str.ofZ messageId ++ "_"
                   ++ Str.ofZ (Date_now env (trace w)) ++ ".mp4"
                   = String "v" (stem ++ ".mp4")).
  { unfold stem. repeat (progress (rewrite ?StrFacts.append_assoc; cbn [append])).
    reflexivity. }
  rewrite Hshape.
  assert (Hext : extname (String "v" (stem ++ ".mp4")) = ".mp4").
  { unfold extname. rewrite (NameFacts.lastDotSuffix_mp4 stem Hstem).
    destruct (stem ++ ".mp4") as [|c [|c' t]]; reflexivity. }
  rewrite Hext. unfold basenameWithout.
  change (String "v" (stem ++ ".mp4")) with (String "v" stem ++ ".mp4").
  rewrite StrFacts.take_append. repeat split; auto.
Qed.

(** X4.  Output paths do not collide and none is a prefix of a name that
    starts with another: if a text that starts with the path of one job
    also starts with the path of another, the two jobs have the same chat
    id, message id and time stamp, and the same path. *)
Theorem output_paths_are_prefix_free
    (env : Env) (chat1 message1 chat2 message2 : Z) (w1 w2 : World)
    (p1 p2 x y : string)
    (H1 : fst (buildOutputPath env chat1 message1 w1) = Ok p1)
    (H2 : fst (buildOutputPath env chat2 message2 w2) = Ok p2)
    (E : p1 ++ x = p2 ++ y) :
  chat1 = chat2 /\ message1 = message2 /\
  Date_now env (trace w1) = Date_now env (trace w2) /\
  p1 = p2 /\ x = y.
Proof.
  rewrite NameFacts.buildOutputPath_eq in H1, H2. cbn [fst] in H1, H2.
  injection H1 as <-. injection H2 as <-.
  destruct (NameFacts.names_agree _ _ _ _ _ _ _ _ E) as (-> & -> & -> & ->).
  auto.
Qed.

Lemma output_paths_are_prefix_free_witness :
  7 = 7 /\ 42 = 42 /\
  Date_now Sample.env (trace Sample.emptyWorld) = Date_now Sample.env (trace Sample.emptyWorld) /\
  "video_7_42_1700000000000.mp4" = "video_7_42_1700000000000.mp4" /\
  ".hq_1.video.webm" = ".hq_1.video.webm".
Proof.
  apply (output_paths_are_prefix_free Sample.env 7 42 7 42
           Sample.emptyWorld Sample.emptyWorld
           "video_7_42_1700000000000.mp4" "video_7_42_1700000000000.mp4"
           ".hq_1.video.webm" ".hq_1.video.webm");
    vm_compute; reflexivity.
Defined.

(** X5.  A sweep for one job spares the files of every other job: after
    [cleanupByPrefix] on the output path of a job, or on that path
    followed by anything (its temporary stream prefixes), every entry
    whose name starts with the output path of a different job is still in
    the directory. *)
Theorem cleanup_spares_other_jobs
    (env : Env) (chat1 message1 chat2 message2 : Z) (w1 w2 w : World)
    (p1 p2 suffix : string) (e : Dirent)
    (H1 : fst (buildOutputPath env chat1 message1 w1) = Ok p1)
    (H2 : fst (buildOutputPath env chat2 message2 w2) = Ok p2)
    (Hdiff : p1 <> p2)
    (He : In e (files w))
    (Hname : Str.startsWith (d_name e) p2 = true) :
  In e (files (snd (cleanupByPrefix (p1 ++ suffix) w))).
Proof.
  destruct (CleanupFacts.cleanupByPrefix_eq (p1 ++ suffix) w) as [tr ->].
  cbn [snd files]. rewrite SweepFacts.afterCleanup_filter.
  apply filter_In. split; [exact He|].
  unfold swept. destruct (Str.startsWith (d_name e) (p1 ++ suffix)) eqn:S; [|reflexivity].
  exfalso. apply Hdiff.
  apply StrFacts.startsWith_append in S. destruct S as [r S].
  apply StrFacts.startsWith_append in Hname. destruct Hname as [r2 Hname].
  rewrite StrFacts.append_assoc, Hname in S.
  rewrite NameFacts.buildOutputPath_eq in H1, H2. cbn [fst] in H1, H2.
  injection H1 as <-. injection H2 as <-.
  symmetry in S.
  destruct (NameFacts.names_agree _ _ _ _ _ _ _ _ S) as (-> & -> & -> & _).
  reflexivity.
Qed.

Lemma cleanup_spares_other_jobs_witness :
  In (mkDirent "video_8_1_1700000000000.mp4.part" 5 10)
     (files (snd (cleanupByPrefix ("video_7_42_1700000000000.mp4" ++ ".hq_9.video")
                    (mkWorld [mkDirent "video_7_42_1700000000000.mp4.hq_9.video.webm" 4 10;
                              mkDirent "video_8_1_1700000000000.mp4.part" 5 10] [])))).
Proof.
  apply (cleanup_spares_other_jobs Sample.env 7 42 8 1 Sample.emptyWorld Sample.emptyWorld
           (mkWorld [mkDirent "video_7_42_1700000000000.mp4.hq_9.video.webm" 4 10;
                     mkDirent "video_8_1_1700000000000.mp4.part" 5 10] [])
           "video_7_42_1700000000000.mp4" "video_8_1_1700000000000.mp4" ".hq_9.video").
  - vm_compute. reflexivity.
  - vm_compute. reflexivity.
  - intros H. discriminate H.
  - simpl. auto.
  - vm_compute. reflexivity.
Defined.

(** ** Resolution and the two paths, continued *)

Module ResolveMoreFacts.
Import StrFacts.

Lemma In_readdir_exists (fs : Dir) (n : string) :
  In n (Fs.readdir fs) -> Fs.exists_ fs n = true.
Proof.
  unfold Fs.readdir, Fs.exists_. intros H. apply in_map_iff in H.
  destruct H as (e & <- & He). apply existsb_exists. exists e. split; [exact He|].
  apply String.eqb_refl.
Qed.

Lemma bind_ok_inv {A B : Type} (m : M A) (k : A -> M B) (w w' : World) (b : B) :
  bind m k w = (Ok b, w') ->
  exists a w1, m w = (Ok a, w1) /\ k a w1 = (Ok b, w').
Proof.
  unfold bind. destruct (m w) as [[a|e] w1]; [eauto | discriminate].
Qed.

Lemma exists_filter_name (keep : string -> bool) (fs : Dir) (p : string) :
  Fs.exists_ fs p = true -> keep p = true ->
  Fs.exists_ (filter (fun e => keep (d_name e)) fs) p = true.
Proof.
  unfold Fs.exists_. intros H K. apply existsb_exists in H. destruct H as (e & He & Hn).
  apply existsb_exists. exists e. split; [|exact Hn].
  apply filter_In. split; [exact He|].
  unfold Fs.hasName in Hn. apply String.eqb_eq in Hn. now rewrite Hn.
Qed.

Lemma startsWith_longer (s t : string) :
  Str.isEmpty t = false -> Str.startsWith s (s ++ t) = false.
Proof.
  intros N. destruct (Str.startsWith s (s ++ t)) eqn:S; [|reflexivity].
  apply startsWith_append in S. destruct S as [r S].
  apply (f_equal String.length) in S. rewrite !length_append in S.
  destruct t; [discriminate|]. cbn in S. lia.
Qed.

(** When the encoder step resolves, the output file is there. *)
Lemma merge_ok_output_exists (env : Env) (v a out : string) (w w' : World) :
  mergeWithFfmpeg env v a out w = (Ok tt, w') -> Fs.exists_ (files w') out = true.
Proof.
  rewrite MergeFacts.mergeWithFfmpeg_eq. cbv zeta.
  destruct (fst (ffmpeg_run env _ _ _ _)) as [err|code chunks]; [discriminate|].
  destruct (isZero code); [|discriminate].
  destruct (Fs.exists_ _ out) eqn:E; [|discriminate].
  intros H. injection H as <-. exact E.
Qed.

Lemma highQuality_ok_output_exists (env : Env) (url out : string) (w w1 : World) :
  downloadHighQualityMerged env url out w = (Ok tt, w1) ->
  Fs.exists_ (files w1) out = true.
Proof.
  set (t := Date_now env (trace w)).
  set (videoPrefix := tempPrefixOf out t ++ ".video").
  set (audioPrefix := tempPrefixOf out t ++ ".audio").
  set (body := (videoPath <- downloadSingleStream env url (videoFormat env) videoPrefix ;;
                audioPath <- downloadSingleStream env url audioFormat audioPrefix ;;
                mergeWithFfmpeg env videoPath audioPath out)).
  change (downloadHighQualityMerged env url out w)
    with (tryFinally body (cleanupByPrefix videoPrefix ;; cleanupByPrefix audioPrefix) w).
  unfold tryFinally, bind.
  destruct (body w) as [r wb] eqn:B.
  destruct (CleanupFacts.cleanupByPrefix_eq videoPrefix wb) as [tr1 ->].
  destruct (CleanupFacts.cleanupByPrefix_eq audioPrefix
              (mkWorld (afterCleanup (files wb) videoPrefix) tr1)) as [tr2 ->].
  cbn [files]. intros H. injection H as -> <-. cbn [files].
  unfold body in B.
  apply bind_ok_inv in B. destruct B as (vp & wv & _ & B).
  apply bind_ok_inv in B. destruct B as (ap & wa & _ & B).
  apply merge_ok_output_exists in B.
  rewrite !SweepFacts.afterCleanup_filter.
  apply (exists_filter_name (fun n => negb (swept audioPrefix n))).
  - apply (exists_filter_name (fun n => negb (swept videoPrefix n))); [exact B|].
    unfold swept, videoPrefix, tempPrefixOf. rewrite !append_assoc.
    now rewrite startsWith_longer.
  - unfold swept, audioPrefix, tempPrefixOf. rewrite !append_assoc.
    now rewrite startsWith_longer.
Qed.

End ResolveMoreFacts.

(** X6.  What [runAndResolveFile] returns names a file that exists in the
    directory when it returns.  The download step resolved, the
    resolution changed nothing in the directory, and the name is either
    the requested output path or, when that path is missing, an eligible
    name of the scan. *)
Theorem resolved_file_exists
    (downloadFn : string -> string -> M unit) (url outputPath name : string) (w w' : World)
    (H : runAndResolveFile downloadFn url outputPath w = (Ok name, w')) :
  Fs.exists_ (files w') name = true /\
  (exists w1, downloadFn url outputPath w = (Ok tt, w1) /\ files w' = files w1) /\
  (name = outputPath \/
   Fs.exists_ (files w') outputPath = false /\
   Eligible (files w') (basenameWithout outputPath (extname outputPath)) name).
Proof.
  destruct (downloadFn url outputPath w) as [[[]|e] w1] eqn:D.
  - destruct (Fs.exists_ (files w1) outputPath) eqn:X.
    + rewrite (ResolverFacts.runAndResolveFile_present _ _ _ _ _ D X) in H.
      injection H as <- <-. cbn [files]. eauto 6.
    + rewrite (ResolverFacts.runAndResolveFile_missing _ _ _ _ _ D X) in H.
      injection H as H <-. cbn [files].
      destruct (ResolverFacts.scanOutcome_ok _ _ _ H) as (El & _).
      split; [|eauto 6].
      apply ResolveMoreFacts.In_readdir_exists. apply El.
  - rewrite (ResolverFacts.runAndResolveFile_throws _ _ _ _ _ _ D) in H. discriminate.
Qed.

Lemma resolved_file_exists_witness :
  Fs.exists_ [mkDirent "video_7_42_1700.webm" 30 1000] "video_7_42_1700.webm" = true.
Proof.
  refine (proj1 (resolved_file_exists (fun _ _ => ret tt) "u" "video_7_42_1700.mp4"
                   "video_7_42_1700.webm"
                   (mkWorld [mkDirent "video_7_42_1700.webm" 30 1000] [])
                   (mkWorld [mkDirent "video_7_42_1700.webm" 30 1000]
                            [EvExists "video_7_42_1700.mp4"; EvReaddir]) _)).
  vm_compute. reflexivity.
Defined.

(** X7.  When the high-quality path resolves, the merged file is at the
    requested output path and has survived the sweep of the temporary
    streams; the scan of the directory is not entered; [downloadVideo]
    returns that very path with the fallback marker unset, and the
    progressive download has not been called. *)
Theorem high_quality_success_returns_requested_path
    (env : Env) (url outputPath : string) (w w1 : World)
    (H : downloadHighQualityMerged env url outputPath w = (Ok tt, w1)) :
  let final := mkWorld (files w1) (trace w1 ++ [EvExists outputPath]) in
  Fs.exists_ (files w1) outputPath = true /\
  runAndResolveFile (downloadHighQualityMerged env) url outputPath w = (Ok outputPath, final) /\
  downloadVideo env url outputPath w = (Ok (mkResult outputPath false), final) /\
  exists t, trace final = (trace w ++ t)%list /\
            forallb (fun ev => negb (isProgressiveCall env ev)) t = true.
Proof.
  intros final.
  pose proof (ResolveMoreFacts.highQuality_ok_output_exists env url outputPath w w1 H) as X.
  pose proof (ResolverFacts.runAndResolveFile_present _ _ _ _ _ H X) as R.
  fold final in R.
  split; [exact X|]. split; [exact R|]. split.
  - unfold downloadVideo, tryCatch, bind. now rewrite R.
  - destruct (PathFacts.highQuality_never_progressive env url outputPath w) as (t & E & P).
    rewrite R in E. eauto.
Qed.

Lemma high_quality_success_returns_requested_path_witness :
  fst (downloadVideo Sample.env "https://youtu.be/dQw4w9WgXcQ" "video_7_42_1700.mp4"
         Sample.emptyWorld)
  = Ok (mkResult "video_7_42_1700.mp4" false).
Proof.
  let r := eval vm_compute in
             (downloadHighQualityMerged Sample.env "https://youtu.be/dQw4w9WgXcQ"
                "video_7_42_1700.mp4" Sample.emptyWorld) in
  lazymatch r with
  | (Ok tt, ?w1) =>
      pose proof (high_quality_success_returns_requested_path Sample.env
                    "https://youtu.be/dQw4w9WgXcQ" "video_7_42_1700.mp4"
                    Sample.emptyWorld w1 ltac:(vm_compute; reflexivity)) as P
  end.
  destruct P as (_ & _ & D & _).
  exact (f_equal fst D).
Defined.


(** ** Link extraction, continued *)

Module FirstMatchFacts.
Import StrFacts RegexFacts LinkFacts.

Lemma append_cancel (m a b : string) : m ++ a = m ++ b -> a = b.
Proof. induction m as [|c m IH]; cbn; [auto | intros [= E]; auto]. Qed.

Lemma star_total {A : Type} (p : ascii -> bool) (k : string -> option A) (s : string) :
  (forall s', k s' <> None) -> run (Star p) s k <> None.
Proof.
  intros T. induction s as [|c s IH]; cbn; [apply T|].
  destruct (p c); [|apply T].
  change ((fix star (s0 : string) : option A :=
             match s0 with
             | "" => k s0
             | String c0 s' =>
                 if p c0
                 then match star s' with Some x => Some x | None => k s0 end
                 else k s0
             end) s) with (run (Star p) s k).
  destruct (run (Star p) s k); [discriminate | contradiction].
Qed.

(** A greedy tail takes all it can: the match ends where the run ends. *)
Lemma greedy_stops (p : ascii -> bool) (r : regex) :
  EndsGreedy p r ->
  forall (A : Type) (s : string) (k : string -> option A) (x : A),
    (forall s', k s' <> None) ->
    run r s k = Some x ->
    exists rest, k rest = Some x /\ StopsAt p rest.
Proof.
  induction 1 as [|r1 r2 _ IH|r1 r2 _ IH1 _ IH2]; intros A s k x T H.
  - induction s as [|c s IHs].
    + cbn in H. exists "". split; [exact H | now left].
    + cbn in H. destruct (p c) eqn:P.
      * change ((fix star (s0 : string) : option A :=
                   match s0 with
                   | "" => k s0
                   | String c0 s' =>
                       if p c0
                       then match star s' with Some x => Some x | None => k s0 end
                       else k s0
                   end) s) with (run (Star p) s k) in H.
        destruct (run (Star p) s k) as [y|] eqn:E.
        -- injection H as ->. now apply IHs.
        -- exfalso. now apply (star_total p k s T).
      * exists (String c s). split; [exact H|]. right. eauto.
  - cbn [run] in H. apply run_sound in H. destruct H as (m & rest & _ & _ & H).
    now apply (IH A rest k x T).
  - cbn [run] in H. destruct (run r1 s k) as [y|] eqn:E.
    + injection H as ->. now apply (IH1 A s k x T).
    + now apply (IH2 A s k x T).
Qed.

Lemma matchHere_greedy (p : ascii -> bool) (r : regex) (s u : string) :
  EndsGreedy p r -> matchHere r s = Some u ->
  exists post, s = u ++ post /\ StopsAt p post.
Proof.
  intros G. unfold matchHere.
  destruct (run r s (fun rest => Some rest)) as [rest|] eqn:E; [|discriminate].
  intros H. injection H as <-.
  assert (T : forall s' : string, Some s' <> None) by (intros; discriminate).
  destruct (greedy_stops p r G _ s _ rest T E) as (rest' & K & St).
  injection K as ->.
  apply run_sound in E. destruct E as (m & rest' & -> & _ & K). injection K as ->.
  rewrite take_append. eauto.
Qed.

(** [exec] returns the match at the first index where there is one. *)
Lemma exec_first (r : regex) (s u : string) :
  exec r s = Some u ->
  exists pre post,
    s = pre ++ u ++ post /\
    matchHere r (u ++ post) = Some u /\
    forall a b, pre = a ++ b -> b <> "" -> matchHere r (b ++ u ++ post) = None.
Proof.
  induction s as [|c s IH]; cbn [exec]; destruct (matchHere r _) as [m|] eqn:E.
  - intros H. injection H as ->. pose proof E as E'. apply matchHere_sound in E'.
    destruct E' as (post & Hs & _). exists "", post. cbn [append].
    rewrite <- Hs. repeat split; auto.
    intros a b Hab Hb. destruct a, b; try discriminate. contradiction.
  - discriminate.
  - intros H. injection H as ->. pose proof E as E'. apply matchHere_sound in E'.
    destruct E' as (post & Hs & _). exists "", post. cbn [append].
    rewrite <- Hs. repeat split; auto.
    intros a b Hab Hb. destruct a, b; try discriminate. contradiction.
  - intros H. destruct (IH H) as (pre & post & -> & Hm & Hfirst).
    exists (String c pre), post. repeat split; auto.
    intros a b Hab Hb. destruct a as [|c' a].
    + cbn in Hab. subst b. exact E.
    + cbn in Hab. injection Hab as _ Hab. now apply (Hfirst a b).
Qed.

Lemma fold_space (c : ascii) : Str.isSpace (Str.fold c) = Str.isSpace c.
Proof. destruct c as [[] [] [] [] [] [] [] []]; reflexivity. Qed.

Lemma idChar_nonSpace (c : ascii) : idChar c = true -> nonSpace c = true.
Proof.
  destruct c as [[] [] [] [] [] [] [] []]; intros H; try discriminate H; reflexivity.
Qed.

Lemma sameText_nonSpace (pat s : string) :
  sameText pat s = true -> Str.all nonSpace pat = true -> Str.all nonSpace s = true.
Proof.
  revert s. induction pat as [|a pat IH]; intros [|b s]; cbn; try discriminate; auto.
  rewrite !andb_true_iff. intros [E H] [Na Np]. split; [|now apply IH].
  unfold Str.ciEq in E. apply Ascii.eqb_eq in E.
  unfold nonSpace in *. now rewrite <- (fold_space b), E, fold_space.
Qed.

Lemma VideoLink_nonSpace (u : string) : VideoLink u -> Str.all nonSpace u = true.
Proof.
  intros (scheme & www & host & id & tail & -> & Hs & Hw & Hh & _ & Hid & Ht).
  rewrite !all_append.
  assert (S1 : Str.all nonSpace scheme = true)
    by (destruct Hs as [Hs|Hs]; apply (sameText_nonSpace _ _ Hs); reflexivity).
  assert (S2 : Str.all nonSpace www = true)
    by (destruct Hw as [->|Hw]; [reflexivity | apply (sameText_nonSpace _ _ Hw); reflexivity]).
  assert (S3 : Str.all nonSpace host = true)
    by (destruct Hh as [Hh|Hh]; apply (sameText_nonSpace _ _ Hh); reflexivity).
  rewrite S1, S2, S3, Ht.
  now rewrite (NameFacts.all_impl idChar nonSpace id idChar_nonSpace Hid).
Qed.

Lemma youtube_ends_greedy : EndsGreedy nonSpace YOUTUBE_URL_REGEX.
Proof. unfold YOUTUBE_URL_REGEX. repeat constructor. Qed.

End FirstMatchFacts.

(** X8.  What [extractYouTubeUrl] returns is the first link of the text,
    taken up to the next whitespace: it contains no whitespace, what
    follows it in the text is nothing or starts with whitespace, and no
    link starts at an earlier position. *)
Theorem extract_takes_first_link_to_whitespace
    (text : option string) (u : string)
    (H : extractYouTubeUrl text = Some u) :
  exists pre post,
    text = Some (pre ++ u ++ post) /\
    VideoLink u /\
    Str.all nonSpace u = true /\
    (post = "" \/ exists c rest, post = String c rest /\ Str.isSpace c = true) /\
    (forall a b v post',
       pre = a ++ b -> b <> "" -> b ++ u ++ post = v ++ post' -> ~ VideoLink v).
Proof.
  destruct text as [t|]; cbn in H; [|discriminate].
  destruct (Str.isEmpty t); [discriminate|].
  apply FirstMatchFacts.exec_first in H. destruct H as (pre & post & -> & Hm & Hfirst).
  exists pre, post.
  destruct (FirstMatchFacts.matchHere_greedy nonSpace _ _ _
              FirstMatchFacts.youtube_ends_greedy Hm) as (post' & E & St).
  apply FirstMatchFacts.append_cancel in E. subst post'.
  apply RegexFacts.matchHere_sound in Hm. destruct Hm as (post' & E & M).
  apply FirstMatchFacts.append_cancel in E. subst post'.
  apply LinkFacts.Matches_link in M.
  repeat split; auto.
  - now apply FirstMatchFacts.VideoLink_nonSpace.
  - destruct St as [->|(c & r & -> & P)]; [now left|].
    right. exists c, r. split; [reflexivity|].
    unfold nonSpace in P. now apply negb_false_iff in P.
  - intros a b v post' Hab Hb E V.
    specialize (Hfirst a b Hab Hb). rewrite E in Hfirst.
    apply (LinkFacts.Matches_link v post') in V.
    unfold matchHere in Hfirst.
    destruct (RegexFacts.run_complete _ _ _ V _ (fun rest => Some rest) post' eq_refl)
      as [y Hy].
    rewrite Hy in Hfirst. discriminate.
Qed.

Lemma extract_takes_first_link_to_whitespace_witness :
  exists pre post,
    Some "a https://youtu.be/dQw4w9WgXcQ?t=5 b https://youtu.be/AAAAAAAAAAA"
      = Some (pre ++ "https://youtu.be/dQw4w9WgXcQ?t=5" ++ post) /\
    VideoLink "https://youtu.be/dQw4w9WgXcQ?t=5" /\
    Str.all nonSpace "https://youtu.be/dQw4w9WgXcQ?t=5" = true /\
    (post = "" \/ exists c rest, post = String c rest /\ Str.isSpace c = true) /\
    (forall a b v post',
       pre = a ++ b -> b <> "" ->
       b ++ "https://youtu.be/dQw4w9WgXcQ?t=5" ++ post = v ++ post' -> ~ VideoLink v).
Proof.
  apply (extract_takes_first_link_to_whitespace
           (Some "a https://youtu.be/dQw4w9WgXcQ?t=5 b https://youtu.be/AAAAAAAAAAA")).
  vm_compute. reflexivity.
Defined.


(** ** The request handler, continued *)

Module SessionFacts.
Import TraceFacts HandlerFacts FsFacts ResolveMoreFacts.

Lemma Emits_sendVideo (env : Env) (p : Event -> bool) (chatId : Z) (file caption : string) :
  p (EvSendVideo chatId file caption) = true ->
  Emits p (sendVideo env chatId file caption).
Proof. intros H. unfold sendVideo. emits. exact H. Qed.

Lemma grows_at {A : Type} (m : M A) (w w' : World) (r : Result A) :
  Emits (fun _ => true) m -> m w = (r, w') -> exists t, trace w' = (trace w ++ t)%list.
Proof. intros E H. destruct (E w) as (t & Ht & _). rewrite H in Ht. eauto. Qed.

Lemma Emits_deliver_any (env : Env) (chatId : Z) (status : StatusSession)
    (result : DownloadResult) :
  Emits (fun _ => true) (deliver env chatId status result).
Proof.
  unfold deliver.
  emits; auto using Emits_sendMessage, Emits_statSync, Emits_stop, Emits_safeDelete,
           Emits_sendVideo.
  all: unfold stop, editMessageText; emits; reflexivity.
Qed.

Lemma Emits_onError_any (env : Env) (chatId : Z) (outputPath : string)
    (status : option StatusSession) (downloadedPath : option string) (e : JsError) :
  Emits (fun _ => true) (onError env chatId outputPath status downloadedPath e).
Proof. apply Emits_onError; auto. Qed.

Lemma existsb_middle {A : Type} (q : A -> bool) (l1 l2 : list A) (x : A) :
  q x = true -> existsb q (l1 ++ x :: l2) = true.
Proof. intros H. rewrite existsb_app. cbn. rewrite H. now rewrite orb_true_r. Qed.

(** The catch block cancels the timer of a started session. *)
Lemma onError_stops (env : Env) (chatId : Z) (outputPath : string)
    (status : StatusSession) (downloadedPath : option string) (e : JsError) (w : World) :
  exists t,
    trace (snd (onError env chatId outputPath (Some status) downloadedPath e w))
    = (trace w ++ t)%list /\
    existsb isClearInterval t = true.
Proof.
  unfold onError. unfold bind at 1. unfold emit at 1.
  unfold bind at 1. rewrite stop_eq. cbn [files trace].
  match goal with
  | |- context [bind ?m ?k ?w0] =>
      assert (G : Emits (fun _ => true) (bind m k))
        by (emits; auto using Emits_sendMessage, Emits_safeDelete, Emits_cleanupByPrefix);
      destruct (G w0) as (t & Et & _); rewrite Et
  end.
  cbn [trace]. rewrite <- !app_assoc. cbn [app].
  eexists. split; [reflexivity|].
  apply (existsb_middle isClearInterval [_]). reflexivity.
Qed.

(** If the try block after the download runs to its end, the timer was
    cancelled on the way. *)
Lemma deliver_ok_stops (env : Env) (chatId : Z) (status : StatusSession)
    (result : DownloadResult) (w w' : World) :
  deliver env chatId status result w = (Ok tt, w') ->
  exists t, trace w' = (trace w ++ t)%list /\ existsb isClearInterval t = true.
Proof.
  unfold deliver. cbv zeta. intros H.
  apply bind_ok_inv in H. destruct H as (u & wa & Ha & H).
  apply bind_ok_inv in H. destruct H as (stats & wb & Hb & H).
  assert (Ga : exists ta, trace wa = (trace w ++ ta)%list).
  { apply (grows_at _ _ _ _) with (2 := Ha).
    destruct (usedFallback result); emits. now apply Emits_sendMessage. }
  assert (Gb : exists tb, trace wb = (trace wa ++ tb)%list).
  { apply (grows_at _ _ _ _) with (2 := Hb). now apply Emits_statSync. }
  destruct Ga as (ta & Ea). destruct Gb as (tb & Eb).
  destruct (d_size stats >? TELEGRAM_VIDEO_LIMIT_BYTES).
  - apply bind_ok_inv in H. destruct H as (u1 & wc & Hc & H).
    rewrite stop_eq in Hc. injection Hc as _ <-.
    assert (Gd : exists td, trace w' = (trace (mkWorld (files wb)
                   (trace wb ++ [EvClearInterval;
                                 EvEditMessageText tooLargeText (s_chatId status)
                                   (s_statusMessageId status)])) ++ td)%list).
    { apply (grows_at _ _ _ _) with (2 := H).
      emits; auto using Emits_sendMessage, Emits_safeDelete. }
    destruct Gd as (td & Ed). cbn [trace] in Ed.
    rewrite Ed, Eb, Ea, <- !app_assoc. cbn [app].
    eexists. split; [reflexivity|].
    rewrite !existsb_app. cbn. now rewrite !orb_true_r.
  - apply bind_ok_inv in H. destruct H as (u1 & wc & Hc & H).
    apply bind_ok_inv in H. destruct H as (u2 & wd & Hd & H).
    assert (Gc : exists tc, trace wc = (trace wb ++ tc)%list).
    { apply (grows_at _ _ _ _) with (2 := Hc). now apply Emits_sendVideo. }
    destruct Gc as (tc & Ec).
    rewrite stop_eq in Hd. injection Hd as _ <-.
    assert (Ge : exists te, trace w' = (trace (mkWorld (files wc)
                   (trace wc ++ [EvClearInterval;
                                 EvEditMessageText "Video sent successfully."
                                   (s_chatId status) (s_statusMessageId status)])) ++ te)%list).
    { apply (grows_at _ _ _ _) with (2 := H). now apply Emits_safeDelete. }
    destruct Ge as (te & Ee). cbn [trace] in Ee.
    rewrite Ee, Ec, Eb, Ea, <- !app_assoc. cbn [app].
    eexists. split; [reflexivity|].
    rewrite !existsb_app. cbn. now rewrite !orb_true_r.
Qed.

Lemma onMessage_reaches_failure
    (env : Env) (msg : Message) (url outputPath : string) (w w1 w2 : World)
    (status : StatusSession) (e : JsError) :
  extractYouTubeUrl (m_text msg) = Some url ->
  buildOutputPath env (m_chatId msg) (m_messageId msg) w = (Ok outputPath, w) ->
  startCountdownStatus env (m_chatId msg) w = (Ok status, w1) ->
  downloadVideo env url outputPath w1 = (Throw e, w2) ->
  onMessage env msg w = onError env (m_chatId msg) outputPath (Some status) None e w2.
Proof.
  intros Hurl Hpath Hstatus Hdl.
  unfold onMessage. rewrite ExtractFacts.extract_of_message, Hurl.
  unfold bind. rewrite Hpath. unfold caseOf. now rewrite Hstatus, Hdl.
Qed.

Lemma hasMediaExt_nonempty (name : string) :
  hasMediaExt name = true -> Str.isEmpty name = false.
Proof. destruct name; [intros H; vm_compute in H; discriminate | reflexivity]. Qed.

(** What a resolved name is. *)
Lemma runAndResolveFile_ok
    (downloadFn : string -> string -> M unit) (url outputPath name : string) (w w' : World) :
  runAndResolveFile downloadFn url outputPath w = (Ok name, w') ->
  Fs.exists_ (files w') name = true /\
  (name = outputPath \/ hasMediaExt name = true).
Proof.
  intros H. destruct (downloadFn url outputPath w) as [[[]|e] w1] eqn:D.
  - destruct (Fs.exists_ (files w1) outputPath) eqn:X.
    + rewrite (ResolverFacts.runAndResolveFile_present _ _ _ _ _ D X) in H.
      injection H as <- <-. cbn [files]. auto.
    + rewrite (ResolverFacts.runAndResolveFile_missing _ _ _ _ _ D X) in H.
      injection H as H <-. cbn [files].
      destruct (ResolverFacts.scanOutcome_ok _ _ _ H) as (El & _).
      split; [apply In_readdir_exists; apply El | right; apply El].
  - rewrite (ResolverFacts.runAndResolveFile_throws _ _ _ _ _ _ D) in H. discriminate.
Qed.

Lemma downloadVideo_ok (env : Env) (url outputPath : string) (w w' : World)
    (result : DownloadResult) :
  downloadVideo env url outputPath w = (Ok result, w') ->
  Fs.exists_ (files w') (filePath result) = true /\
  (filePath result = outputPath \/ hasMediaExt (filePath result) = true).
Proof.
  unfold downloadVideo, tryCatch. unfold bind at 1.
  destruct (runAndResolveFile (downloadHighQualityMerged env) url outputPath w)
    as [[name|e] w1] eqn:R.
  - intros H. injection H as <- <-. cbn [filePath]. now apply (runAndResolveFile_ok _ _ _ _ _ _ R).
  - destruct (looksLikeMergeIssue e); cbn [negb]; [|discriminate].
    intros H. apply bind_ok_inv in H. destruct H as (name & w2 & R2 & H).
    injection H as <- <-. cbn [filePath]. now apply (runAndResolveFile_ok _ _ _ _ _ _ R2).
Qed.

Lemma deliver_ok_deletes (env : Env) (chatId : Z) (status : StatusSession)
    (result : DownloadResult) (w w' : World) :
  Str.isEmpty (filePath result) = false ->
  deliver env chatId status result w = (Ok tt, w') ->
  Fs.exists_ (files w') (filePath result) = false.
Proof.
  intros N. unfold deliver. cbv zeta. intros H.
  apply bind_ok_inv in H. destruct H as (u & wa & _ & H).
  apply bind_ok_inv in H. destruct H as (stats & wb & _ & H).
  assert (D : forall wx, safeDelete (filePath result) wx = (Ok tt, w') ->
                         Fs.exists_ (files w') (filePath result) = false).
  { intros wx Hx. rewrite safeDelete_eq in Hx. injection Hx as <-. cbn [files].
    unfold afterSafeDelete. rewrite N. apply exists_unlink. }
  destruct (d_size stats >? TELEGRAM_VIDEO_LIMIT_BYTES).
  - apply bind_ok_inv in H. destruct H as (u1 & wc & _ & H).
    apply bind_ok_inv in H. destruct H as (u2 & wd & _ & H). now apply (D wd).
  - apply bind_ok_inv in H. destruct H as (u1 & wc & _ & H).
    apply bind_ok_inv in H. destruct H as (u2 & wd & _ & H). now apply (D wd).
Qed.

(** When the catch block of a failed download runs to its end, no name
    with the prefix it sweeps is left. *)
Lemma onError_sweeps (env : Env) (chatId : Z) (outputPath : string)
    (status : StatusSession) (e : JsError) (w : World) :
  fst (onError env chatId outputPath (Some status) None e w) = Ok tt ->
  files (snd (onError env chatId outputPath (Some status) None e w))
  = filter (fun d => negb (swept outputPath (d_name d))) (files w).
Proof.
  unfold onError. unfold bind, emit. cbv beta iota.
  rewrite !stop_eq. cbv beta iota. rewrite !sendMessage_eq. cbn [files trace].
  destruct (bot_sendMessage env _ chatId failureText) as [m|e']; cbv beta iota.
  - intros _.
    match goal with
    | |- context [cleanupByPrefix outputPath ?w0] =>
        destruct (CleanupFacts.cleanupByPrefix_eq outputPath w0) as [tr ->]
    end.
    cbn [snd files]. apply SweepFacts.afterCleanup_filter.
  - discriminate.
Qed.

End SessionFacts.

(** X9.  Once the status session has started, the handler cancels its
    timer on every way out: whether the download fails, the file is too
    large, sending fails or all goes well, [clearInterval] is requested
    after the session was started. *)
Theorem session_always_stopped
    (env : Env) (msg : Message) (url outputPath : string) (w w1 : World)
    (status : StatusSession)
    (Hurl : extractYouTubeUrl (m_text msg) = Some url)
    (Hpath : buildOutputPath env (m_chatId msg) (m_messageId msg) w = (Ok outputPath, w))
    (Hstatus : startCountdownStatus env (m_chatId msg) w = (Ok status, w1)) :
  exists t,
    trace (snd (onMessage env msg w)) = (trace w1 ++ t)%list /\
    existsb isClearInterval t = true.
Proof.
  destruct (downloadVideo env url outputPath w1) as [[result|e] w2] eqn:D.
  - assert (G : exists t2, trace w2 = (trace w1 ++ t2)%list).
    { apply (SessionFacts.grows_at _ _ _ _) with (2 := D).
      apply HandlerFacts.Emits_downloadVideo; auto. }
    destruct G as (t2 & E2).
    rewrite (DeliveryFacts.onMessage_reaches_delivery env msg url outputPath w w1 w2
               status result Hurl Hpath Hstatus D).
    unfold tryCatch.
    destruct (deliver env (m_chatId msg) status result w2) as [[[]|e] w3] eqn:Dl.
    + destruct (SessionFacts.deliver_ok_stops _ _ _ _ _ _ Dl) as (t & Et & X).
      cbn [snd]. rewrite Et, E2, <- app_assoc. eexists. split; [reflexivity|].
      now rewrite existsb_app, X, orb_true_r.
    + destruct (SessionFacts.grows_at _ _ _ _
                  (SessionFacts.Emits_deliver_any env (m_chatId msg) status result) Dl)
        as (t3 & E3).
      destruct (SessionFacts.onError_stops env (m_chatId msg) outputPath status
                  (Some (filePath result)) e w3) as (t & Et & X).
      rewrite Et, E3, E2, <- !app_assoc. eexists. split; [reflexivity|].
      now rewrite !existsb_app, X, !orb_true_r.
  - assert (G : exists t2, trace w2 = (trace w1 ++ t2)%list).
    { apply (SessionFacts.grows_at _ _ _ _) with (2 := D).
      apply HandlerFacts.Emits_downloadVideo; auto. }
    destruct G as (t2 & E2).
    rewrite (SessionFacts.onMessage_reaches_failure env msg url outputPath w w1 w2
               status e Hurl Hpath Hstatus D).
    destruct (SessionFacts.onError_stops env (m_chatId msg) outputPath status None e w2)
      as (t & Et & X).
    rewrite Et, E2, <- app_assoc. eexists. split; [reflexivity|].
    now rewrite existsb_app, X, orb_true_r.
Qed.

Lemma session_always_stopped_witness :
  existsb isClearInterval (trace (snd (onMessage offlineEnv sampleMessage staleWorld))) = true.
Proof.
  let r := eval vm_compute in (startCountdownStatus offlineEnv 7 staleWorld) in
  lazymatch r with
  | (Ok ?status, ?w1) =>
      pose proof (session_always_stopped offlineEnv sampleMessage sampleUrl sampleOutput
                    staleWorld w1 status
                    ltac:(vm_compute; reflexivity) ltac:(vm_compute; reflexivity)
                    ltac:(vm_compute; reflexivity)) as P
  end.
  destruct P as (t & E & X).
  rewrite E, existsb_app, X. apply orb_true_r.
Defined.

(** X10.  When the handler has resolved a file and runs to its end, the
    local copy is gone: after a delivery, after the too-large notice and
    after a failure alike, the resolved path names no file any more. *)
Theorem resolved_file_never_left_behind
    (env : Env) (msg : Message) (url outputPath : string) (w w1 w2 : World)
    (status : StatusSession) (result : DownloadResult)
    (Hurl : extractYouTubeUrl (m_text msg) = Some url)
    (Hpath : buildOutputPath env (m_chatId msg) (m_messageId msg) w = (Ok outputPath, w))
    (Hstatus : startCountdownStatus env (m_chatId msg) w = (Ok status, w1))
    (Hdl : downloadVideo env url outputPath w1 = (Ok result, w2))
    (Hdone : fst (onMessage env msg w) = Ok tt) :
  Fs.exists_ (files w2) (filePath result) = true /\
  Fs.exists_ (files (snd (onMessage env msg w))) (filePath result) = false.
Proof.
  destruct (SessionFacts.downloadVideo_ok _ _ _ _ _ _ Hdl) as [X Shape].
  split; [exact X|].
  assert (N : Str.isEmpty (filePath result) = false).
  { destruct Shape as [->|Hm]; [|now apply SessionFacts.hasMediaExt_nonempty].
    rewrite NameFacts.buildOutputPath_eq in Hpath. injection Hpath as <-. reflexivity. }
  revert Hdone.
  rewrite (DeliveryFacts.onMessage_reaches_delivery env msg url outputPath w w1 w2
             status result Hurl Hpath Hstatus Hdl).
  unfold tryCatch.
  destruct (deliver env (m_chatId msg) status result w2) as [[[]|e] w3] eqn:Dl.
  - intros _. cbn [snd]. now apply (SessionFacts.deliver_ok_deletes _ _ _ _ _ _ N Dl).
  - now apply HandlerFacts.onError_deletes.
Qed.

Lemma resolved_file_never_left_behind_witness :
  Fs.exists_ (files (snd (onMessage Sample.env sampleMessage Sample.emptyWorld)))
    sampleOutput = false.
Proof.
  let r := eval vm_compute in (startCountdownStatus Sample.env 7 Sample.emptyWorld) in
  lazymatch r with
  | (Ok ?status, ?w1) =>
      let r2 := eval vm_compute in (downloadVideo Sample.env sampleUrl sampleOutput w1) in
      lazymatch r2 with
      | (Ok ?result, ?w2) =>
          pose proof (resolved_file_never_left_behind Sample.env sampleMessage sampleUrl
                        sampleOutput Sample.emptyWorld w1 w2 status result
                        ltac:(vm_compute; reflexivity) ltac:(vm_compute; reflexivity)
                        ltac:(vm_compute; reflexivity) ltac:(vm_compute; reflexivity)
                        ltac:(vm_compute; reflexivity)) as P
      end
  end.
  exact (proj2 P).
Defined.

(** X11.  When the download fails and the handler runs to its end, the
    sweep has removed every file whose name starts with the job's output
    path, and has left every other entry in its place. *)
Theorem failed_job_leaves_no_output
    (env : Env) (msg : Message) (url outputPath : string) (w w1 w2 : World)
    (status : StatusSession) (e : JsError)
    (Hurl : extractYouTubeUrl (m_text msg) = Some url)
    (Hpath : buildOutputPath env (m_chatId msg) (m_messageId msg) w = (Ok outputPath, w))
    (Hstatus : startCountdownStatus env (m_chatId msg) w = (Ok status, w1))
    (Hdl : downloadVideo env url outputPath w1 = (Throw e, w2))
    (Hdone : fst (onMessage env msg w) = Ok tt) :
  files (snd (onMessage env msg w))
  = filter (fun d => negb (Str.startsWith (d_name d) outputPath)) (files w2) /\
  Forall (fun name => Str.startsWith name outputPath = false)
         (Fs.readdir (files (snd (onMessage env msg w)))).
Proof.
  revert Hdone.
  rewrite (SessionFacts.onMessage_reaches_failure env msg url outputPath w w1 w2
             status e Hurl Hpath Hstatus Hdl).
  intros Hdone. rewrite (SessionFacts.onError_sweeps _ _ _ _ _ _ Hdone).
  assert (N : Str.isEmpty outputPath = false).
  { rewrite NameFacts.buildOutputPath_eq in Hpath. injection Hpath as <-. reflexivity. }
  assert (S : forall d, swept outputPath (d_name d) = Str.startsWith (d_name d) outputPath).
  { intros d. unfold swept. destruct (Str.startsWith (d_name d) outputPath) eqn:P;
      [|reflexivity].
    now rewrite (CleanupFacts.startsWith_nonempty _ _ P N). }
  rewrite (filter_ext _ (fun d => negb (Str.startsWith (d_name d) outputPath)))
    by (intros d; now rewrite S).
  split; [reflexivity|].
  apply Forall_forall. intros name Hin. unfold Fs.readdir in Hin.
  apply in_map_iff in Hin. destruct Hin as (d & <- & Hd).
  apply filter_In in Hd. destruct Hd as [_ Hd]. now apply negb_true_iff in Hd.
Qed.

Lemma failed_job_leaves_no_output_witness :
  Forall (fun name => Str.startsWith name sampleOutput = false)
         (Fs.readdir (files (snd (onMessage offlineEnv sampleMessage staleWorld)))).
Proof.
  let r := eval vm_compute in (startCountdownStatus offlineEnv 7 staleWorld) in
  lazymatch r with
  | (Ok ?status, ?w1) =>
      let r2 := eval vm_compute in (downloadVideo offlineEnv sampleUrl sampleOutput w1) in
      lazymatch r2 with
      | (Throw ?e, ?w2) =>
          pose proof (failed_job_leaves_no_output offlineEnv sampleMessage sampleUrl
                        sampleOutput staleWorld w1 w2 status e
                        ltac:(vm_compute; reflexivity) ltac:(vm_compute; reflexivity)
                        ltac:(vm_compute; reflexivity) ltac:(vm_compute; reflexivity)
                        ltac:(vm_compute; reflexivity)) as P
      end
  end.
  exact (proj2 P).
Defined.

Module ChatFacts.
Import TraceFacts HandlerFacts PathFacts.

Lemma Emits_caseOf_post {A B : Type} (p : Event -> bool) (Q : A -> Prop)
    (m : M A) (k : A -> M B) (h : JsError -> M B) :
  Emits p m ->
  (forall w a w', m w = (Ok a, w') -> Q a) ->
  (forall a, Q a -> Emits p (k a)) ->
  (forall e, Emits p (h e)) ->
  Emits p (caseOf m k h).
Proof.
  intros Hm Hq Hk Hh w. unfold caseOf.
  destruct (Hm w) as (t1 & E1 & P1).
  destruct (m w) as [[a|e] w1] eqn:R; cbn [snd] in *.
  - destruct (Hk a (Hq _ _ _ R) w1) as (t2 & E2 & P2).
    exists (t1 ++ t2)%list. rewrite E2, E1, app_assoc, forallb_app, P1, P2. auto.
  - destruct (Hh e w1) as (t2 & E2 & P2).
    exists (t1 ++ t2)%list. rewrite E2, E1, app_assoc, forallb_app, P1, P2. auto.
Qed.

Lemma session_chat (env : Env) (chatId : Z) (w w' : World) (s : StatusSession) :
  startCountdownStatus env chatId w = (Ok s, w') -> s_chatId s = chatId.
Proof.
  unfold startCountdownStatus, bind.
  destruct (sendMessage env chatId (statusText cycleSeconds) w) as [[m|e] w1];
    [|discriminate].
  cbn. intros H. now injection H as <- _.
Qed.

Section OneChat.
Context (env : Env) (chat : Z).

Local Abbreviation p := (chatRequestOf chat).

Lemma fs_passes (ev : Event) : isFsEvent ev = true -> p ev = true.
Proof. destruct ev; intros H; try discriminate H; reflexivity. Qed.

Lemma Emits_send (text : string) :
  (String.eqb text (statusText cycleSeconds) || String.eqb text fallbackNotice ||
   String.eqb text tooLargeText || String.eqb text failureText)%bool = true ->
  Emits p (sendMessage env chat text).
Proof.
  intros H. unfold sendMessage. emits. cbn [chatRequestOf]. now rewrite Z.eqb_refl, H.
Qed.

Lemma Emits_stop_chat (s : StatusSession) (text : string) :
  s_chatId s = chat ->
  (String.eqb text tooLargeText || String.eqb text successText ||
   String.eqb text failureText)%bool = true ->
  Emits p (stop env s text).
Proof.
  intros Hs H. unfold stop, editMessageText. emits; try reflexivity.
  cbn [chatRequestOf]. now rewrite Hs, Z.eqb_refl, H.
Qed.

Lemma Emits_onError_chat (outputPath : string) (status : option StatusSession)
    (downloadedPath : option string) (e : JsError) :
  (forall s, status = Some s -> s_chatId s = chat) ->
  Emits p (onError env chat outputPath status downloadedPath e).
Proof.
  intros Hs. unfold onError.
  apply Emits_bind; [apply Emits_emit; reflexivity | intros _].
  apply Emits_bind.
  { destruct status as [s|]; [|apply Emits_ret].
    apply Emits_stop_chat; [now apply Hs | reflexivity]. }
  intros _. apply Emits_bind; [apply Emits_send; reflexivity | intros _].
  destruct downloadedPath as [f|]; [destruct (Str.isEmpty f)|];
    auto using Emits_cleanupByPrefix, Emits_safeDelete, fs_passes.
Qed.

Lemma Emits_deliver_chat (s : StatusSession) (result : DownloadResult) :
  s_chatId s = chat -> Emits p (deliver env chat s result).
Proof.
  intros Hs. unfold deliver. cbv zeta.
  apply Emits_bind.
  { destruct (usedFallback result); [|apply Emits_ret].
    apply Emits_bind; [apply Emits_send; reflexivity | intros _; apply Emits_ret]. }
  intros _. apply Emits_bind; [apply Emits_statSync, fs_passes | intros stats].
  destruct (d_size stats >? TELEGRAM_VIDEO_LIMIT_BYTES).
  - apply Emits_bind; [apply Emits_stop_chat; [exact Hs | reflexivity] | intros _].
    apply Emits_bind; [apply Emits_send; reflexivity | intros _].
    apply Emits_safeDelete, fs_passes.
  - apply Emits_bind.
    { apply SessionFacts.Emits_sendVideo. cbn [chatRequestOf]. now rewrite Z.eqb_refl. }
    intros _. apply Emits_bind; [apply Emits_stop_chat; [exact Hs | reflexivity] | intros _].
    apply Emits_safeDelete, fs_passes.
Qed.

End OneChat.

Lemma Emits_onMessage (env : Env) (msg : Message) :
  Emits (chatRequestOf (m_chatId msg)) (onMessage env msg).
Proof.
  unfold onMessage. cbv zeta.
  destruct (extractYouTubeUrl (Some (messageText msg))) as [url|]; [|apply Emits_ret].
  apply Emits_bind.
  { unfold buildOutputPath. emits. apply Emits_now. }
  intros outputPath.
  apply (Emits_caseOf_post _ (fun s => s_chatId s = m_chatId msg)).
  - unfold startCountdownStatus.
    apply Emits_bind; [apply Emits_send; reflexivity | intros id].
    apply Emits_bind; [apply Emits_emit; reflexivity | intros _; apply Emits_ret].
  - intros w s w'. apply session_chat.
  - intros s Hs. apply Emits_caseOf.
    + apply Emits_downloadVideo; auto using fs_passes.
    + intros result. apply Emits_tryCatch; [now apply Emits_deliver_chat|].
      intros e. apply Emits_onError_chat. now intros s' [= <-].
    + intros e. apply Emits_onError_chat. now intros s' [= <-].
  - intros e. apply Emits_onError_chat. discriminate.
Qed.

End ChatFacts.

(** X12.  The handler talks only to the chat the message came from, and
    only in its fixed texts: every message it sends, every edit and every
    video it sends goes to that chat, and the texts are the countdown, the
    fallback notice, the too-large text, the success text and the generic
    failure text.  In particular the text of an error goes to the console
    and never to the chat. *)
Theorem handler_talks_only_to_its_chat (env : Env) (msg : Message) (w : World) :
  exists t,
    trace (snd (onMessage env msg w)) = (trace w ++ t)%list /\
    forallb (chatRequestOf (m_chatId msg)) t = true.
Proof.
  destruct (ChatFacts.Emits_onMessage env msg w) as (t & E & P).
  exists t. split; [exact E | exact P].
Qed.


(** ** Stream downloads and the failures of the high-quality path *)

Module StreamFacts.
Import StrFacts ResolveMoreFacts.

Lemma toLowerCase_append (a b : string) :
  Str.toLowerCase (a ++ b) = Str.toLowerCase a ++ Str.toLowerCase b.
Proof. induction a as [|c a IH]; cbn; [reflexivity | now rewrite IH]. Qed.

Lemma includes_left (a b m : string) :
  Str.includes a m = true -> Str.includes (a ++ b) m = true.
Proof.
  rewrite !includes_append. intros (pre & post & ->).
  exists pre, (post ++ b). now rewrite !append_assoc.
Qed.

Lemma streamNotFound_is_merge_issue (prefixPath : string) :
  looksLikeMergeIssue (streamNotFound prefixPath) = true.
Proof.
  unfold looksLikeMergeIssue, streamNotFound, errorText, newError. cbn [errStderr errMessage].
  change (Str.orElse "" ?x) with x.
  change (Str.orElse ("Stream output was not found for prefix: " ++ prefixPath) ?y)
    with ("Stream output was not found for prefix: " ++ prefixPath).
  rewrite toLowerCase_append.
  rewrite (includes_left _ _ "stream output was not found") by (vm_compute; reflexivity).
  apply orb_true_r.
Qed.

Lemma exitCode_is_merge_issue (code : option Z) :
  looksLikeMergeIssue (newError ("ffmpeg exited with code " ++ exitCodeText code)) = true.
Proof.
  unfold looksLikeMergeIssue, errorText, newError. cbn [errStderr errMessage].
  change (Str.orElse "" ?x) with x.
  change (Str.orElse ("ffmpeg exited with code " ++ exitCodeText code) ?y)
    with ("ffmpeg exited with code " ++ exitCodeText code).
  rewrite toLowerCase_append.
  now rewrite (includes_left _ _ "ffmpeg") by (vm_compute; reflexivity).
Qed.

(** The outcome of [downloadSingleStream], read off the downloader's. *)
Lemma downloadSingleStream_eq (env : Env) (url format prefixPath : string) (w : World) :
  let opts := streamOptions env format prefixPath in
  let ran := ytDlp_run env (trace w) url opts (files w) in
  downloadSingleStream env url format prefixPath w
  = match fst ran with
    | Some e => (Throw e, mkWorld (snd ran) (trace w ++ [EvYtDlp url opts]))
    | None =>
        (match hd_error (prefixMatches (snd ran) prefixPath) with
         | Some f => Ok f
         | None => Throw (streamNotFound prefixPath)
         end,
         mkWorld (snd ran) (trace w ++ [EvYtDlp url opts; EvReaddir]))
    end.
Proof.
  intros opts ran. unfold downloadSingleStream. fold (streamOptions env format prefixPath).
  fold opts. unfold ytDlp. unfold bind at 1. unfold bind at 1. unfold getTrace at 1.
  cbv beta iota. unfold bind at 1. unfold bind at 1. unfold getFiles at 1. cbv beta iota.
  unfold bind at 1. unfold bind at 1. unfold emit at 1. cbv beta iota. cbn [files trace].
  fold ran. destruct ran as [[e|] fs']; cbn [fst snd].
  - unfold bind, setFiles, throw. reflexivity.
  - unfold setFiles at 1. cbv beta iota. cbn [files trace].
    unfold bind. rewrite ResolverFacts.resolveFileByPrefix_eq. cbn [files trace].
    rewrite <- app_assoc. cbn [app].
    destruct (hd_error (prefixMatches fs' prefixPath)); reflexivity.
Qed.

End StreamFacts.

(** X13.  [downloadSingleStream] leaves the directory as the downloader
    left it.  If the downloader rejects, its error is passed on.  If it
    resolves, the result is the most recently modified listed name that
    starts with the prefix and is not partial; and when there is no such
    name, the error raised is the stream-not-found one, which the
    orchestrator counts as a merge issue. *)
Theorem stream_download_outcomes (env : Env) (url format prefixPath : string) (w : World) :
  let opts := streamOptions env format prefixPath in
  let ran := ytDlp_run env (trace w) url opts (files w) in
  let outcome := downloadSingleStream env url format prefixPath w in
  files (snd outcome) = snd ran /\
  match fst ran with
  | Some e => fst outcome = Throw e
  | None =>
      match fst outcome with
      | Ok f =>
          In f (Fs.readdir (snd ran)) /\
          Str.startsWith f prefixPath = true /\
          isPartial f = false /\
          forall n, In n (Fs.readdir (snd ran)) ->
                    Str.startsWith n prefixPath = true -> isPartial n = false ->
                    Fs.mtimeOf (snd ran) n <= Fs.mtimeOf (snd ran) f
      | Throw e =>
          e = streamNotFound prefixPath /\
          looksLikeMergeIssue e = true /\
          forall n, In n (Fs.readdir (snd ran)) ->
                    Str.startsWith n prefixPath = true -> isPartial n = true
      end
  end.
Proof.
  intros opts ran outcome. unfold outcome.
  rewrite StreamFacts.downloadSingleStream_eq. cbv zeta. fold opts. fold ran.
  destruct (fst ran) as [e|]; cbn [fst snd files]; [auto|].
  split; [reflexivity|].
  pose proof (ResolverFacts.prefixMatches_sorted (snd ran) prefixPath) as S.
  pose proof (ResolverFacts.In_prefixMatches (snd ran) prefixPath) as I.
  destruct (hd_error (prefixMatches (snd ran) prefixPath)) as [f|] eqn:E.
  - destruct (SortFacts.hd_newest (Fs.mtimeOf (snd ran)) _ _ S E) as [In1 N].
    apply I in In1 as In1'. destruct In1' as (Ha & Hb & Hc).
    repeat split; auto. intros n Hn Hs Hp. apply N. apply I. auto.
  - split; [reflexivity|]. split; [apply StreamFacts.streamNotFound_is_merge_issue|].
    intros n Hn Hs. destruct (isPartial n) eqn:P; [reflexivity|].
    assert (Hin : In n (prefixMatches (snd ran) prefixPath)) by (apply I; auto).
    destruct (prefixMatches (snd ran) prefixPath); [contradiction | discriminate].
Qed.

(** X14.  Whatever makes the high-quality path fail by its own doing is
    a merge issue: an error it throws is the rejection of the downloader,
    the [error] event of the encoder, the text the encoder wrote to its
    standard error, or else an error that [looksLikeMergeIssue] accepts
    (a stream that was not found, an exit-code message). *)
Theorem high_quality_own_failures_are_merge_issues
    (env : Env) (url outputPath : string) (w w1 : World) (e : JsError)
    (H : downloadHighQualityMerged env url outputPath w = (Throw e, w1)) :
  (exists tr u opts fs, fst (ytDlp_run env tr u opts fs) = Some e) \/
  (exists tr bin args fs, fst (ffmpeg_run env tr bin args fs) = SpawnError e) \/
  (exists tr bin args fs code chunks,
     fst (ffmpeg_run env tr bin args fs) = Closed code chunks /\
     Str.isEmpty (String.concat "" chunks) = false /\
     e = newError (String.concat "" chunks)) \/
  looksLikeMergeIssue e = true.
Proof.
  set (t := Date_now env (trace w)) in *.
  set (videoPrefix := tempPrefixOf outputPath t ++ ".video").
  set (audioPrefix := tempPrefixOf outputPath t ++ ".audio").
  set (body := (videoPath <- downloadSingleStream env url (videoFormat env) videoPrefix ;;
                audioPath <- downloadSingleStream env url audioFormat audioPrefix ;;
                mergeWithFfmpeg env videoPath audioPath outputPath)).
  change (downloadHighQualityMerged env url outputPath w)
    with (tryFinally body (cleanupByPrefix videoPrefix ;; cleanupByPrefix audioPrefix) w) in H.
  unfold tryFinally, bind in H.
  destruct (body w) as [r wb] eqn:B.
  destruct (CleanupFacts.cleanupByPrefix_eq videoPrefix wb) as [tr1 E1]. rewrite E1 in H.
  destruct (CleanupFacts.cleanupByPrefix_eq audioPrefix
              (mkWorld (afterCleanup (files wb) videoPrefix) tr1)) as [tr2 E2].
  rewrite E2 in H. injection H as -> _. clear E1 E2.
  assert (Stream : forall format prefix w0 w0',
             downloadSingleStream env url format prefix w0 = (Throw e, w0') ->
             (exists tr u opts fs, fst (ytDlp_run env tr u opts fs) = Some e) \/
             looksLikeMergeIssue e = true).
  { intros format prefix w0 w0'. rewrite StreamFacts.downloadSingleStream_eq. cbv zeta.
    destruct (fst (ytDlp_run env _ _ _ _)) as [e0|] eqn:R.
    - intros X. injection X as -> _. left. eauto.
    - destruct (hd_error _); [discriminate|]. intros X. injection X as <- _.
      right. apply StreamFacts.streamNotFound_is_merge_issue. }
  unfold body, bind in B.
  destruct (downloadSingleStream env url (videoFormat env) videoPrefix w) as [[vp|e1] wv] eqn:V.
  2:{ injection B as -> _. destruct (Stream _ _ _ _ V); auto. }
  destruct (downloadSingleStream env url audioFormat audioPrefix wv) as [[ap|e2] wa] eqn:A.
  2:{ injection B as -> _. destruct (Stream _ _ _ _ A); auto. }
  rewrite MergeFacts.mergeWithFfmpeg_eq in B. cbv zeta in B.
  destruct (fst (ffmpeg_run env _ _ _ _)) as [err|code chunks] eqn:R.
  - injection B as -> _. right. left. eauto.
  - assert (F : Throw (A:=unit) (newError (Str.orElse (String.concat "" chunks)
                          ("ffmpeg exited with code " ++ exitCodeText code)))
                = Throw e ->
                (exists tr bin args fs code chunks,
                   fst (ffmpeg_run env tr bin args fs) = Closed code chunks /\
                   Str.isEmpty (String.concat "" chunks) = false /\
                   e = newError (String.concat "" chunks)) \/
                looksLikeMergeIssue e = true).
    { unfold Str.orElse. destruct (Str.isEmpty (String.concat "" chunks)) eqn:Em.
      - intros X. injection X as <-. right. apply StreamFacts.exitCode_is_merge_issue.
      - intros X. injection X as <-. left. eauto 10. }
    destruct (isZero code).
    + destruct (Fs.exists_ _ outputPath); [discriminate|].
      injection B as B _. right. right. apply F. now f_equal.
    + injection B as B _. right. right. apply F. now f_equal.
Qed.

Lemma high_quality_own_failures_are_merge_issues_witness :
  (exists tr u opts fs,
     fst (ytDlp_run (Sample.envWith Sample.downloadsWebm (Sample.ffmpegExits 1 []))
            tr u opts fs)
     = Some (newError "ffmpeg exited with code 1")) \/
  (exists tr bin args fs,
     fst (ffmpeg_run (Sample.envWith Sample.downloadsWebm (Sample.ffmpegExits 1 []))
            tr bin args fs)
     = SpawnError (newError "ffmpeg exited with code 1")) \/
  (exists tr bin args fs code chunks,
     fst (ffmpeg_run (Sample.envWith Sample.downloadsWebm (Sample.ffmpegExits 1 []))
            tr bin args fs) = Closed code chunks /\
     Str.isEmpty (String.concat "" chunks) = false /\
     newError "ffmpeg exited with code 1" = newError (String.concat "" chunks)) \/
  looksLikeMergeIssue (newError "ffmpeg exited with code 1") = true.
Proof.
  let r := eval vm_compute in
             (downloadHighQualityMerged
                (Sample.envWith Sample.downloadsWebm (Sample.ffmpegExits 1 []))
                sampleUrl sampleOutput Sample.emptyWorld) in
  lazymatch r with
  | (Throw ?e, ?w1) =>
      exact (high_quality_own_failures_are_merge_issues
               (Sample.envWith Sample.downloadsWebm (Sample.ffmpegExits 1 []))
               sampleUrl sampleOutput Sample.emptyWorld w1 (newError "ffmpeg exited with code 1")
               ltac:(vm_compute; reflexivity))
  end.
Defined.

(** ** The progress reporter, continued *)

Module OverlapFacts.
Import Countdown.

Lemma edits_from (sched : list Input) :
  forall st : State,
    (List.length (snd (run st sched)) + (if updating st then 1 else 0)
     = settledEdits st sched + (if updating (fst (run st sched)) then 1 else 0))%nat.
Proof.
  induction sched as [|i sched IH]; intros st; cbn [run settledEdits].
  - cbn. lia.
  - destruct i as [|outcome]; cbn [step].
    + unfold tickBegin. destruct (updating st) eqn:U.
      * cbn [fst]. specialize (IH st). rewrite U in IH.
        destruct (run st sched) as [st'' edits]. cbn [fst snd] in *. lia.
      * cbn [fst]. specialize (IH (mkState (if remaining st - 1 <=? 0 then cycleSeconds
                                            else remaining st - 1) true)).
        cbn [updating] in IH.
        destruct (run _ sched) as [st'' edits]. cbn [fst snd List.length] in *. lia.
    + destruct (updating st) eqn:U; cbn [fst].
      * specialize (IH (tickEnd outcome st)). cbn [tickEnd updating] in IH.
        destruct (run _ sched) as [st'' edits]. cbn [fst snd] in *. lia.
      * specialize (IH st). rewrite U in IH.
        destruct (run st sched) as [st'' edits]. cbn [fst snd] in *. lia.
Qed.

End OverlapFacts.

(** X15.  The interval callback never has two edits in flight: after any
    schedule of firings and settlements, the number of edits started is
    the number of edits settled, plus one exactly when the [updating]
    flag is set. *)
Theorem never_two_edits_in_flight (sched : list Countdown.Input) :
  List.length (snd (Countdown.run Countdown.initial sched))
  = (settledEdits Countdown.initial sched
     + (if Countdown.updating (fst (Countdown.run Countdown.initial sched)) then 1 else 0))%nat.
Proof.
  pose proof (OverlapFacts.edits_from sched Countdown.initial) as H.
  cbn [Countdown.initial Countdown.updating] in H. lia.
Qed.


(** ** The paths a job names *)

Module ConfineFacts.
Import StrFacts TraceFacts.

Lemma startsWith_app (p x : string) : Str.startsWith (p ++ x) p = true.
Proof. apply startsWith_append. now exists x. Qed.

Lemma startsWith_trans (s p q : string) :
  Str.startsWith s p = true -> Str.startsWith p q = true -> Str.startsWith s q = true.
Proof.
  rewrite !startsWith_append. intros [x ->] [y ->]. exists (y ++ x).
  now rewrite append_assoc.
Qed.

(** The base of a built path is the path without its extension. *)
Lemma built_base (a b c : Z) :
  let base := "video_" ++ Str.ofZ a ++ "_" ++ Str.ofZ b ++ "_" ++ Str.ofZ c in
  "video_" ++ Str.ofZ a ++ "_" ++ Str.ofZ b ++ "_" ++ Str.ofZ c ++ ".mp4" = base ++ ".mp4" /\
  basenameWithout (base ++ ".mp4") (extname (base ++ ".mp4")) = base.
Proof.
  intros base.
  set (stem := "ideo_" ++ Str.ofZ a ++ "_" ++ Str.ofZ b ++ "_" ++ Str.ofZ c).
  assert (Hstem : Str.all notDot stem = true).
  { unfold stem. rewrite !all_append.
    rewrite !(NameFacts.all_impl numChar notDot _ NameFacts.numChar_notDot
                (NameFacts.ofZ_numChars _)).
    reflexivity. }
  assert (Hb : base = String "v" stem) by reflexivity.
  split.
  - unfold base. repeat (progress (rewrite ?append_assoc; cbn [append])). reflexivity.
  - rewrite Hb. change (String "v" stem ++ ".mp4") with (String "v" (stem ++ ".mp4")).
    assert (Hext : extname (String "v" (stem ++ ".mp4")) = ".mp4").
    { unfold extname. rewrite (NameFacts.lastDotSuffix_mp4 stem Hstem).
      destruct (stem ++ ".mp4") as [|x [|y t]]; reflexivity. }
    rewrite Hext. unfold basenameWithout.
    change (String "v" (stem ++ ".mp4")) with (String "v" stem ++ ".mp4").
    now rewrite take_append.
Qed.

Section Job.
Context (env : Env) (base : string).

Local Abbreviation p := (withinJob base).

Lemma Emits_safeDelete_in (f : string) :
  Str.startsWith f base = true -> Emits p (safeDelete f).
Proof. intros H. unfold safeDelete, existsSync, unlinkSync. emits; exact H. Qed.

Lemma Emits_cleanup_in (prefix : string) :
  Str.startsWith prefix base = true -> Emits p (cleanupByPrefix prefix).
Proof.
  intros H. unfold cleanupByPrefix, readdirSync. cbv zeta.
  apply Emits_bind; [emits; reflexivity | intros listing].
  apply Emits_forOf. intros name.
  destruct (Str.startsWith name prefix) eqn:S; [|apply Emits_ret].
  apply Emits_safeDelete_in. eauto using startsWith_trans.
Qed.

Lemma Emits_stream_in (url format prefix : string) :
  Str.startsWith prefix base = true ->
  Emits p (downloadSingleStream env url format prefix).
Proof.
  intros H. unfold downloadSingleStream.
  apply Emits_bind.
  { apply PathFacts.Emits_ytDlp. unfold withFfmpegLocation. cbn [withinJob o_output].
    eapply startsWith_trans; [apply startsWith_app | exact H]. }
  intros _. apply Emits_bind.
  { unfold resolveFileByPrefix, readdirSync. emits; reflexivity. }
  intros [f|]; emits.
Qed.

Lemma Emits_merge_in (videoPath audioPath outputPath : string) :
  Str.startsWith outputPath base = true ->
  Emits p (mergeWithFfmpeg env videoPath audioPath outputPath).
Proof.
  intros H. unfold mergeWithFfmpeg. cbv zeta.
  apply Emits_bind; [now apply Emits_safeDelete_in | intros _].
  apply Emits_bind; [apply PathFacts.Emits_spawn; exact H | intros outcome].
  unfold existsSync. emits; exact H.
Qed.

Lemma Emits_hq_in (url outputPath : string) :
  Str.startsWith outputPath base = true ->
  Emits p (downloadHighQualityMerged env url outputPath).
Proof.
  intros H. unfold downloadHighQualityMerged.
  apply Emits_bind; [apply PathFacts.Emits_now | intros t]. cbv zeta.
  assert (T : forall x, Str.startsWith (tempPrefixOf outputPath t ++ x) base = true).
  { intros x. unfold tempPrefixOf. rewrite !append_assoc.
    eapply startsWith_trans; [apply startsWith_app | exact H]. }
  apply Emits_tryFinally.
  - apply Emits_bind; [apply Emits_stream_in, T | intros v].
    apply Emits_bind; [apply Emits_stream_in, T | intros a].
    now apply Emits_merge_in.
  - apply Emits_bind; [apply Emits_cleanup_in, T | intros _; apply Emits_cleanup_in, T].
Qed.

Lemma Emits_resolveFile_in (downloadFn : string -> string -> M unit)
    (url outputPath : string) :
  Str.startsWith outputPath base = true ->
  Emits p (downloadFn url outputPath) ->
  Emits p (runAndResolveFile downloadFn url outputPath).
Proof.
  intros H D. unfold runAndResolveFile, existsSync, readdirSync.
  emits; first [exact D | exact H | reflexivity].
Qed.

Lemma Emits_downloadVideo_in (url outputPath : string) :
  Str.startsWith outputPath base = true ->
  Emits p (downloadVideo env url outputPath).
Proof.
  intros H. unfold downloadVideo. apply Emits_tryCatch.
  - apply Emits_bind; [|intros f; apply Emits_ret].
    apply Emits_resolveFile_in; [exact H | now apply Emits_hq_in].
  - intros e. destruct (negb (looksLikeMergeIssue e)); [apply Emits_throw|].
    apply Emits_bind; [|intros f; apply Emits_ret].
    apply Emits_resolveFile_in; [exact H|].
    unfold downloadProgressiveFallback. apply PathFacts.Emits_ytDlp. exact H.
Qed.

Lemma Emits_deliver_in (chat : Z) (s : StatusSession) (result : DownloadResult) :
  Str.startsWith (filePath result) base = true ->
  Emits p (deliver env chat s result).
Proof.
  intros H. unfold deliver, stop, editMessageText, sendMessage, sendVideo, statSync.
  cbv zeta. emits; try reflexivity; try exact H.
  all: now apply Emits_safeDelete_in.
Qed.

Lemma Emits_onError_in (chat : Z) (outputPath : string) (status : option StatusSession)
    (downloadedPath : option string) (e : JsError) :
  Str.startsWith outputPath base = true ->
  (forall f, downloadedPath = Some f -> Str.startsWith f base = true) ->
  Emits p (onError env chat outputPath status downloadedPath e).
Proof.
  intros H Hd.
  assert (Tail : Emits p (match downloadedPath with
                          | Some f => if Str.isEmpty f then cleanupByPrefix outputPath
                                      else safeDelete f
                          | None => cleanupByPrefix outputPath
                          end)).
  { destruct downloadedPath as [f|]; [destruct (Str.isEmpty f)|];
      auto using Emits_cleanup_in, Emits_safeDelete_in. }
  unfold onError, stop, editMessageText, sendMessage.
  apply Emits_bind; [apply Emits_emit; reflexivity | intros _].
  apply Emits_bind; [emits; reflexivity | intros _].
  apply Emits_bind; [emits; reflexivity | intros _].
  exact Tail.
Qed.

End Job.

(** What a resolved name starts with. *)
Lemma runAndResolveFile_within
    (downloadFn : string -> string -> M unit) (url outputPath name : string) (w w' : World) :
  runAndResolveFile downloadFn url outputPath w = (Ok name, w') ->
  name = outputPath \/
  Str.startsWith name (basenameWithout outputPath (extname outputPath)) = true.
Proof.
  intros H. destruct (downloadFn url outputPath w) as [[[]|e] w1] eqn:D.
  - destruct (Fs.exists_ (files w1) outputPath) eqn:X.
    + rewrite (ResolverFacts.runAndResolveFile_present _ _ _ _ _ D X) in H.
      injection H as <- _. auto.
    + rewrite (ResolverFacts.runAndResolveFile_missing _ _ _ _ _ D X) in H.
      injection H as H _.
      destruct (ResolverFacts.scanOutcome_ok _ _ _ H) as (El & _).
      right. apply El.
  - rewrite (ResolverFacts.runAndResolveFile_throws _ _ _ _ _ _ D) in H. discriminate.
Qed.

Lemma downloadVideo_within (env : Env) (url outputPath : string) (w w' : World)
    (result : DownloadResult) :
  downloadVideo env url outputPath w = (Ok result, w') ->
  filePath result = outputPath \/
  Str.startsWith (filePath result) (basenameWithout outputPath (extname outputPath)) = true.
Proof.
  unfold downloadVideo, tryCatch. unfold bind at 1.
  destruct (runAndResolveFile (downloadHighQualityMerged env) url outputPath w)
    as [[name|e] w1] eqn:R.
  - intros H. injection H as <- _. cbn [filePath].
    now apply (runAndResolveFile_within _ _ _ _ _ _ R).
  - destruct (looksLikeMergeIssue e); cbn [negb]; [|discriminate].
    intros H. apply ResolveMoreFacts.bind_ok_inv in H. destruct H as (name & w2 & R2 & H).
    injection H as <- _. cbn [filePath].
    now apply (runAndResolveFile_within _ _ _ _ _ _ R2).
Qed.

Lemma Emits_handler_in (env : Env) (base url : string) (chat : Z) :
  basenameWithout (base ++ ".mp4") (extname (base ++ ".mp4")) = base ->
  Emits (withinJob base)
    (caseOf (startCountdownStatus env chat)
       (fun status =>
          caseOf (downloadVideo env url (base ++ ".mp4"))
            (fun result =>
               tryCatch (deliver env chat status result)
                 (onError env chat (base ++ ".mp4") (Some status) (Some (filePath result))))
            (onError env chat (base ++ ".mp4") (Some status) None))
       (onError env chat (base ++ ".mp4") None None)).
Proof.
  intros B.
  pose proof (startsWith_app base ".mp4") as O.
  apply Emits_caseOf.
  - unfold startCountdownStatus, sendMessage. emits; reflexivity.
  - intros status.
    apply (ChatFacts.Emits_caseOf_post _
             (fun result => Str.startsWith (filePath result) base = true)).
    + now apply Emits_downloadVideo_in.
    + intros w result w' D. apply downloadVideo_within in D. rewrite B in D.
      destruct D as [-> | D]; auto.
    + intros result R. apply Emits_tryCatch; [now apply Emits_deliver_in|].
      intros e. apply Emits_onError_in; [exact O|]. now intros f [= <-].
    + intros e. apply Emits_onError_in; [exact O | discriminate].
  - intros e. apply Emits_onError_in; [exact O | discriminate].
Qed.

End ConfineFacts.

(** X16.  Every path the handler names in a request starts with the base
    name of its own job, [video_<chat>_<message>_<time>]: the paths it
    tests, deletes, measures and sends, the output templates it gives the
    downloader and the output file it gives the encoder. *)
Theorem handler_names_only_job_paths (env : Env) (msg : Message) (w : World) :
  exists t,
    trace (snd (onMessage env msg w)) = (trace w ++ t)%list /\
    forallb (withinJob (jobBase env msg w)) t = true.
Proof.
  unfold onMessage. cbv zeta.
  destruct (extractYouTubeUrl (Some (messageText msg))) as [url|].
  - unfold bind at 1. rewrite NameFacts.buildOutputPath_eq.
    destruct (ConfineFacts.built_base (m_chatId msg) (m_messageId msg)
                (Date_now env (trace w))) as [E B].
    cbv zeta in E, B. fold (jobBase env msg w) in E, B. rewrite E.
    exact (ConfineFacts.Emits_handler_in env (jobBase env msg w) url (m_chatId msg) B w).
  - exists []. cbn. now rewrite app_nil_r.
Qed.

(** ** The fallback notice *)

Module NoticeFacts.
Import TraceFacts.

Lemma fs_quiet (ev : Event) : isFsEvent ev = true -> notFallbackNotice ev = true.
Proof. destruct ev; intros H; try discriminate H; reflexivity. Qed.

Lemma Emits_onError_quiet (env : Env) (chat : Z) (outputPath : string)
    (status : option StatusSession) (downloadedPath : option string) (e : JsError) :
  Emits notFallbackNotice (onError env chat outputPath status downloadedPath e).
Proof.
  assert (Tail : Emits notFallbackNotice
                   (match downloadedPath with
                    | Some f => if Str.isEmpty f then cleanupByPrefix outputPath
                                else safeDelete f
                    | None => cleanupByPrefix outputPath
                    end)).
  { destruct downloadedPath as [f|]; [destruct (Str.isEmpty f)|];
      auto using Emits_cleanupByPrefix, Emits_safeDelete, fs_quiet. }
  unfold onError, stop, editMessageText, sendMessage.
  apply Emits_bind; [apply Emits_emit; reflexivity | intros _].
  apply Emits_bind; [emits; reflexivity | intros _].
  apply Emits_bind; [emits; reflexivity | intros _].
  exact Tail.
Qed.

Lemma Emits_deliver_quiet (env : Env) (chat : Z) (s : StatusSession)
    (result : DownloadResult) :
  usedFallback result = false ->
  Emits notFallbackNotice (deliver env chat s result).
Proof.
  intros U. unfold deliver. rewrite U.
  unfold stop, editMessageText, sendMessage, sendVideo. cbv zeta.
  emits; try reflexivity.
  all: auto using Emits_statSync, Emits_safeDelete, fs_quiet.
Qed.

Lemma none_of {A : Type} (q : A -> bool) (l : list A) :
  forallb (fun x => negb (q x)) l = true -> existsb q l = false.
Proof.
  induction l as [|x l IH]; cbn; [reflexivity|].
  rewrite andb_true_iff. intros [Hx Hl]. apply negb_true_iff in Hx.
  now rewrite Hx, IH.
Qed.

(** With the fallback used, the notice is the first request of the
    delivery. *)
Lemma notice_first (env : Env) (chat : Z) (s : StatusSession) (result : DownloadResult)
    (h : JsError -> M unit) (w : World) :
  usedFallback result = true ->
  (forall e, Emits (fun _ => true) (h e)) ->
  exists t,
    trace (snd (tryCatch (deliver env chat s result) h w))
    = (trace w ++ EvSendMessage chat fallbackNotice :: t)%list.
Proof.
  intros U Hh.
  set (rest := (stats <- statSync (filePath result) ;;
                if d_size stats >? TELEGRAM_VIDEO_LIMIT_BYTES then
                  stop env s tooLargeText ;;
                  sendMessage env chat tooLargeText ;;
                  safeDelete (filePath result)
                else
                  sendVideo env chat (filePath result) "Here is your downloaded video." ;;
                  stop env s "Video sent successfully." ;;
                  safeDelete (filePath result))).
  assert (R : Emits (fun _ => true) rest).
  { pose proof (SessionFacts.Emits_deliver_any env chat s (mkResult (filePath result) false))
      as D.
    unfold deliver in D. cbv zeta in D. cbn [usedFallback filePath] in D.
    intros w0. destruct (D w0) as (t & Et & Pt). unfold bind at 1 in Et.
    cbn [ret] in Et. exists t. split; [exact Et | exact Pt]. }
  assert (D : deliver env chat s result
              = ((sendMessage env chat fallbackNotice ;; ret tt) ;; rest)).
  { unfold deliver. cbv zeta. now rewrite U. }
  rewrite D. unfold tryCatch. unfold bind at 1. unfold bind at 1.
  rewrite HandlerFacts.sendMessage_eq.
  destruct (bot_sendMessage env (trace w) chat fallbackNotice) as [m|e]; cbv beta iota.
  - cbn [ret].
    destruct (R (mkWorld (files w) (trace w ++ [EvSendMessage chat fallbackNotice])))
      as (t1 & E1 & _).
    destruct (rest _) as [[[]|e] w3]; cbn [snd trace] in *.
    + exists t1. rewrite E1, <- app_assoc. reflexivity.
    + destruct (Hh e w3) as (t2 & E2 & _). exists (t1 ++ t2)%list.
      rewrite E2, E1, <- !app_assoc. reflexivity.
  - destruct (Hh e (mkWorld (files w) (trace w ++ [EvSendMessage chat fallbackNotice])))
      as (t2 & E2 & _).
    exists t2. rewrite E2. cbn [trace]. rewrite <- app_assoc. reflexivity.
Qed.

End NoticeFacts.

(** X17.  After [downloadVideo] has resolved, the handler sends the
    fallback notice exactly when the fallback was used: with
    [usedFallback] set the notice is among the requests that follow, and
    without it no request that follows is the notice. *)
Theorem fallback_notice_iff_fallback_used
    (env : Env) (msg : Message) (url outputPath : string) (w w1 w2 : World)
    (status : StatusSession) (result : DownloadResult)
    (Hurl : extractYouTubeUrl (m_text msg) = Some url)
    (Hpath : buildOutputPath env (m_chatId msg) (m_messageId msg) w = (Ok outputPath, w))
    (Hstatus : startCountdownStatus env (m_chatId msg) w = (Ok status, w1))
    (Hdl : downloadVideo env url outputPath w1 = (Ok result, w2)) :
  exists t,
    trace (snd (onMessage env msg w)) = (trace w2 ++ t)%list /\
    existsb isFallbackNotice t = usedFallback result.
Proof.
  rewrite (DeliveryFacts.onMessage_reaches_delivery env msg url outputPath w w1 w2
             status result Hurl Hpath Hstatus Hdl).
  destruct (usedFallback result) eqn:U.
  - destruct (NoticeFacts.notice_first env (m_chatId msg) status result
                (onError env (m_chatId msg) outputPath (Some status) (Some (filePath result)))
                w2 U) as (t & E).
    { intros e. apply SessionFacts.Emits_onError_any. }
    eexists. split; [exact E|]. cbn [existsb isFallbackNotice].
    now rewrite String.eqb_refl.
  - assert (Q : Emits notFallbackNotice
                  (tryCatch (deliver env (m_chatId msg) status result)
                     (onError env (m_chatId msg) outputPath (Some status)
                        (Some (filePath result))))).
    { apply TraceFacts.Emits_tryCatch.
      - now apply NoticeFacts.Emits_deliver_quiet.
      - intros e. apply NoticeFacts.Emits_onError_quiet. }
    destruct (Q w2) as (t & E & P).
    exists t. split; [exact E|]. now apply NoticeFacts.none_of.
Qed.

Lemma fallback_notice_iff_fallback_used_witness :
  existsb isFallbackNotice (trace (snd (onMessage fallbackEnv sampleMessage Sample.emptyWorld)))
  = true.
Proof.
  let r := eval vm_compute in (startCountdownStatus fallbackEnv 7 Sample.emptyWorld) in
  lazymatch r with
  | (Ok ?status, ?w1) =>
      let r2 := eval vm_compute in (downloadVideo fallbackEnv sampleUrl sampleOutput w1) in
      lazymatch r2 with
      | (Ok ?result, ?w2) =>
          pose proof (fallback_notice_iff_fallback_used fallbackEnv sampleMessage sampleUrl
                        sampleOutput Sample.emptyWorld w1 w2 status result
                        ltac:(vm_compute; reflexivity) ltac:(vm_compute; reflexivity)
                        ltac:(vm_compute; reflexivity) ltac:(vm_compute; reflexivity)) as P
      end
  end.
  destruct P as (t & E & X).
  rewrite E, existsb_app, X. apply orb_true_r.
Defined.
